(** * go-cpe-dictionary: the storage driver and its bulk-replace protocol

    A shallow embedding of package [db] (the driver interface, [NewDB],
    [chunkSlice] and the relational driver [RDBDriver]) together with the
    properties of the dictionary storage engine that are stated about it.

    Go values are embedded as follows.
    - [int] is a 64-bit two's-complement integer: a [Z] together with the
      wrap-around of every addition ([int_add]).
    - a slice is a [list]; [s[lo:hi]] is [slice s lo hi].
    - an [error] is a value of the inductive type [error]; [nil] is [None].
    - the channel returned by [chunkSlice] is the list of values sent on it,
      in order, with a flag telling whether the channel was closed.
    - the database behind a [*gorm.DB] is a [World]: the stored rows, the
      pre-image kept by an open transaction, the statements issued so far,
      an oracle that says which statement the backend fails, and the [LIKE]
      operator of the backend. *)

From Stdlib Require Import ZArith String Ascii List Bool Lia.
Import ListNotations.
Open Scope string_scope.
Open Scope list_scope.
Open Scope Z_scope.

(** ** Go's [int] *)

Module GoInt.

Definition max_int : Z := 9223372036854775807.
Definition min_int : Z := -9223372036854775808.

(** The value an arithmetic result takes once it is stored in an [int]. *)
Definition wrap (x : Z) : Z := (x + 9223372036854775808) mod 18446744073709551616 - 9223372036854775808.

Definition int_add (x y : Z) : Z := wrap (x + y).
Definition int_sub (x y : Z) : Z := wrap (x - y).

Definition is_int (x : Z) : Prop := min_int <= x <= max_int.

End GoInt.
Import GoInt.

(** ** The chunker *)

(** [IndexChunk] has a starting point and an ending point for a chunk. *)
Record IndexChunk : Type := { From : Z; To : Z }.

(** The goroutine of [chunkSlice]: the loop
    [for i := 0; i < length; i += chunkSize], started at [i].  Each
    iteration sends one [IndexChunk]; leaving the loop closes the channel.
    The result is the list of the values sent within [fuel] iterations and
    whether the channel has been closed by then. *)
Fixpoint chunk_loop (fuel : nat) (length chunkSize i : Z) : list IndexChunk * bool :=
  match fuel with
  | O => ([], false)
  | S fuel' =>
      if i <? length then
        let idx := {| From := i; To := int_add i chunkSize |} in
        let idx := if length <? To idx then {| From := From idx; To := length |} else idx in
        let (sent, closed) := chunk_loop fuel' length chunkSize (int_add i chunkSize) in
        (idx :: sent, closed)
      else ([], true)
  end.

(** What a consumer that ranges over the channel receives.  The loop needs
    at most [length] iterations when it terminates at all, so this fuel
    never cuts a terminating run short (see [chunk_loop_closes]). *)
Definition chunkSlice (length chunkSize : Z) : list IndexChunk :=
  fst (chunk_loop (S (Z.to_nat length)) length chunkSize 0).

(** The indices of the half-open range [[a, b)], in increasing order. *)
Definition range (a b : Z) : list Z :=
  map (fun k => a + Z.of_nat k) (seq 0 (Z.to_nat (b - a))).

Definition indices (c : IndexChunk) : list Z := range (From c) (To c).

Definition size (c : IndexChunk) : Z := To c - From c.

(** [chain a cs b]: the ranges of [cs] are non-empty, start at [a], each one
    begins where the one before it ends, and the last one ends at [b]. *)
Fixpoint chain (a : Z) (cs : list IndexChunk) (b : Z) : Prop :=
  match cs with
  | [] => a = b
  | c :: cs' => From c = a /\ From c < To c /\ chain (To c) cs' b
  end.

(** Every range but the last has exactly [S] indices; the last has between
    one and [S]. *)
Fixpoint full_but_last (S : Z) (cs : list IndexChunk) : Prop :=
  match cs with
  | [] => True
  | c :: cs' =>
      match cs' with
      | [] => 0 < size c <= S
      | _ :: _ => size c = S /\ full_but_last S cs'
      end
  end.

(** The chunker property: the channel is closed after finitely many sends
    and the ranges sent tile [[0, N)]. *)
Definition tiles (N S : Z) (cs : list IndexChunk) : Prop :=
  chain 0 cs N /\
  flat_map indices cs = range 0 N /\
  Forall (fun c => 0 <= From c /\ From c < To c /\ To c <= N /\ size c <= S) cs /\
  full_but_last S cs /\
  (N = 0 -> cs = []).

Definition chunker_coverage (N S : Z) : Prop :=
  exists fuel cs, chunk_loop fuel N S 0 = (cs, true) /\ tiles N S cs.

(** No addition of the loop overflows: the length rounded up to a multiple
    of the chunk size is still an [int]. *)
Definition no_overflow (N S : Z) : Prop := S * ((N + S - 1) / S) <= max_int.

(** ** Slices *)

Definition len {A : Type} (s : list A) : Z := Z.of_nat (length s).

(** [s[lo:hi]].  Go panics unless [0 <= lo <= hi <= cap(s)]; the ranges the
    chunker sends for a slice length are always within [[0, len s]]
    ([chunkSlice_in_bounds]), where this is the Go value. *)
Definition slice {A : Type} (s : list A) (lo hi : Z) : list A :=
  firstn (Z.to_nat (hi - lo)) (skipn (Z.to_nat lo) s).

(** ** Errors *)

(** The error values this package sees or builds.  [wrapped] is an
    [xerrors.Errorf] whose format ends in [%w]: it unwraps to its cause.
    [text_error] and [printed_error] only carry text ([xerrors.New],
    [fmt.Errorf], [xerrors.Errorf] without [%w]): the format and its string
    operands, and for [printed_error] the error printed by the last [%s],
    to which it does not unwrap. *)
Inductive error : Type :=
| gorm_ErrRecordNotFound
| sqlite3_Error (Code : Z)
| foreign_error (text : string)
| text_error (format : string) (operands : list string)
| printed_error (format : string) (operands : list string) (printed : error)
| wrapped (format : string) (cause : error).

(** [errors.Is(err, gorm.ErrRecordNotFound)]: follows the [Unwrap] chain. *)
Fixpoint is_ErrRecordNotFound (err : error) : bool :=
  match err with
  | gorm_ErrRecordNotFound => true
  | wrapped _ cause => is_ErrRecordNotFound cause
  | _ => false
  end.

(** go-sqlite3's result codes SQLITE_BUSY and SQLITE_LOCKED. *)
Definition sqlite3_ErrBusy : Z := 5.
Definition sqlite3_ErrLocked : Z := 6.

(** What a database driver reports when a statement fails: an
    [sqlite3.Error] or an error of any other concrete type.  A driver never
    reports gorm's own [ErrRecordNotFound]; gorm raises that one itself, and
    only from [Take]. *)
Inductive fault : Type :=
| fault_sqlite3 (Code : Z)
| fault_other (text : string).

Definition fault_error (f : fault) : error :=
  match f with
  | fault_sqlite3 c => sqlite3_Error c
  | fault_other t => foreign_error t
  end.

(** A call that either returns or panics. *)
Inductive outcome (A : Type) : Type :=
| Returns (a : A)
| Panics (text : string).
Arguments Returns {A} a.
Arguments Panics {A} text.

(** ** Package models *)

Module models.

(** Modelled from the spec: the declaration of [models.FetchType], the
    category tag of an entry.  Only equality of tags is used. *)
Definition FetchType : Type := string.

(** Modelled from the spec: the declaration of [models.CategorizedCpe].  An
    entry has vendor, product, cpeURI, deprecated and fetchType; the primary
    key [ID] and the column [fetch_type] are the ones that the queries of
    [deleteAndInsertCpes] name. *)
Record CategorizedCpe : Type := {
  ID : Z;
  fetch_type : FetchType;
  Vendor : string;
  Product : string;
  CpeURI : string;
  Deprecated : bool
}.

(** Modelled from the spec: the declaration of [models.FetchMeta].  The
    metadata record has revision, schemaVersion and lastFetchedAt; [MetaID]
    is its primary key. *)
Record FetchMeta : Type := {
  MetaID : Z;
  GoCPEDictRevision : string;
  SchemaVersion : Z;
  LastFetchedAt : Z
}.

End models.
Import models.

(** ** The database *)

(** The tables a store can hold: the two this program migrates, and any
    other. *)
Inductive Table : Type :=
| fetch_metas_table
| categorized_cpes_table
| other_table (name : string).

Definition Table_eqb (a b : Table) : bool :=
  match a, b with
  | fetch_metas_table, fetch_metas_table => true
  | categorized_cpes_table, categorized_cpes_table => true
  | other_table x, other_table y => String.eqb x y
  | _, _ => false
  end.

(** The persisted state: the catalogue of tables (what the dialect's
    catalogue relation lists for this database) and the rows of the two
    tables of the program. *)
Record Store : Type := {
  database : string;
  tables : list Table;
  fetch_metas : list FetchMeta;
  categorized_cpes : list CategorizedCpe
}.

(** The calls made on the connection, as the backend sees them. *)
Inductive Stmt : Type :=
| SOpen (dialector dsn : string) (debugSQL : bool)
| SExec (sql : string)
| SAutoMigrate (t : Table)
| SHasTable (t : Table)
| SCurrentDatabase
| SCount (table cond arg : string)
| STake
| SSave (m : FetchMeta)
| SFindVendorProducts
| SFindCpes (cond vendor product : string)
| SBegin
| SCommit
| SRollback
| SFindIDs (fetchType : FetchType)
| SDelete (ids : list Z)
| SCreate (rows : list CategorizedCpe).

(** The progress bar of [deleteAndInsertCpes]. *)
Record ProgressBar : Type := { total : Z; current : Z; finished : bool }.

(** The state the driver runs against.  [oracle n = Some f] says that the
    backend fails the call issued as the [n]-th entry of the log with [f].
    [like value pattern] is the [LIKE] operator of the backend, which differs
    from one backend to the next (case folding, escape character): nothing
    is assumed about it here. *)
Record World : Type := {
  store : Store;
  snapshot : option Store;
  log : list Stmt;
  oracle : nat -> option fault;
  like : string -> string -> bool;
  bar : ProgressBar
}.

(** *** The state monad of the driver *)

Definition M (A : Type) : Type := World -> A * World.

Definition ret {A : Type} (a : A) : M A := fun w => (a, w).

Definition bind {A B : Type} (m : M A) (k : A -> M B) : M B :=
  fun w => let (a, w') := m w in k a w'.

Declare Scope monad_scope.
Delimit Scope monad_scope with monad.
Notation "x <- m ;; k" := (bind m (fun x => k))
  (at level 61, m at next level, right associativity) : monad_scope.
Notation "' p <- m ;; k" := (bind m (fun x => let 'p := x in k))
  (at level 61, p pattern, m at next level, right associativity) : monad_scope.
Notation "m ;; k" := (bind m (fun _ => k))
  (at level 61, right associativity) : monad_scope.
Open Scope monad_scope.

Definition get_store : M Store := fun w => (store w, w).

Definition set_store (s : Store) : M unit := fun w =>
  (tt, {| store := s; snapshot := snapshot w; log := log w; oracle := oracle w; like := like w; bar := bar w |}).

Definition set_snapshot (o : option Store) : M unit := fun w =>
  (tt, {| store := store w; snapshot := o; log := log w; oracle := oracle w; like := like w; bar := bar w |}).

Definition get_snapshot : M (option Store) := fun w => (snapshot w, w).

Definition set_bar (b : ProgressBar) : M unit := fun w =>
  (tt, {| store := store w; snapshot := snapshot w; log := log w; oracle := oracle w; like := like w; bar := b |}).

Definition get_bar : M ProgressBar := fun w => (bar w, w).

Definition get_like : M (string -> string -> bool) := fun w => (like w, w).

(** Issue a call whose error the program reads: it is logged, and the
    oracle decides whether it fails. *)
Definition issue (s : Stmt) : M (option fault) := fun w =>
  (oracle w (length (log w)),
   {| store := store w; snapshot := snapshot w; log := log w ++ [s];
      oracle := oracle w; like := like w; bar := bar w |}).

(** Issue a call whose error the program never reads. *)
Definition note (s : Stmt) : M unit := _ <- issue s ;; ret tt.

(** *** The calls of gorm that the driver makes

    gorm itself is not part of the repository.  Its calls are modelled by
    their effect on the [World]: a call the oracle fails changes nothing and
    reports the driver's error, or, where gorm has no error to report
    ([HasTable], [CurrentDatabase]), the zero value of its result; a call
    that succeeds has the effect of its SQL statement.  [AutoMigrate] is one
    call to the backend for each of its models. *)

Definition gorm_Open (dialector dsn : string) (debugSQL : bool) : M (option error) :=
  f <- issue (SOpen dialector dsn debugSQL) ;;
  ret (option_map fault_error f).

Definition conn_Exec (sql : string) : M unit := note (SExec sql).

Definition add_table (t : Table) (ts : list Table) : list Table :=
  if existsb (Table_eqb t) ts then ts else ts ++ [t].

(** The migration of one model by [AutoMigrate]: its table is in the
    catalogue afterwards, unless the backend fails it. *)
Definition migrate_model (t : Table) : M (option error) :=
  f <- issue (SAutoMigrate t) ;;
  match f with
  | Some e => ret (Some (fault_error e))
  | None =>
      s <- get_store ;;
      set_store {| database := database s;
                   tables := add_table t (tables s);
                   fetch_metas := fetch_metas s;
                   categorized_cpes := categorized_cpes s |} ;;
      ret None
  end.

(** [conn.AutoMigrate(&models.FetchMeta{}, &models.CategorizedCpe{})]: gorm
    migrates the models one after the other, outside any transaction, and
    stops at the first failure; what was migrated before it stays. *)
Definition conn_AutoMigrate : M (option error) :=
  err <- migrate_model fetch_metas_table ;;
  match err with
  | Some e => ret (Some e)
  | None => migrate_model categorized_cpes_table
  end.

(** [conn.Migrator().HasTable(...)]: reports a [bool] only.  gorm drops
    the error of the query behind it: a failed query reads as [false]. *)
Definition Migrator_HasTable (t : Table) : M bool :=
  f <- issue (SHasTable t) ;;
  match f with
  | Some _ => ret false
  | None => s <- get_store ;; ret (existsb (Table_eqb t) (tables s))
  end.

(** [conn.Migrator().CurrentDatabase()]: reports a [string] only.  gorm
    drops the error of the query behind it: a failed query reads as the
    empty name. *)
Definition Migrator_CurrentDatabase : M string :=
  f <- issue SCurrentDatabase ;;
  match f with
  | Some _ => ret ""
  | None => s <- get_store ;; ret (database s)
  end.

(** What a count on a catalogue relation answers.  The [Store] is the one
    database the connection is to: [sqlite_master] lists its tables under
    the type [table], [information_schema.tables] under the schema that
    bears its name, [pg_tables] under the schema [public]; under any other
    argument, and in any other relation, none of its tables is listed. *)
Definition count_rows (table cond arg : string) (s : Store) : Z :=
  if String.eqb table "sqlite_master" && String.eqb cond "type = ?" then
    if String.eqb arg "table" then len (tables s) else 0
  else if String.eqb table "information_schema.tables" && String.eqb cond "table_schema = ?" then
    if String.eqb arg (database s) then len (tables s) else 0
  else if String.eqb table "pg_tables" && String.eqb cond "schemaname = ?" then
    if String.eqb arg "public" then len (tables s) else 0
  else 0.

(** [conn.Table(table).Where(cond, arg).Count(&count).Error] on one of the
    catalogue relations; [count] is left as it was when the call fails. *)
Definition conn_Count (table cond arg : string) (count : Z) : M (Z * option error) :=
  f <- issue (SCount table cond arg) ;;
  match f with
  | Some e => ret (count, Some (fault_error e))
  | None => s <- get_store ;; ret (count_rows table cond arg s, None)
  end.

(** [conn.Take(&fetchMeta).Error]: the first row, or [ErrRecordNotFound]. *)
Definition conn_Take : M (option FetchMeta * option error) :=
  f <- issue STake ;;
  match f with
  | Some e => ret (None, Some (fault_error e))
  | None =>
      s <- get_store ;;
      match fetch_metas s with
      | [] => ret (None, Some gorm_ErrRecordNotFound)
      | m :: _ => ret (Some m, None)
      end
  end.

Definition next_MetaID (ms : list FetchMeta) : Z :=
  1 + fold_right Z.max 0 (map MetaID ms).

(** The record as [Save] stores it: a record without a key (key zero) is
    given the next one. *)
Definition keyed (m : FetchMeta) (ms : list FetchMeta) : FetchMeta :=
  if MetaID m =? 0 then
    {| MetaID := next_MetaID ms; GoCPEDictRevision := GoCPEDictRevision m;
       SchemaVersion := SchemaVersion m; LastFetchedAt := LastFetchedAt m |}
  else m.

(** The row set after [Save]: an update of the row with the same primary
    key, an insert otherwise (with a fresh key when the key is zero). *)
Definition save_row (m : FetchMeta) (ms : list FetchMeta) : list FetchMeta :=
  if MetaID m =? 0 then ms ++ [keyed m ms]
  else if existsb (fun x => MetaID x =? MetaID m) ms then
    map (fun x => if MetaID x =? MetaID m then m else x) ms
  else ms ++ [m].

(** [conn.Save(fetchMeta).Error].  [Save] works through the pointer it is
    given: the key the store gave the record is written back into it, and
    the record as it is after the call is returned next to the error. *)
Definition conn_Save (m : FetchMeta) : M (FetchMeta * option error) :=
  f <- issue (SSave m) ;;
  match f with
  | Some e => ret (m, Some (fault_error e))
  | None =>
      s <- get_store ;;
      set_store {| database := database s; tables := tables s;
                   fetch_metas := save_row m (fetch_metas s);
                   categorized_cpes := categorized_cpes s |} ;;
      ret (keyed m (fetch_metas s), None)
  end.

(** The plainest [LIKE] there is: [%] stands for any run of characters, [_]
    for one, every other character for itself, with no case folding and no
    escape character.  The sample worlds have it; the driver is run against
    the [like] of its world, whatever that is. *)
Fixpoint like_chars (pattern : list ascii) : list ascii -> bool :=
  match pattern with
  | [] => fun s => match s with [] => true | _ :: _ => false end
  | p :: pattern' =>
      if Ascii.eqb p "%" then
        fix any (s : list ascii) : bool :=
          like_chars pattern' s || match s with [] => false | _ :: s' => any s' end
      else if Ascii.eqb p "_" then
        fun s => match s with [] => false | _ :: s' => like_chars pattern' s' end
      else
        fun s => match s with [] => false | c :: s' => Ascii.eqb p c && like_chars pattern' s' end
  end.

Definition sql_like (value pattern : string) : bool :=
  like_chars (list_ascii_of_string pattern) (list_ascii_of_string value).

(** [SELECT DISTINCT]: the first occurrence of every row, in order. *)
Fixpoint distinct {A : Type} (eqb : A -> A -> bool) (rows : list A) : list A :=
  match rows with
  | [] => []
  | r :: rows' => r :: filter (fun x => negb (eqb r x)) (distinct eqb rows')
  end.

Definition pair_eqb {A B : Type} (eqa : A -> A -> bool) (eqb : B -> B -> bool)
  (x y : A * B) : bool := eqa (fst x) (fst y) && eqb (snd x) (snd y).

(** [conn.Model(&models.CategorizedCpe{}).Distinct("vendor", "product").Find(&results).Error];
    [results] stays empty when the call fails. *)
Definition conn_Find_vendor_product : M (list (string * string) * option error) :=
  f <- issue SFindVendorProducts ;;
  match f with
  | Some e => ret ([], Some (fault_error e))
  | None =>
      s <- get_store ;;
      ret (distinct (pair_eqb String.eqb String.eqb)
             (map (fun c => (Vendor c, Product c)) (categorized_cpes s)), None)
  end.

(** The row gorm scans from the two selected columns [cpe_uri] and
    [deprecated]: every other field has its zero value. *)
Definition scanned_cpe (r : string * bool) : CategorizedCpe :=
  {| ID := 0; fetch_type := ""; Vendor := ""; Product := "";
     CpeURI := fst r; Deprecated := snd r |}.

(** [conn.Distinct("cpe_uri", "deprecated").Find(&results, "vendor LIKE ? and product LIKE ?", vendor, product).Error]. *)
Definition conn_Find_cpes (vendor product : string) : M (list CategorizedCpe * option error) :=
  f <- issue (SFindCpes "vendor LIKE ? and product LIKE ?" vendor product) ;;
  match f with
  | Some e => ret ([], Some (fault_error e))
  | None =>
      s <- get_store ;;
      LIKE <- get_like ;;
      ret (map scanned_cpe
             (distinct (pair_eqb String.eqb Bool.eqb)
                (map (fun c => (CpeURI c, Deprecated c))
                   (filter (fun c => LIKE (Vendor c) vendor && LIKE (Product c) product)
                      (categorized_cpes s)))), None)
  end.

(** *** Transactions *)

(** [conn.Begin()]: the transaction keeps the pre-image of the store. *)
Definition conn_Begin : M unit :=
  note SBegin ;;
  s <- get_store ;;
  set_snapshot (Some s).

Definition tx_Commit : M unit :=
  note SCommit ;;
  set_snapshot None.

Definition tx_Rollback : M unit :=
  note SRollback ;;
  o <- get_snapshot ;;
  match o with
  | Some s => set_store s ;; set_snapshot None
  | None => ret tt
  end.

(** The [*gorm.DB] a finisher returns, as far as it is read. *)
Record FindResult : Type := {
  Error : option error;
  RowsAffected : Z;
  found : list Z
}.

(** [tx.Model(models.CategorizedCpe{}).Select("id").Where("fetch_type = ?", fetchType).Find(&oldIDs)]. *)
Definition tx_Find_ids (fetchType : FetchType) : M FindResult :=
  f <- issue (SFindIDs fetchType) ;;
  match f with
  | Some e => ret {| Error := Some (fault_error e); RowsAffected := 0; found := [] |}
  | None =>
      s <- get_store ;;
      let ids := map ID (filter (fun c => String.eqb (fetch_type c) fetchType) (categorized_cpes s)) in
      ret {| Error := None; RowsAffected := len ids; found := ids |}
  end.

Definition mem (x : Z) (xs : list Z) : bool := existsb (Z.eqb x) xs.

Definition delete_ids (ids : list Z) (rows : list CategorizedCpe) : list CategorizedCpe :=
  filter (fun c => negb (mem (ID c) ids)) rows.

(** [tx.Where("id IN ?", ids).Delete(&models.CategorizedCpe{}).Error]. *)
Definition tx_Delete (ids : list Z) : M (option error) :=
  f <- issue (SDelete ids) ;;
  match f with
  | Some e => ret (Some (fault_error e))
  | None =>
      s <- get_store ;;
      set_store {| database := database s; tables := tables s; fetch_metas := fetch_metas s;
                   categorized_cpes := delete_ids ids (categorized_cpes s) |} ;;
      ret None
  end.

Definition next_ID (rows : list CategorizedCpe) : Z :=
  1 + fold_right Z.max 0 (map ID rows).

(** The rows as stored by an insert: a row whose key is zero receives the
    next free key. *)
Fixpoint with_ids (next : Z) (rows : list CategorizedCpe) : list CategorizedCpe :=
  match rows with
  | [] => []
  | c :: rows' =>
      if ID c =? 0 then
        {| ID := next; fetch_type := fetch_type c; Vendor := Vendor c; Product := Product c;
           CpeURI := CpeURI c; Deprecated := Deprecated c |} :: with_ids (next + 1) rows'
      else c :: with_ids (Z.max next (ID c + 1)) rows'
  end.

Definition insert_rows (new rows : list CategorizedCpe) : list CategorizedCpe :=
  rows ++ with_ids (next_ID rows) new.

(** [tx.Create(rows).Error]. *)
Definition tx_Create (rows : list CategorizedCpe) : M (option error) :=
  f <- issue (SCreate rows) ;;
  match f with
  | Some e => ret (Some (fault_error e))
  | None =>
      s <- get_store ;;
      set_store {| database := database s; tables := tables s; fetch_metas := fetch_metas s;
                   categorized_cpes := insert_rows rows (categorized_cpes s) |} ;;
      ret None
  end.

(** *** The progress bar *)

Definition pb_StartNew (n : Z) : M unit :=
  set_bar {| total := n; current := 0; finished := false |}.

Definition bar_Add (n : Z) : M unit :=
  b <- get_bar ;;
  set_bar {| total := total b; current := current b + n; finished := finished b |}.

Definition bar_Finish : M unit :=
  b <- get_bar ;;
  set_bar {| total := total b; current := current b; finished := true |}.

(** ** The driver interface *)

(** Interface [DB], as a record of the methods of one driver value.
    [CloseDB] and [Name] take no part in what follows and are left out. *)
Record DB : Type := {
  OpenDB : string -> string -> bool -> M (outcome (bool * option error));
  MigrateDB : M (option error);
  IsGoCPEDictModelV1 : M (bool * option error);
  GetFetchMeta : M (option FetchMeta * option error);
  UpsertFetchMeta : FetchMeta -> M (FetchMeta * option error);
  GetVendorProducts : M (list string * option error);
  GetCpesByVendorProduct : string -> string -> M (list string * list string * option error);
  InsertCpes : FetchType -> list CategorizedCpe -> M (option error);
  IsDeprecated : string -> M (bool * option error)
}.

(** Supported DB dialects. *)
Definition dialectSqlite3 : string := "sqlite3".
Definition dialectMysql : string := "mysql".
Definition dialectPostgreSQL : string := "postgres".

(** [for idx := range ch { body }] where [body] may leave the function:
    [body idx = Some e] stands for [return e]. *)
Fixpoint for_range (ch : list IndexChunk) (body : IndexChunk -> M (option error)) : M (option error) :=
  match ch with
  | [] => ret None
  | idx :: ch' =>
      r <- body idx ;;
      match r with
      | Some e => ret (Some e)
      | None => for_range ch' body
      end
  end.

(** ** The relational driver *)

(** [RDBDriver] is the driver for RDB.  Its field [conn] is the connection
    to the [World]. *)
Record RDBDriver : Type := { name : string }.

Module RDBDriver.

Section Build.

(** The build's identity, [config.Revision] and
    [models.LatestSchemaVersion]: two constants fixed when the program is
    built, and parameters here. *)
Variable config_Revision : string.
Variable models_LatestSchemaVersion : Z.

(** [OpenDB] opens the database. *)
Definition OpenDB (r : RDBDriver) (dbType dbPath : string) (debugSQL : bool)
  : M (outcome (bool * option error)) :=
  err <- (if String.eqb (name r) dialectSqlite3 then gorm_Open "sqlite" dbPath debugSQL
          else if String.eqb (name r) dialectMysql then gorm_Open "mysql" dbPath debugSQL
          else if String.eqb (name r) dialectPostgreSQL then gorm_Open "postgres" dbPath debugSQL
          else ret (Some (text_error "Not Supported DB dialects. r.name: %s" [name r]))) ;;
  match err with
  | Some e =>
      let msg := printed_error "Failed to open DB. dbtype: %s, dbpath: %s, err: %s" [dbType; dbPath] e in
      if String.eqb (name r) dialectSqlite3 then
        match e with
        | sqlite3_Error Code =>
            if (Code =? sqlite3_ErrLocked) || (Code =? sqlite3_ErrBusy)
            then ret (Returns (true, Some msg))
            else ret (Returns (false, Some msg))
        | _ => ret (Panics "interface conversion: error is not sqlite3.Error")
        end
      else ret (Returns (false, Some msg))
  | None =>
      (if String.eqb (name r) dialectSqlite3 then conn_Exec "PRAGMA foreign_keys = ON" else ret tt) ;;
      ret (Returns (false, None))
  end.

(** [MigrateDB] migrates the database. *)
Definition MigrateDB (r : RDBDriver) : M (option error) :=
  err <- conn_AutoMigrate ;;
  match err with
  | Some e => ret (Some (printed_error "Failed to migrate. err: %s" [] e))
  | None => ret None
  end.

(** [IsGoCPEDictModelV1] determines if the DB was created at the time of
    go-cpe-dictionary Model v1. *)
Definition IsGoCPEDictModelV1 (r : RDBDriver) : M (bool * option error) :=
  has <- Migrator_HasTable fetch_metas_table ;;
  if has then ret (false, None)
  else
    ' (count, err) <-
      (if String.eqb (name r) dialectSqlite3 then
         conn_Count "sqlite_master" "type = ?" "table" 0
       else if String.eqb (name r) dialectMysql then
         db <- Migrator_CurrentDatabase ;;
         conn_Count "information_schema.tables" "table_schema = ?" db 0
       else if String.eqb (name r) dialectPostgreSQL then
         conn_Count "pg_tables" "schemaname = ?" "public" 0
       else ret (0, None)) ;;
    if count >? 0 then ret (true, None) else ret (false, err).

(** [GetFetchMeta] gets the FetchMeta from the database. *)
Definition GetFetchMeta (r : RDBDriver) : M (option FetchMeta * option error) :=
  ' (fetchMeta, err) <- conn_Take ;;
  match err with
  | Some e =>
      if negb (is_ErrRecordNotFound e) then ret (None, Some e)
      else ret (Some {| MetaID := 0; GoCPEDictRevision := config_Revision;
                        SchemaVersion := models_LatestSchemaVersion; LastFetchedAt := 0 |}, None)
  | None => ret (fetchMeta, None)
  end.

(** [UpsertFetchMeta] upserts the FetchMeta.  The two assignments and
    [Save] go through the caller's pointer: the record as the caller sees it
    afterwards is returned next to the error. *)
Definition UpsertFetchMeta (r : RDBDriver) (fetchMeta : FetchMeta) : M (FetchMeta * option error) :=
  let fetchMeta := {| MetaID := MetaID fetchMeta; GoCPEDictRevision := config_Revision;
                      SchemaVersion := SchemaVersion fetchMeta;
                      LastFetchedAt := LastFetchedAt fetchMeta |} in
  let fetchMeta := {| MetaID := MetaID fetchMeta; GoCPEDictRevision := GoCPEDictRevision fetchMeta;
                      SchemaVersion := models_LatestSchemaVersion;
                      LastFetchedAt := LastFetchedAt fetchMeta |} in
  ' (fetchMeta, err) <- conn_Save fetchMeta ;;
  ret (fetchMeta, err).

(** [fmt.Sprintf("%s::%s", vendor, product)]. *)
Definition vendor_product (vp : string * string) : string :=
  String.append (fst vp) (String.append "::" (snd vp)).

(** [GetVendorProducts]: the results are named, so the final bare [return]
    hands back [err] as the call left it. *)
Definition GetVendorProducts (r : RDBDriver) : M (list string * option error) :=
  ' (results, err) <- conn_Find_vendor_product ;;
  match err with
  | Some e =>
      if is_ErrRecordNotFound e
      then ret ([], Some (printed_error "Failed to select results. err: %s" [] e))
      else ret (map vendor_product results, Some e)
  | None => ret (map vendor_product results, None)
  end.

(** The loop of [GetCpesByVendorProduct] over [results]. *)
Fixpoint partition_cpes (results : list CategorizedCpe) (cpeURIs deprecated : list string)
  : list string * list string :=
  match results with
  | [] => (cpeURIs, deprecated)
  | r :: results' =>
      if Deprecated r
      then partition_cpes results' cpeURIs (deprecated ++ [CpeURI r])
      else partition_cpes results' (cpeURIs ++ [CpeURI r]) deprecated
  end.

(** [GetCpesByVendorProduct]. *)
Definition GetCpesByVendorProduct (r : RDBDriver) (vendor product : string)
  : M (list string * list string * option error) :=
  ' (results, err) <- conn_Find_cpes vendor product ;;
  match err with
  | Some e =>
      if is_ErrRecordNotFound e
      then ret ([], [], Some (printed_error "Failed to select results. err: %s" [] e))
      else let (cpeURIs, deprecated) := partition_cpes results [] [] in
           ret (cpeURIs, deprecated, None)
  | None =>
      let (cpeURIs, deprecated) := partition_cpes results [] [] in
      ret (cpeURIs, deprecated, None)
  end.

(** The body of the loop [for idx := range chunkSlice(len(oldIDs), 10000)]. *)
Definition delete_chunk (oldIDs : list Z) (idx : IndexChunk) : M (option error) :=
  err <- tx_Delete (slice oldIDs (From idx) (To idx)) ;;
  match err with
  | Some e => ret (Some (wrapped "Failed to delete: %w" e))
  | None => ret None
  end.

(** The body of the loop [for idx := range chunkSlice(len(cpes), 2000)]. *)
Definition insert_chunk (cpes : list CategorizedCpe) (idx : IndexChunk) : M (option error) :=
  err <- tx_Create (slice cpes (From idx) (To idx)) ;;
  match err with
  | Some e => ret (Some (wrapped "Failed to insert. err: %w" e))
  | None => bar_Add (int_sub (To idx) (From idx)) ;; ret None
  end.

(** [deleteAndInsertCpes] from the test of [result.RowsAffected] to its
    last statement [return nil]: where the function goes on when the select
    is not taken as failed. *)
Definition deleteAndInsertCpes_chunks (result : FindResult) (cpes : list CategorizedCpe)
  : M (option error) :=
  let oldIDs := found result in
  err <- (if RowsAffected result >? 0
          then for_range (chunkSlice (len oldIDs) 10000) (delete_chunk oldIDs)
          else ret None) ;;
  match err with
  | Some e => ret (Some e)
  | None =>
      err <- for_range (chunkSlice (len cpes) 2000) (insert_chunk cpes) ;;
      match err with
      | Some e => ret (Some e)
      | None => bar_Finish ;; ret None
      end
  end.

(** The statements of [deleteAndInsertCpes] that follow [defer]: they yield
    the named result [err]. *)
Definition deleteAndInsertCpes_body (fetchType : FetchType) (cpes : list CategorizedCpe)
  : M (option error) :=
  (* Delete all old records *)
  result <- tx_Find_ids fetchType ;;
  match Error result with
  | Some e =>
      if negb (is_ErrRecordNotFound e)
      then ret (Some (wrapped "Failed to select old defs: %w" e))
      else deleteAndInsertCpes_chunks result cpes
  | None => deleteAndInsertCpes_chunks result cpes
  end.

(** [deleteAndInsertCpes]; [conn] is the connection to the [World].  The
    deferred function runs once the body has set [err]: it rolls back when
    [err] is not nil and commits otherwise. *)
Definition deleteAndInsertCpes (r : RDBDriver) (fetchType : FetchType) (cpes : list CategorizedCpe)
  : M (option error) :=
  pb_StartNew (len cpes) ;;
  conn_Begin ;;
  err <- deleteAndInsertCpes_body fetchType cpes ;;
  match err with
  | Some _ => tx_Rollback
  | None => tx_Commit
  end ;;
  ret err.

(** [InsertCpes] inserts Cpe Information into DB. *)
Definition InsertCpes (r : RDBDriver) (fetchType : FetchType) (cpes : list CategorizedCpe)
  : M (option error) :=
  deleteAndInsertCpes r fetchType cpes.

(** [IsDeprecated]: not implemented yet. *)
Definition IsDeprecated (r : RDBDriver) (cpeURI : string) : M (bool * option error) :=
  ret (false, None).

(** [&RDBDriver{...}] as a value of interface [DB]. *)
Definition as_DB (r : RDBDriver) : DB :=
  Build_DB (OpenDB r) (MigrateDB r) (IsGoCPEDictModelV1 r) (GetFetchMeta r)
    (UpsertFetchMeta r) (GetVendorProducts r) (GetCpesByVendorProduct r)
    (InsertCpes r) (IsDeprecated r).

End Build.

End RDBDriver.

(** ** Opening a driver *)

Section Open.

Variable config_Revision : string.
Variable models_LatestSchemaVersion : Z.

(** The key-value driver, [RedisDriver] with its dialect name, is a
    parameter: any implementation of [DB]. *)
Variable dialectRedis : string.
Variable RedisDriver : string -> DB.

Definition newDB (dbType : string) : DB + error :=
  if String.eqb dbType dialectSqlite3 || String.eqb dbType dialectMysql
     || String.eqb dbType dialectPostgreSQL
  then inl (RDBDriver.as_DB config_Revision models_LatestSchemaVersion {| name := dbType |})
  else if String.eqb dbType dialectRedis
  then inl (RedisDriver dbType)
  else inr (text_error "Invalid database dialect, %s" [dbType]).

Definition incompatible : error :=
  text_error "Failed to NewDB. Since SchemaVersion is incompatible, delete Database and fetch again." [].

(** [NewDB] returns the db driver: [(driver, locked, err)]. *)
Definition NewDB (dbType dbPath : string) (debugSQL : bool)
  : M (outcome (option DB * bool * option error)) :=
  match newDB dbType with
  | inr err => ret (Returns (None, false, Some err))
  | inl driver =>
      o <- OpenDB driver dbType dbPath debugSQL ;;
      match o with
      | Panics text => ret (Panics text)
      | Returns (locked, Some err) =>
          if locked then ret (Returns (None, true, Some err))
          else ret (Returns (None, false, Some err))
      | Returns (_, None) =>
          ' (isV1, err) <- IsGoCPEDictModelV1 driver ;;
          match err with
          | Some e => ret (Returns (None, false, Some e))
          | None =>
              if (isV1 : bool) then ret (Returns (None, false, Some incompatible))
              else
                err <- MigrateDB driver ;;
                match err with
                | Some e => ret (Returns (Some driver, false, Some e))
                | None => ret (Returns (Some driver, false, None))
                end
          end
      end
  end.

End Open.

(** * Vocabulary of the properties *)

(** The world after a call that the backend failed: only the log grew. *)
Definition logged (w : World) (s : Stmt) : World :=
  {| store := store w; snapshot := snapshot w; log := log w ++ [s];
     oracle := oracle w; like := like w; bar := bar w |}.

(** The backend fails none of the [n] calls issued from position [p] on. *)
Definition succeed (w : World) (p n : nat) : Prop :=
  forall j, (j < n)%nat -> oracle w (p + j) = None.

(** The identifiers of the stored entries of one fetch type. *)
Definition old_ids (fetchType : FetchType) (s : Store) : list Z :=
  map ID (filter (fun c => String.eqb (fetch_type c) fetchType) (categorized_cpes s)).

Definition with_cpes (s : Store) (rows : list CategorizedCpe) : Store :=
  {| database := database s; tables := tables s; fetch_metas := fetch_metas s;
     categorized_cpes := rows |}.

(** The statement and the effect of one chunk of the delete loop and of the
    insert loop of [deleteAndInsertCpes]. *)
Definition delete_stmt (oldIDs : list Z) (idx : IndexChunk) : Stmt :=
  SDelete (slice oldIDs (From idx) (To idx)).

Definition create_stmt (cpes : list CategorizedCpe) (idx : IndexChunk) : Stmt :=
  SCreate (slice cpes (From idx) (To idx)).

Definition delete_effect (oldIDs : list Z) (idx : IndexChunk) (s : Store) : Store :=
  with_cpes s (delete_ids (slice oldIDs (From idx) (To idx)) (categorized_cpes s)).

Definition create_effect (cpes : list CategorizedCpe) (idx : IndexChunk) (s : Store) : Store :=
  with_cpes s (insert_rows (slice cpes (From idx) (To idx)) (categorized_cpes s)).

Definition effects (eff : IndexChunk -> Store -> Store) (ch : list IndexChunk) (s : Store) : Store :=
  fold_left (fun s idx => eff idx s) ch s.

(** A loop body that issues one statement [mk idx] per chunk: when the
    backend fails it, the body leaves the function with the failure wrapped
    by [fmt] and nothing but the log has changed; otherwise the statement
    has its effect [eff idx] on the store. *)
Definition stepper (mk : IndexChunk -> Stmt) (fmt : string)
  (eff : IndexChunk -> Store -> Store) (body : IndexChunk -> M (option error)) : Prop :=
  forall idx w,
    match oracle w (length (log w)) with
    | Some f => body idx w = (Some (wrapped fmt (fault_error f)), logged w (mk idx))
    | None =>
        exists w', body idx w = (None, w') /\
                   log w' = log w ++ [mk idx] /\ oracle w' = oracle w /\
                   snapshot w' = snapshot w /\ store w' = eff idx (store w)
    end.

(** The three steps of a replace, and the format each one wraps a failure
    with. *)
Definition is_step (s : Stmt) : bool :=
  match s with
  | SFindIDs _ | SDelete _ | SCreate _ => true
  | _ => false
  end.

Definition phase_format (s : Stmt) : string :=
  match s with
  | SFindIDs _ => "Failed to select old defs: %w"
  | SDelete _ => "Failed to delete: %w"
  | SCreate _ => "Failed to insert. err: %w"
  | _ => ""
  end.

(** The four ways a replace can run, from the world [w] in which it is
    called to the result [err] and the world [w'] it leaves.  The select is
    the call at position [1 + length (log w)], the delete chunks follow it
    and the insert chunks follow those. *)
Inductive replace_run (fetchType : FetchType) (cpes : list CategorizedCpe) (w : World)
  : option error -> World -> Prop :=
| select_fails f w' :
    oracle w (1 + length (log w)) = Some f ->
    log w' = log w ++ [SBegin; SFindIDs fetchType] ++ [SRollback] ->
    store w' = store w ->
    replace_run fetchType cpes w
      (Some (wrapped "Failed to select old defs: %w" (fault_error f))) w'
| delete_fails k f w' :
    let oldIDs := old_ids fetchType (store w) in
    let dels := chunkSlice (len oldIDs) 10000 in
    oracle w (1 + length (log w)) = None ->
    (k < length dels)%nat ->
    succeed w (2 + length (log w)) k ->
    oracle w (2 + length (log w) + k) = Some f ->
    log w' = log w ++ [SBegin; SFindIDs fetchType]
               ++ map (delete_stmt oldIDs) (firstn (S k) dels) ++ [SRollback] ->
    store w' = store w ->
    replace_run fetchType cpes w
      (Some (wrapped "Failed to delete: %w" (fault_error f))) w'
| insert_fails k f w' :
    let oldIDs := old_ids fetchType (store w) in
    let dels := chunkSlice (len oldIDs) 10000 in
    let inss := chunkSlice (len cpes) 2000 in
    oracle w (1 + length (log w)) = None ->
    succeed w (2 + length (log w)) (length dels) ->
    (k < length inss)%nat ->
    succeed w (2 + length (log w) + length dels) k ->
    oracle w (2 + length (log w) + length dels + k) = Some f ->
    log w' = log w ++ [SBegin; SFindIDs fetchType]
               ++ (map (delete_stmt oldIDs) dels ++ map (create_stmt cpes) (firstn (S k) inss))
               ++ [SRollback] ->
    store w' = store w ->
    replace_run fetchType cpes w
      (Some (wrapped "Failed to insert. err: %w" (fault_error f))) w'
| commits w' :
    let oldIDs := old_ids fetchType (store w) in
    let dels := chunkSlice (len oldIDs) 10000 in
    let inss := chunkSlice (len cpes) 2000 in
    oracle w (1 + length (log w)) = None ->
    succeed w (2 + length (log w)) (length dels) ->
    succeed w (2 + length (log w) + length dels) (length inss) ->
    log w' = log w ++ [SBegin; SFindIDs fetchType]
               ++ (map (delete_stmt oldIDs) dels ++ map (create_stmt cpes) inss)
               ++ [SCommit] ->
    store w' = effects (create_effect cpes) inss (effects (delete_effect oldIDs) dels (store w)) ->
    replace_run fetchType cpes w None w'.

(** The plain [LIKE] of the sample worlds as a relation between a pattern
    and a value: [%] stands for any run of characters, [_] for exactly one,
    any other character for itself. *)
Inductive Like : list ascii -> list ascii -> Prop :=
| Like_end : Like [] []
| Like_any_none p s : Like p s -> Like ("%"%char :: p) s
| Like_any_more p c s : Like ("%"%char :: p) s -> Like ("%"%char :: p) (c :: s)
| Like_one p c s : Like p s -> Like ("_"%char :: p) (c :: s)
| Like_same c p s :
    c <> "%"%char -> c <> "_"%char -> Like p s -> Like (c :: p) (c :: s).

(** The stored entries a lookup matches, under the [LIKE] of the backend. *)
Definition matches (LIKE : string -> string -> bool) (vendor product : string)
  (c : CategorizedCpe) : bool :=
  LIKE (Vendor c) vendor && LIKE (Product c) product.

(** The rows a successful lookup query yields: the distinct pairs of
    [cpe_uri] and [deprecated] of the matching entries. *)
Definition found_cpes (LIKE : string -> string -> bool) (vendor product : string) (s : Store)
  : list (string * bool) :=
  distinct (pair_eqb String.eqb Bool.eqb)
    (map (fun c => (CpeURI c, Deprecated c))
       (filter (matches LIKE vendor product) (categorized_cpes s))).

(** A metadata record with the build's revision and schema version in
    place of its own, and the record [GetFetchMeta] makes up when none is
    stored. *)
Definition stamped_with (revision : string) (schemaVersion : Z) (m : FetchMeta) : FetchMeta :=
  {| MetaID := MetaID m; GoCPEDictRevision := revision;
     SchemaVersion := schemaVersion; LastFetchedAt := LastFetchedAt m |}.

Definition fresh_with (revision : string) (schemaVersion : Z) : FetchMeta :=
  {| MetaID := 0; GoCPEDictRevision := revision;
     SchemaVersion := schemaVersion; LastFetchedAt := 0 |}.

(** The relational dialects, the test [HasTable(&models.FetchMeta{})] and a
    backend that fails no call. *)
Definition relational (dbType : string) : Prop :=
  In dbType [dialectSqlite3; dialectMysql; dialectPostgreSQL].

Definition has_fetch_meta (s : Store) : bool :=
  existsb (Table_eqb fetch_metas_table) (tables s).

Definition never_fails (w : World) : Prop := forall p, oracle w p = None.

(** A list cut into pieces of [n] elements: every piece but the last has
    exactly [n]; the last has between one and [n]. *)
Fixpoint pieces_of {A : Type} (n : Z) (ls : list (list A)) : Prop :=
  match ls with
  | [] => True
  | x :: ls' =>
      match ls' with
      | [] => 0 < len x <= n
      | _ :: _ => len x = n /\ pieces_of n ls'
      end
  end.

Definition cut_into {A : Type} (n : Z) (l : list A) (ls : list (list A)) : Prop :=
  concat ls = l /\ pieces_of n ls.

(** The slices of [l] that a loop over [chunkSlice (len l) n] takes. *)
Definition slices {A : Type} (l : list A) (n : Z) : list (list A) :=
  map (fun idx => slice l (From idx) (To idx)) (chunkSlice (len l) n).

(** * Vocabulary of the further properties *)

(** The error [OpenDB] builds from a failed open, and the codes it reports
    as locked. *)
Definition open_failure (dbType dbPath : string) (e : error) : error :=
  printed_error "Failed to open DB. dbtype: %s, dbpath: %s, err: %s" [dbType; dbPath] e.

Definition locked_code (Code : Z) : bool :=
  (Code =? sqlite3_ErrLocked) || (Code =? sqlite3_ErrBusy).

(** The catalogue once the two tables of the program have been migrated. *)
Definition migrated_tables (ts : list Table) : list Table :=
  add_table categorized_cpes_table (add_table fetch_metas_table ts).

Definition with_tables (s : Store) (ts : list Table) : Store :=
  {| database := database s; tables := ts; fetch_metas := fetch_metas s;
     categorized_cpes := categorized_cpes s |}.

(** An entry without its primary key. *)
Definition forget_id (c : CategorizedCpe) : CategorizedCpe :=
  {| ID := 0; fetch_type := fetch_type c; Vendor := Vendor c; Product := Product c;
     CpeURI := CpeURI c; Deprecated := Deprecated c |}.

Definition max_id (rows : list CategorizedCpe) : Z := fold_right Z.max 0 (map ID rows).

(** The next free key once [with_ids next rows] has been stored. *)
Fixpoint next_after (next : Z) (rows : list CategorizedCpe) : Z :=
  match rows with
  | [] => next
  | c :: rows' =>
      if ID c =? 0 then next_after (next + 1) rows'
      else next_after (Z.max next (ID c + 1)) rows'
  end.

(** The entries of a fetch type, and the others. *)
Definition of_type (fetchType : FetchType) (c : CategorizedCpe) : bool :=
  String.eqb (fetch_type c) fetchType.

Definition not_of_type (fetchType : FetchType) (c : CategorizedCpe) : bool :=
  negb (String.eqb (fetch_type c) fetchType).

(** The backend fails no call issued from the current end of the log on. *)
Definition healthy_from_now (w : World) : Prop :=
  forall p, (length (log w) <= p)%nat -> oracle w p = None.


(** What the progress bar shows once a run over a batch of [n] entries has
    ended: its total is [n]; after a run without error it is finished and
    stands at [n]; after a run with an error it is unfinished, somewhere
    between zero and [n]. *)
Definition progress_of (n : Z) (run : option error * World) : Prop :=
  total (bar (snd run)) = n /\
  match fst run with
  | None => current (bar (snd run)) = n /\ finished (bar (snd run)) = true
  | Some _ => 0 <= current (bar (snd run)) <= n /\ finished (bar (snd run)) = false
  end.

(** A metadata record with a new fetch time. *)
Definition fetched_at (t : Z) (m : FetchMeta) : FetchMeta :=
  {| MetaID := MetaID m; GoCPEDictRevision := GoCPEDictRevision m;
     SchemaVersion := SchemaVersion m; LastFetchedAt := t |}.

(** The escape character of [LIKE] on MySQL and PostgreSQL; a string is
    plain when it holds none. *)
Definition backslash : ascii := Ascii.ascii_of_nat 92.

Definition plain (s : string) : Prop := ~ In backslash (list_ascii_of_string s).

(** Two laws of [LIKE] that hold on every backend: the pattern [%] matches
    every value, and a plain value, taken as a pattern, matches itself. *)
Definition like_any (w : World) : Prop := forall s, like w s "%" = true.

Definition like_itself (w : World) : Prop := forall s, plain s -> like w s s = true.

(** *** The open sequence, call by call *)

(** [AutoMigrate] is among the calls [stmts]. *)
Definition migrates (stmts : list Stmt) : Prop := exists t, In (SAutoMigrate t) stmts.

(** The dialector [OpenDB] opens a dialect with, the world a successful
    open leaves, and the position in the log of the call that follows it. *)
Definition dialector_of (n : string) : string :=
  if String.eqb n dialectSqlite3 then "sqlite" else n.

Definition opened (n dbPath : string) (debugSQL : bool) (w : World) : World :=
  if String.eqb n dialectSqlite3
  then logged (logged w (SOpen "sqlite" dbPath debugSQL)) (SExec "PRAGMA foreign_keys = ON")
  else logged w (SOpen n dbPath debugSQL).

Definition opened_at (dbType : string) (w : World) : nat :=
  length (log w) + (if String.eqb dbType dialectSqlite3 then 2 else 1).

(** What [HasTable] and [CurrentDatabase] answer in a world: the catalogue
    and the name of the database when the backend answers their query,
    [false] and the empty name when it fails it. *)
Definition tested (t : Table) (w : World) : bool :=
  match oracle w (length (log w)) with
  | Some _ => false
  | None => existsb (Table_eqb t) (tables (store w))
  end.

Definition current_database (w : World) : string :=
  match oracle w (length (log w)) with
  | Some _ => ""
  | None => database (store w)
  end.

(** The end of [IsGoCPEDictModelV1]: the count and the verdict drawn from
    it. *)
Definition count_verdict (table cond arg : string) (w : World) : (bool * option error) * World :=
  (match oracle w (length (log w)) with
   | Some f => (false, Some (fault_error f))
   | None => (count_rows table cond arg (store w) >? 0, None)
   end, logged w (SCount table cond arg)).

(** [IsGoCPEDictModelV1], call by call. *)
Definition verdict (r : RDBDriver) (w : World) : (bool * option error) * World :=
  let w0 := logged w (SHasTable fetch_metas_table) in
  if tested fetch_metas_table w then (false, None, w0)
  else if String.eqb (name r) dialectSqlite3 then
    count_verdict "sqlite_master" "type = ?" "table" w0
  else if String.eqb (name r) dialectMysql then
    count_verdict "information_schema.tables" "table_schema = ?" (current_database w0)
      (logged w0 SCurrentDatabase)
  else if String.eqb (name r) dialectPostgreSQL then
    count_verdict "pg_tables" "schemaname = ?" "public" w0
  else (false, None, w0).

(** A store with one more table in its catalogue, and a store that differs
    from another by tables added to its catalogue at most. *)
Definition with_table (t : Table) (s : Store) : Store :=
  {| database := database s; tables := add_table t (tables s);
     fetch_metas := fetch_metas s; categorized_cpes := categorized_cpes s |}.

Definition grown (s s' : Store) : Prop :=
  database s' = database s /\
  fetch_metas s' = fetch_metas s /\
  categorized_cpes s' = categorized_cpes s /\
  forall t, In t (tables s) -> In t (tables s').

(** A world after a call that succeeded with a new store. *)
Definition stored (w : World) (stmt : Stmt) (s : Store) : World :=
  {| store := s; snapshot := snapshot w; log := log w ++ [stmt];
     oracle := oracle w; like := like w; bar := bar w |}.

(** [MigrateDB], call by call. *)
Definition migrate_failure (f : fault) : error :=
  printed_error "Failed to migrate. err: %s" [] (fault_error f).

Definition migrated_world (w : World) : option error * World :=
  match oracle w (length (log w)) with
  | Some f => (Some (migrate_failure f), logged w (SAutoMigrate fetch_metas_table))
  | None =>
      let w1 := stored w (SAutoMigrate fetch_metas_table) (with_table fetch_metas_table (store w)) in
      match oracle w (S (length (log w))) with
      | Some f => (Some (migrate_failure f), logged w1 (SAutoMigrate categorized_cpes_table))
      | None =>
          (None, stored w1 (SAutoMigrate categorized_cpes_table)
                   (with_table categorized_cpes_table (store w1)))
      end
  end.

(** What [NewDB] returns when the open of a relational dialect fails. *)
Definition refused_open (dbType dbPath : string) (f : fault)
  : outcome (option DB * bool * option error) :=
  if String.eqb dbType dialectSqlite3 then
    match f with
    | fault_sqlite3 Code =>
        Returns (None, locked_code Code, Some (open_failure dbType dbPath (sqlite3_Error Code)))
    | fault_other _ => Panics "interface conversion: error is not sqlite3.Error"
    end
  else Returns (None, false, Some (open_failure dbType dbPath (fault_error f))).

(** * Sample worlds *)

Module Sample.

Definition cpe_a : CategorizedCpe :=
  {| ID := 1; fetch_type := "nvd"; Vendor := "v"; Product := "p";
     CpeURI := "cpe:/a:v:p:a"; Deprecated := false |}.

Definition cpe_b : CategorizedCpe :=
  {| ID := 2; fetch_type := "nvd"; Vendor := "v"; Product := "p";
     CpeURI := "cpe:/a:v:p:b"; Deprecated := true |}.

Definition cpe_c : CategorizedCpe :=
  {| ID := 3; fetch_type := "jvn"; Vendor := "w"; Product := "q";
     CpeURI := "cpe:/a:w:q:c"; Deprecated := false |}.

Definition cpe_new : CategorizedCpe :=
  {| ID := 0; fetch_type := "nvd"; Vendor := "x"; Product := "y";
     CpeURI := "cpe:/a:x:y:z"; Deprecated := false |}.

(** A migrated store with two entries of fetch type [nvd] and one of
    [jvn], and no metadata record yet. *)
Definition migrated : Store :=
  {| database := "cpe";
     tables := [fetch_metas_table; categorized_cpes_table];
     fetch_metas := [];
     categorized_cpes := [cpe_a; cpe_b; cpe_c] |}.

(** A store that holds some table but not the metadata table. *)
Definition legacy : Store :=
  {| database := "cpe";
     tables := [other_table "categorized_cpes_v1"];
     fetch_metas := [];
     categorized_cpes := [] |}.

(** A backend that fails nothing, and one that fails the call at one
    position of the log. *)
Definition healthy : nat -> option fault := fun _ => None.

Definition fails_at (n : nat) (f : fault) : nat -> option fault :=
  fun p => if Nat.eqb p n then Some f else None.

Definition world (s : Store) (o : nat -> option fault) : World :=
  {| store := s; snapshot := None; log := []; oracle := o; like := sql_like;
     bar := {| total := 0; current := 0; finished := false |} |}.

(** A store that holds one cpeURI twice, once under each flag. *)
Definition cpe_d : CategorizedCpe :=
  {| ID := 4; fetch_type := "jvn"; Vendor := "v"; Product := "p";
     CpeURI := "cpe:/a:v:p:a"; Deprecated := true |}.

Definition twice_listed : Store :=
  {| database := "cpe";
     tables := [fetch_metas_table; categorized_cpes_table];
     fetch_metas := [];
     categorized_cpes := [cpe_a; cpe_d] |}.

Definition sqlite : RDBDriver := {| name := dialectSqlite3 |}.

(** A stand-in for the key-value driver: any value of [DB] will do. *)
Definition other_driver (n : string) : DB :=
  RDBDriver.as_DB "" 0 {| name := n |}.

End Sample.

(** * Properties *)

(** ** Go's [int] *)

Lemma wrap_small x : is_int x -> wrap x = x.
Proof.
  unfold is_int, min_int, max_int, wrap. intros H.
  rewrite Z.mod_small by lia. lia.
Qed.

Lemma int_add_small x y : is_int (x + y) -> int_add x y = x + y.
Proof. apply wrap_small. Qed.

Lemma int_sub_small x y : is_int (x - y) -> int_sub x y = x - y.
Proof. apply wrap_small. Qed.

(** ** The chunker *)

Section Chunker.

Lemma seq_from_zero (n m : nat) : seq n m = map (Nat.add n) (seq 0 m).
Proof.
  induction n as [|n IH]; simpl.
  - symmetry. apply map_id.
  - rewrite <- seq_shift, IH, map_map. reflexivity.
Qed.

Lemma range_nil a b : b <= a -> range a b = [].
Proof.
  intros H. unfold range.
  replace (Z.to_nat (b - a)) with 0%nat by lia. reflexivity.
Qed.

Lemma range_app a b c : a <= b -> b <= c -> range a b ++ range b c = range a c.
Proof.
  intros Hab Hbc. unfold range.
  replace (Z.to_nat (c - a)) with (Z.to_nat (b - a) + Z.to_nat (c - b))%nat by lia.
  rewrite seq_app, map_app. f_equal.
  rewrite Nat.add_0_l, (seq_from_zero (Z.to_nat (b - a))), map_map.
  apply map_ext. intros k. lia.
Qed.

Lemma chain_le a cs b : chain a cs b -> a <= b.
Proof.
  revert a. induction cs as [|c cs IH]; simpl; intros a H.
  - lia.
  - destruct H as (H1 & H2 & H3). apply IH in H3. lia.
Qed.

Lemma chain_bounds a cs b :
  chain a cs b -> Forall (fun c => a <= From c /\ From c < To c /\ To c <= b) cs.
Proof.
  revert a. induction cs as [|c cs IH]; simpl; intros a H.
  - constructor.
  - destruct H as (H1 & H2 & H3). constructor.
    + apply chain_le in H3. lia.
    + eapply Forall_impl; [|apply (IH _ H3)]. simpl. intros x Hx. lia.
Qed.

Lemma chain_range a cs b : chain a cs b -> flat_map indices cs = range a b.
Proof.
  revert a. induction cs as [|c cs IH]; simpl; intros a H.
  - subst. symmetry. apply range_nil. lia.
  - destruct H as (H1 & H2 & H3). rewrite (IH _ H3). unfold indices.
    rewrite H1. apply range_app; [lia|]. eapply chain_le; eauto.
Qed.

Lemma full_but_last_size S cs : full_but_last S cs -> Forall (fun c => size c <= S) cs.
Proof.
  induction cs as [|c cs IH]; simpl; intros H.
  - constructor.
  - destruct cs as [|c' cs'].
    + constructor; [lia|constructor].
    + destruct H as [H1 H2]. constructor; [lia|]. apply IH, H2.
Qed.

Lemma chain_tiles N S cs :
  chain 0 cs N -> full_but_last S cs -> tiles N S cs.
Proof.
  intros Hc Hf. unfold tiles. repeat split.
  - exact Hc.
  - apply chain_range, Hc.
  - pose proof (chain_bounds _ _ _ Hc) as Hb.
    pose proof (full_but_last_size _ _ Hf) as Hs.
    rewrite Forall_forall in *. intros c Hin.
    specialize (Hb c Hin). specialize (Hs c Hin). lia.
  - exact Hf.
  - intros ->. destruct cs as [|c cs]; [reflexivity|].
    simpl in Hc. destruct Hc as (H1 & H2 & H3). apply chain_le in H3. lia.
Qed.

Lemma chunk_loop_S fuel N S i :
  chunk_loop (Datatypes.S fuel) N S i =
  if i <? N then
    let idx := {| From := i; To := int_add i S |} in
    let idx := if N <? To idx then {| From := From idx; To := N |} else idx in
    let (sent, closed) := chunk_loop fuel N S (int_add i S) in
    (idx :: sent, closed)
  else ([], true).
Proof. reflexivity. Qed.

(** Once the channel is closed, more fuel changes nothing. *)
Lemma chunk_loop_more fuel N S i cs :
  chunk_loop fuel N S i = (cs, true) ->
  forall fuel', (fuel <= fuel')%nat -> chunk_loop fuel' N S i = (cs, true).
Proof.
  revert i cs. induction fuel as [|fuel IH]; intros i cs H fuel' Hle.
  - discriminate.
  - destruct fuel' as [|fuel']; [lia|].
    rewrite chunk_loop_S in *.
    destruct (i <? N); [|exact H].
    cbv zeta in *.
    destruct (chunk_loop fuel N S (int_add i S)) as [sent closed] eqn:E.
    inversion H; subst.
    rewrite (IH _ _ E fuel') by lia. reflexivity.
Qed.

(** The next multiple of the chunk size is an [int] as long as the loop
    has not reached the length. *)
Lemma next_multiple_fits N S k :
  1 <= S -> no_overflow N S -> 0 <= k -> k * S < N -> is_int (k * S + S).
Proof.
  unfold no_overflow, is_int, min_int. intros HS Hfit Hk Hlt.
  assert (Hq : k + 1 <= (N + S - 1) / S).
  { apply Z.div_le_lower_bound; lia. }
  assert (S * (k + 1) <= S * ((N + S - 1) / S)).
  { apply Z.mul_le_mono_nonneg_l; lia. }
  split; nia.
Qed.

Lemma chunk_loop_chain N S :
  1 <= S -> no_overflow N S ->
  forall fuel k, 0 <= k -> k * S < N -> (Z.to_nat (N - k * S) < fuel)%nat ->
  exists cs, chunk_loop fuel N S (k * S) = (cs, true) /\
             chain (k * S) cs N /\ full_but_last S cs.
Proof.
  intros HS Hfit. induction fuel as [|fuel IH]; intros k Hk Hlt Hfuel; [lia|].
  rewrite chunk_loop_S.
  pose proof (next_multiple_fits N S k HS Hfit Hk Hlt) as Hint.
  rewrite (int_add_small _ _ Hint).
  replace (k * S <? N) with true by (symmetry; apply Z.ltb_lt; lia).
  cbv zeta. simpl To. simpl From.
  destruct (Z.lt_ge_cases (k * S + S) N) as [Hmore|Hlast].
  - destruct (IH (k + 1)) as (cs & Hrun & Hchain & Hfull); try lia.
    replace (k * S + S) with ((k + 1) * S) by lia.
    rewrite Hrun.
    replace (N <? (k + 1) * S) with false by (symmetry; apply Z.ltb_ge; lia).
    eexists; split; [reflexivity|]. split.
    + simpl. repeat split; [lia|exact Hchain].
    + destruct cs as [|c' cs'].
      * simpl in Hchain. lia.
      * split; [unfold size; simpl; lia|exact Hfull].
  - destruct fuel as [|fuel]; [lia|].
    rewrite chunk_loop_S.
    replace (k * S + S <? N) with false by (symmetry; apply Z.ltb_ge; lia).
    destruct (N <? k * S + S) eqn:E.
    + eexists; split; [reflexivity|]. simpl. unfold size; simpl.
      repeat split; lia.
    + apply Z.ltb_ge in E.
      eexists; split; [reflexivity|]. simpl. unfold size; simpl.
      repeat split; lia.
Qed.

(** The run of the chunker closes the channel within [S (Z.to_nat N)]
    iterations. *)
Lemma chunk_loop_closes N S :
  0 <= N -> 1 <= S -> no_overflow N S ->
  chunk_loop (Datatypes.S (Z.to_nat N)) N S 0 = (chunkSlice N S, true) /\
  chain 0 (chunkSlice N S) N /\ full_but_last S (chunkSlice N S).
Proof.
  intros HN HS Hfit. unfold chunkSlice.
  destruct (Z.eq_dec N 0) as [->|Hne].
  - simpl. repeat split.
  - destruct (chunk_loop_chain N S HS Hfit (Datatypes.S (Z.to_nat N)) 0) as (cs & Hrun & Hc & Hf);
      try lia.
    simpl Z.mul in *. rewrite Hrun. simpl. auto.
Qed.

End Chunker.

(** C2, as amended.  For all [N >= 0] and [S >= 1] such that [N] rounded up
    to a multiple of [S] is still an [int], the goroutine of
    [chunkSlice(N, S)] closes the channel after finitely many sends, and the
    ranges it sends are half-open ranges [[from, to)] that cover [[0, N)]
    exactly, with no gaps and no overlaps, in increasing order, each of size
    at most [S] (every range but the last of size exactly [S]) and the last
    one clipped to [N]; when [N = 0] no range is sent. *)
Theorem chunkSlice_tiles (N S : Z) :
  0 <= N -> 1 <= S -> no_overflow N S ->
  (forall fuel, (Z.to_nat N < fuel)%nat -> chunk_loop fuel N S 0 = (chunkSlice N S, true)) /\
  tiles N S (chunkSlice N S).
Proof.
  intros HN HS Hfit.
  destruct (chunk_loop_closes N S HN HS Hfit) as (Hrun & Hc & Hf).
  split.
  - intros fuel Hfuel. apply (chunk_loop_more _ _ _ _ _ Hrun). lia.
  - apply chain_tiles; assumption.
Qed.

Lemma chunkSlice_tiles_witness :
  (0 <= 5 /\ 1 <= 2 /\ no_overflow 5 2) /\
  chunkSlice 5 2 = [ {| From := 0; To := 2 |}; {| From := 2; To := 4 |}; {| From := 4; To := 5 |} ] /\
  tiles 5 2 (chunkSlice 5 2).
Proof.
  assert (H0 : 0 <= 5) by lia.
  assert (H1 : 1 <= 2) by lia.
  assert (H2 : no_overflow 5 2) by (vm_compute; discriminate).
  split; [auto|]. split; [reflexivity|].
  exact (proj2 (chunkSlice_tiles 5 2 H0 H1 H2)).
Defined.

(** C2 as stated fails: the length [2^63 - 1] and the chunk size [2^63 - 2]
    are an [int] [N >= 0] and an [int] [S >= 1], yet the second range that
    [chunkSlice] sends is [[2^63 - 2, -4)]: the sum [i + chunkSize] wraps
    around.  No run of the goroutine tiles [[0, N)]. *)
Lemma chunkSlice_overflow :
  0 <= 9223372036854775807 /\ 1 <= 9223372036854775806 /\
  is_int 9223372036854775807 /\ is_int 9223372036854775806 /\
  (forall fuel, nth_error (fst (chunk_loop (2 + fuel) 9223372036854775807 9223372036854775806 0)) 1
                = Some {| From := 9223372036854775806; To := -4 |}) /\
  ~ chunker_coverage 9223372036854775807 9223372036854775806.
Proof.
  assert (Hrun : forall fuel,
    exists sent closed,
      chunk_loop (2 + fuel) 9223372036854775807 9223372036854775806 0 =
      ({| From := 0; To := 9223372036854775806 |}
         :: {| From := 9223372036854775806; To := -4 |} :: sent, closed)).
  { intros fuel. change (2 + fuel)%nat with (S (S fuel)).
    rewrite chunk_loop_S. change (0 <? 9223372036854775807) with true. cbv iota zeta.
    change (int_add 0 9223372036854775806) with 9223372036854775806.
    rewrite chunk_loop_S.
    change (9223372036854775806 <? 9223372036854775807) with true. cbv iota zeta.
    change (int_add 9223372036854775806 9223372036854775806) with (-4).
    destruct (chunk_loop fuel 9223372036854775807 9223372036854775806 (-4)) as [sent closed].
    exists sent, closed. reflexivity. }
  split; [discriminate|]. split; [discriminate|].
  split; [split; discriminate|]. split; [split; discriminate|]. split.
  - intros fuel. destruct (Hrun fuel) as (sent & closed & ->). reflexivity.
  - intros (fuel & cs & Hcs & Ht).
    destruct fuel as [|[|fuel]].
    + simpl in Hcs. discriminate.
    + rewrite chunk_loop_S in Hcs.
      change (0 <? 9223372036854775807) with true in Hcs. simpl in Hcs. discriminate.
    + destruct (Hrun fuel) as (sent & closed & E).
      change (S (S fuel)) with (2 + fuel)%nat in Hcs.
      rewrite E in Hcs. inversion Hcs; subst.
      destruct Ht as (_ & _ & Hall & _).
      inversion Hall as [|c0 l0 _ Hrest]; subst.
      inversion Hrest as [|c1 l1 Hc1 _]; subst.
      simpl in Hc1. lia.
Qed.

(** *** The bound on the length is the weakest one *)

Lemma wrap_above x :
  max_int < x -> x <= 2 * max_int -> wrap x = x - 18446744073709551616.
Proof.
  unfold max_int, wrap. intros H1 H2.
  replace (x + 9223372036854775808)
    with ((x - 9223372036854775808) + 1 * 18446744073709551616) by lia.
  rewrite Z_mod_plus_full, Z.mod_small by lia. lia.
Qed.

(** When the rounded-up length is not an [int], the run reaches the last
    multiple of the chunk size below the length and sends from there a range
    whose upper bound is negative. *)
Lemma chunk_loop_wraps N S :
  0 <= N <= max_int -> 1 <= S <= max_int -> ~ no_overflow N S ->
  forall fuel j cs, 0 <= j -> j * S < N ->
    chunk_loop fuel N S (j * S) = (cs, true) ->
    Exists (fun c => To c < From c) cs.
Proof.
  intros HN HS Hover.
  assert (Hlast : forall j, 0 <= j -> j * S < N -> N <= j * S + S -> max_int < j * S + S).
  { intros j Hj Hlt Hge. unfold no_overflow in Hover.
    assert ((N + S - 1) / S <= j + 1).
    { apply Z.lt_succ_r. apply Z.div_lt_upper_bound; lia. }
    assert (S * ((N + S - 1) / S) <= S * (j + 1)) by (apply Z.mul_le_mono_nonneg_l; lia).
    lia. }
  induction fuel as [|fuel IH]; intros j cs Hj Hlt Hrun; [discriminate|].
  rewrite chunk_loop_S in Hrun.
  replace (j * S <? N) with true in Hrun by (symmetry; apply Z.ltb_lt; lia).
  cbv zeta in Hrun. simpl To in Hrun. simpl From in Hrun.
  destruct (Z.lt_ge_cases (j * S + S) N) as [Hmore|Hend].
  - assert (Hint : is_int (j * S + S)) by (unfold is_int, min_int; lia).
    rewrite (int_add_small _ _ Hint) in Hrun.
    replace (j * S + S) with ((j + 1) * S) in Hrun by lia.
    destruct (chunk_loop fuel N S ((j + 1) * S)) as [sent closed] eqn:E.
    inversion Hrun; subst. apply Exists_cons_tl.
    apply (IH (j + 1) sent); (lia || exact E).
  - pose proof (Hlast j Hj Hlt Hend) as Hbig.
    assert (Hw : int_add (j * S) S = j * S + S - 18446744073709551616).
    { apply wrap_above; unfold max_int in *; lia. }
    rewrite Hw in Hrun.
    replace (N <? j * S + S - 18446744073709551616) with false in Hrun
      by (symmetry; apply Z.ltb_ge; unfold max_int in *; lia).
    destruct (chunk_loop fuel N S (j * S + S - 18446744073709551616)) as [sent closed].
    inversion Hrun; subst. apply Exists_cons_hd. simpl. unfold max_int in *. lia.
Qed.

(** On lengths and chunk sizes that are [int]s, the ranges sent tile
    [[0, N)] exactly when the rounded-up length is an [int]. *)
Lemma chunker_coverage_iff N S :
  0 <= N <= max_int -> 1 <= S <= max_int ->
  (chunker_coverage N S <-> no_overflow N S).
Proof.
  intros HN HS. split.
  - intros (fuel & cs & Hrun & Ht).
    destruct (Z_le_dec (S * ((N + S - 1) / S)) max_int) as [H|H]; [exact H|exfalso].
    destruct (Z.eq_dec N 0) as [->|Hne].
    + apply H. unfold no_overflow. replace (0 + S - 1) with (S - 1) by lia.
      rewrite Z.div_small by lia. unfold max_int. lia.
    + assert (Hex : Exists (fun c => To c < From c) cs).
      { apply (chunk_loop_wraps N S HN HS H fuel 0 cs); (lia || exact Hrun). }
      destruct Ht as (_ & _ & Hall & _).
      apply Exists_exists in Hex as (c & Hin & Hc).
      rewrite Forall_forall in Hall. specialize (Hall c Hin). lia.
  - intros Hfit. exists (Datatypes.S (Z.to_nat N)), (chunkSlice N S).
    destruct (chunk_loop_closes N S ltac:(lia) ltac:(lia) Hfit) as (Hrun & Hc & Hf).
    split; [exact Hrun|]. apply chain_tiles; assumption.
Qed.

(** ** Slices taken chunk by chunk *)

Section Slices.

Context {A : Type}.
Implicit Types l : list A.

Lemma firstn_add_app (n m : nat) l :
  firstn (n + m) l = firstn n l ++ firstn m (skipn n l).
Proof.
  revert l. induction n as [|n IH]; intros l; simpl.
  - reflexivity.
  - destruct l as [|x l]; simpl.
    + rewrite firstn_nil. reflexivity.
    + rewrite IH. reflexivity.
Qed.

Lemma slice_app l a b c :
  0 <= a -> a <= b -> b <= c -> slice l a b ++ slice l b c = slice l a c.
Proof.
  intros Ha Hab Hbc. unfold slice.
  replace (Z.to_nat (c - a)) with (Z.to_nat (b - a) + Z.to_nat (c - b))%nat by lia.
  rewrite firstn_add_app, skipn_skipn.
  replace (Z.to_nat (b - a) + Z.to_nat a)%nat with (Z.to_nat b) by lia.
  reflexivity.
Qed.

Lemma slice_all l : slice l 0 (len l) = l.
Proof.
  unfold slice, len. simpl skipn.
  replace (Z.to_nat (Z.of_nat (length l) - 0)) with (length l) by lia.
  apply firstn_all.
Qed.

Lemma slice_empty l a : slice l a a = [].
Proof. unfold slice. replace (Z.to_nat (a - a)) with 0%nat by lia. reflexivity. Qed.

Lemma len_slice l a b : 0 <= a -> a <= b -> b <= len l -> len (slice l a b) = b - a.
Proof.
  unfold slice, len. intros Ha Hab Hb.
  rewrite length_firstn, length_skipn. lia.
Qed.

Lemma chain_slices l a cs b :
  0 <= a -> chain a cs b ->
  concat (map (fun idx => slice l (From idx) (To idx)) cs) = slice l a b.
Proof.
  revert a. induction cs as [|c cs IH]; simpl; intros a Ha H.
  - subst. symmetry. apply slice_empty.
  - destruct H as (H1 & H2 & H3).
    rewrite (IH (To c)) by (lia || exact H3).
    rewrite H1. apply slice_app; [lia|lia|]. eapply chain_le; eauto.
Qed.

Lemma chain_pieces l n a cs b :
  0 <= a -> b <= len l -> chain a cs b -> full_but_last n cs ->
  pieces_of n (map (fun idx => slice l (From idx) (To idx)) cs).
Proof.
  revert a. induction cs as [|c cs IH]; intros a Ha Hb Hc Hf.
  - exact I.
  - simpl in Hc. destruct Hc as (H1 & H2 & H3).
    pose proof (chain_le _ _ _ H3) as Hle.
    assert (Hlen : len (slice l (From c) (To c)) = size c).
    { unfold size. apply len_slice; lia. }
    destruct cs as [|c' cs'].
    + simpl in *. lia.
    + change (full_but_last n (c :: c' :: cs')) with (size c = n /\ full_but_last n (c' :: cs')) in Hf.
      destruct Hf as [Hs Hf].
      change (len (slice l (From c) (To c)) = n /\
              pieces_of n (map (fun idx => slice l (From idx) (To idx)) (c' :: cs'))).
      split; [lia|]. apply (IH (To c)); (lia || assumption).
Qed.

(** The slices that a loop over the chunker takes from [l] are [l] cut into
    pieces of [n], and every slice expression is within the bounds of [l]. *)
Lemma slices_cut_into l n :
  1 <= n -> no_overflow (len l) n -> cut_into n l (slices l n).
Proof.
  intros Hn Hfit.
  assert (Hlen : 0 <= len l) by (unfold len; lia).
  destruct (chunk_loop_closes (len l) n Hlen Hn Hfit) as (_ & Hc & Hf).
  unfold cut_into, slices. split.
  - rewrite (chain_slices l 0 _ (len l)) by (lia || exact Hc). apply slice_all.
  - apply (chain_pieces l n 0 _ (len l)); (lia || assumption).
Qed.

Lemma chunkSlice_in_bounds l n :
  1 <= n -> no_overflow (len l) n ->
  Forall (fun idx => 0 <= From idx /\ From idx <= To idx /\ To idx <= len l)
    (chunkSlice (len l) n).
Proof.
  intros Hn Hfit.
  assert (Hlen : 0 <= len l) by (unfold len; lia).
  destruct (chunk_loop_closes (len l) n Hlen Hn Hfit) as (_ & Hc & _).
  eapply Forall_impl; [|apply (chain_bounds _ _ _ Hc)].
  simpl. intros idx H. lia.
Qed.

End Slices.

Lemma chunkSlice_zero n : chunkSlice 0 n = [].
Proof. reflexivity. Qed.

(** ** Runs of the driver *)

Section Runs.

Lemma fault_is_not_ErrRecordNotFound f : is_ErrRecordNotFound (fault_error f) = false.
Proof. destruct f; reflexivity. Qed.

Lemma delete_chunk_stepper oldIDs :
  stepper (delete_stmt oldIDs) "Failed to delete: %w" (delete_effect oldIDs)
    (RDBDriver.delete_chunk oldIDs).
Proof.
  intros idx w. unfold RDBDriver.delete_chunk, tx_Delete, bind, issue.
  destruct (oracle w (length (log w))) as [f|]; simpl.
  - reflexivity.
  - eexists. split; [reflexivity|]. simpl. auto.
Qed.

Lemma insert_chunk_stepper cpes :
  stepper (create_stmt cpes) "Failed to insert. err: %w" (create_effect cpes)
    (RDBDriver.insert_chunk cpes).
Proof.
  intros idx w. unfold RDBDriver.insert_chunk, tx_Create, bind, issue.
  destruct (oracle w (length (log w))) as [f|]; simpl.
  - reflexivity.
  - eexists. split; [reflexivity|]. simpl. auto.
Qed.

Lemma succeed_shift w w1 p n :
  oracle w1 = oracle w -> oracle w p = None -> succeed w1 (S p) n -> succeed w p (S n).
Proof.
  intros Ho H0 Hn j Hj. destruct j as [|j].
  - rewrite Nat.add_0_r. exact H0.
  - rewrite <- Ho. replace (p + S j)%nat with (S p + j)%nat by lia. apply Hn. lia.
Qed.

(** A loop over chunks either runs every chunk, or stops at the first chunk
    whose statement the backend fails. *)
Lemma for_range_run mk fmt eff body :
  stepper mk fmt eff body ->
  forall ch w,
    oracle (snd (for_range ch body w)) = oracle w /\
    snapshot (snd (for_range ch body w)) = snapshot w /\
    match fst (for_range ch body w) with
    | None =>
        succeed w (length (log w)) (length ch) /\
        log (snd (for_range ch body w)) = log w ++ map mk ch /\
        store (snd (for_range ch body w)) = effects eff ch (store w)
    | Some e =>
        exists k f, (k < length ch)%nat /\
          succeed w (length (log w)) k /\
          oracle w (length (log w) + k) = Some f /\
          e = wrapped fmt (fault_error f) /\
          log (snd (for_range ch body w)) = log w ++ map mk (firstn (S k) ch)
    end.
Proof.
  intros Hstep. induction ch as [|idx ch IH]; intros w.
  - simpl. split; [reflexivity|]. split; [reflexivity|]. split; [|split].
    + intros j Hj. lia.
    + symmetry. apply app_nil_r.
    + reflexivity.
  - cbn [for_range]. unfold bind.
    pose proof (Hstep idx w) as Hs.
    destruct (oracle w (length (log w))) as [f|] eqn:E.
    + rewrite Hs. simpl. split; [reflexivity|]. split; [reflexivity|].
      exists 0%nat, f. split; [lia|]. split; [intros j Hj; lia|].
      split; [rewrite Nat.add_0_r; exact E|]. split; reflexivity.
    + destruct Hs as (w1 & Hb & Hl & Ho & Hsn & Hst). rewrite Hb.
      specialize (IH w1). destruct IH as (IHo & IHs & IHm).
      assert (Hlen : length (log w1) = S (length (log w))).
      { rewrite Hl. apply last_length. }
      split; [congruence|]. split; [congruence|].
      destruct (fst (for_range ch body w1)) as [e|].
      * destruct IHm as (k & f & Hk & Hsucc & Hor & He & Hlog).
        exists (S k), f. split; [simpl; lia|].
        split; [rewrite Hlen in Hsucc; eapply succeed_shift; eauto|].
        split; [rewrite <- Ho, <- Hor, Hlen; f_equal; lia|].
        split; [exact He|].
        rewrite Hlog, Hl, <- app_assoc. reflexivity.
      * destruct IHm as (Hsucc & Hlog & Hstore).
        split; [rewrite Hlen in Hsucc; simpl length; eapply succeed_shift; eauto|].
        split; [rewrite Hlog, Hl, <- app_assoc; reflexivity|].
        rewrite Hstore, Hst. reflexivity.
Qed.

End Runs.

Section Replace.

Local Arguments chunkSlice : simpl never.
Local Arguments for_range : simpl never.

Lemma tx_Rollback_run w s0 :
  snapshot w = Some s0 ->
  tx_Rollback w = (tt, {| store := s0; snapshot := None; log := log w ++ [SRollback];
                          oracle := oracle w; like := like w; bar := bar w |}).
Proof.
  intros H. unfold tx_Rollback, note, issue, bind, ret, get_snapshot, set_store, set_snapshot.
  simpl. rewrite H. reflexivity.
Qed.

Lemma delete_phase_if (result : FindResult) (body : IndexChunk -> M (option error)) :
  RowsAffected result = len (found result) ->
  (if RowsAffected result >? 0
   then for_range (chunkSlice (len (found result)) 10000) body
   else ret None) =
  for_range (chunkSlice (len (found result)) 10000) body.
Proof.
  intros H. destruct (RowsAffected result >? 0) eqn:E; [reflexivity|].
  assert (len (found result) = 0).
  { rewrite <- H. unfold len in *. lia. }
  rewrite H0. reflexivity.
Qed.

Lemma succeed_oracle w w' p n : oracle w' = oracle w -> succeed w' p n -> succeed w p n.
Proof. intros H Hs j Hj. rewrite <- H. apply Hs, Hj. Qed.

Lemma deleteAndInsertCpes_chunks_run result cpes w :
  RowsAffected result = len (found result) ->
  let ids := found result in
  let dels := chunkSlice (len ids) 10000 in
  let inss := chunkSlice (len cpes) 2000 in
  let p := length (log w) in
  let run := RDBDriver.deleteAndInsertCpes_chunks result cpes w in
  oracle (snd run) = oracle w /\ snapshot (snd run) = snapshot w /\
  match fst run with
  | None =>
      succeed w p (length dels) /\ succeed w (p + length dels) (length inss) /\
      log (snd run) = log w ++ map (delete_stmt ids) dels ++ map (create_stmt cpes) inss /\
      store (snd run) = effects (create_effect cpes) inss (effects (delete_effect ids) dels (store w))
  | Some e =>
      (exists k f, (k < length dels)%nat /\ succeed w p k /\ oracle w (p + k) = Some f /\
         e = wrapped "Failed to delete: %w" (fault_error f) /\
         log (snd run) = log w ++ map (delete_stmt ids) (firstn (S k) dels)) \/
      (succeed w p (length dels) /\
       exists k f, (k < length inss)%nat /\ succeed w (p + length dels) k /\
         oracle w (p + length dels + k) = Some f /\
         e = wrapped "Failed to insert. err: %w" (fault_error f) /\
         log (snd run) = log w ++ map (delete_stmt ids) dels ++ map (create_stmt cpes) (firstn (S k) inss))
  end.
Proof.
  intros Hrows ids dels inss p run. subst run.
  unfold RDBDriver.deleteAndInsertCpes_chunks.
  rewrite (delete_phase_if result _ Hrows).
  fold ids. fold dels. fold inss.
  unfold bind.
  pose proof (for_range_run _ _ _ _ (delete_chunk_stepper ids) dels w) as (Ho1 & Hs1 & Hm1).
  destruct (for_range dels (RDBDriver.delete_chunk ids) w) as [r1 w1].
  cbn [fst snd] in *.
  destruct r1 as [e1|].
  - cbn [ret fst snd]. unfold ret. cbn [fst snd]. auto.
  - destruct Hm1 as (Hsucc1 & Hlog1 & Hst1).
    pose proof (for_range_run _ _ _ _ (insert_chunk_stepper cpes) inss w1) as (Ho2 & Hs2 & Hm2).
    destruct (for_range inss (RDBDriver.insert_chunk cpes) w1) as [r2 w2].
    cbn [fst snd] in *.
    assert (Hlen1 : length (log w1) = (p + length dels)%nat).
    { rewrite Hlog1, length_app, length_map. reflexivity. }
    rewrite Hlen1 in Hm2.
    destruct r2 as [e2|].
    + unfold ret. cbn [fst snd].
      split; [congruence|]. split; [congruence|]. right.
      split; [exact Hsucc1|].
      destruct Hm2 as (k & f & Hk & Hsucc2 & Hor & He & Hlog2).
      exists k, f. split; [exact Hk|].
      split; [eapply succeed_oracle; eauto|].
      split; [congruence|]. split; [exact He|].
      rewrite Hlog2, Hlog1, <- app_assoc. reflexivity.
    + unfold bar_Finish, get_bar, set_bar, bind, ret. cbn [fst snd oracle snapshot log store].
      destruct Hm2 as (Hsucc2 & Hlog2 & Hst2).
      split; [congruence|]. split; [congruence|].
      split; [exact Hsucc1|]. split; [eapply succeed_oracle; eauto|].
      split; [rewrite Hlog2, Hlog1, <- app_assoc; reflexivity|].
      rewrite Hst2, Hst1. reflexivity.
Qed.

Lemma tx_Commit_run w :
  tx_Commit w = (tt, {| store := store w; snapshot := None; log := log w ++ [SCommit];
                        oracle := oracle w; like := like w; bar := bar w |}).
Proof. reflexivity. Qed.

Lemma tx_Find_ids_run fetchType w :
  tx_Find_ids fetchType w =
  (match oracle w (length (log w)) with
   | Some f => {| Error := Some (fault_error f); RowsAffected := 0; found := [] |}
   | None => {| Error := None; RowsAffected := len (old_ids fetchType (store w));
                found := old_ids fetchType (store w) |}
   end, logged w (SFindIDs fetchType)).
Proof.
  unfold tx_Find_ids, issue, bind, get_store, ret.
  destruct (oracle w (length (log w))); reflexivity.
Qed.

Lemma deleteAndInsertCpes_run r fetchType cpes w :
  replace_run fetchType cpes w
    (fst (RDBDriver.deleteAndInsertCpes r fetchType cpes w))
    (snd (RDBDriver.deleteAndInsertCpes r fetchType cpes w)).
Proof.
  destruct (RDBDriver.deleteAndInsertCpes r fetchType cpes w) as [err w'] eqn:E.
  cbn [fst snd].
  unfold RDBDriver.deleteAndInsertCpes in E.
  set (w1 := {| store := store w; snapshot := Some (store w); log := log w ++ [SBegin];
                oracle := oracle w; like := like w;
                bar := {| total := len cpes; current := 0; finished := false |} |}).
  change ((err <- RDBDriver.deleteAndInsertCpes_body fetchType cpes ;;
           match err with Some _ => tx_Rollback | None => tx_Commit end ;; ret err) w1
          = (err, w')) in E.
  assert (Hlen1 : length (log w1) = S (length (log w))) by apply last_length.
  set (w2 := logged w1 (SFindIDs fetchType)).
  assert (Hlen2 : length (log w2) = S (S (length (log w)))).
  { unfold w2, logged. cbn [log]. rewrite last_length, Hlen1. reflexivity. }
  unfold RDBDriver.deleteAndInsertCpes_body in E. unfold bind in E.
  rewrite tx_Find_ids_run in E. fold w2 in E. rewrite Hlen1 in E.
  change (oracle w1) with (oracle w) in E.
  change (store w1) with (store w) in E.
  destruct (oracle w (S (length (log w)))) as [f|] eqn:Hsel.
  - cbn [Error] in E. rewrite fault_is_not_ErrRecordNotFound in E. cbn [negb] in E.
    unfold ret at 1 in E.
    rewrite (tx_Rollback_run w2 (store w)) in E by reflexivity.
    unfold ret in E. inversion E; subst err w'; clear E.
    apply select_fails.
    + exact Hsel.
    + cbn [log]. unfold w2, logged, w1. cbn [log]. rewrite <- !app_assoc. reflexivity.
    + reflexivity.
  - cbn [Error] in E.
    match type of E with
    | context [RDBDriver.deleteAndInsertCpes_chunks ?res cpes w2] =>
        pose proof (deleteAndInsertCpes_chunks_run res cpes w2 eq_refl) as Hrun;
        cbv zeta in Hrun; cbn [found] in Hrun;
        destruct (RDBDriver.deleteAndInsertCpes_chunks res cpes w2) as [e3 w3]
    end.
    cbn [fst snd] in Hrun. destruct Hrun as (Ho & Hsn & Hm).
    rewrite Hlen2 in Hm. change (oracle w2) with (oracle w) in Ho.
    change (store w2) with (store w) in Hm.
    change (log w2) with ((log w ++ [SBegin]) ++ [SFindIDs fetchType]) in Hm.
    assert (Hs2 : forall p n, succeed w2 p n -> succeed w p n).
    { intros p n H. exact H. }
    destruct e3 as [e|].
    + rewrite (tx_Rollback_run w3 (store w)) in E by (rewrite Hsn; reflexivity).
      unfold ret in E. inversion E; subst err w'; clear E.
      destruct Hm as [(k & f & Hk & Hsucc & Hor & He & Hlog)|(Hsucc1 & k & f & Hk & Hsucc & Hor & He & Hlog)].
      * subst e. eapply delete_fails with (k := k).
        -- exact Hsel.
        -- exact Hk.
        -- apply Hs2, Hsucc.
        -- exact Hor.
        -- cbn [log]. rewrite Hlog, <- !app_assoc. reflexivity.
        -- reflexivity.
      * subst e. eapply insert_fails with (k := k).
        -- exact Hsel.
        -- apply Hs2, Hsucc1.
        -- exact Hk.
        -- apply Hs2, Hsucc.
        -- exact Hor.
        -- cbn [log]. rewrite Hlog, <- !app_assoc. reflexivity.
        -- reflexivity.
    + rewrite tx_Commit_run in E. unfold ret in E. inversion E; subst err w'; clear E.
      destruct Hm as (Hsucc1 & Hsucc2 & Hlog & Hst).
      apply commits.
      * exact Hsel.
      * apply Hs2, Hsucc1.
      * apply Hs2, Hsucc2.
      * cbn [log]. rewrite Hlog, <- !app_assoc. reflexivity.
      * cbn [store]. exact Hst.
Qed.

End Replace.

(** ** The bulk replace *)

Section BulkReplace.

Lemma firstn_S_snoc {A : Type} (k : nat) (l : list A) :
  (k < length l)%nat ->
  exists x, firstn (S k) l = firstn k l ++ [x] /\ length (firstn k l) = k.
Proof.
  revert l. induction k as [|k IH]; intros l Hk.
  - destruct l as [|x l]; [simpl in Hk; lia|]. exists x. split; reflexivity.
  - destruct l as [|y l]; [simpl in Hk; lia|].
    destruct (IH l) as (x & Hx & Hl); [simpl in Hk; lia|].
    exists x. split.
    + change (firstn (S (S k)) (y :: l)) with (y :: firstn (S k) l). rewrite Hx. reflexivity.
    + simpl. rewrite Hl. reflexivity.
Qed.

Lemma succeed_cons w p n :
  oracle w p = None -> succeed w (S p) n -> succeed w p (S n).
Proof. intros H0 Hn. apply (succeed_shift w w p n eq_refl H0 Hn). Qed.

Lemma succeed_app w p n m :
  succeed w p n -> succeed w (p + n) m -> succeed w p (n + m).
Proof.
  intros Hn Hm j Hj. destruct (Nat.lt_ge_cases j n) as [H|H].
  - apply Hn, H.
  - replace (p + j)%nat with (p + n + (j - n))%nat by lia. apply Hm. lia.
Qed.

Lemma delete_stmts_are_steps oldIDs ch :
  Forall (fun s => is_step s = true) (map (delete_stmt oldIDs) ch).
Proof. apply Forall_forall. intros s Hs. apply in_map_iff in Hs as (idx & <- & _). reflexivity. Qed.

Lemma create_stmts_are_steps cpes ch :
  Forall (fun s => is_step s = true) (map (create_stmt cpes) ch).
Proof. apply Forall_forall. intros s Hs. apply in_map_iff in Hs as (idx & <- & _). reflexivity. Qed.

(** C1.  Whatever the fetch type, the batch and the statements the backend
    fails: [deleteAndInsertCpes] issues, inside one transaction, the select
    of the old ids, then delete chunks, then insert chunks, and stops at the
    first of these steps that fails.  If a step fails, the transaction is
    rolled back, the store is what it was before the call, and the error
    returned is the error of that step wrapped with the message of its phase
    (select of the old ids, delete, insert).  If no error is returned, every
    step issued succeeded and the transaction is committed. *)
Theorem deleteAndInsertCpes_atomic r fetchType cpes w :
  exists steps last,
    log (snd (RDBDriver.deleteAndInsertCpes r fetchType cpes w))
      = log w ++ [SBegin] ++ steps ++ [last] /\
    Forall (fun s => is_step s = true) steps /\
    match fst (RDBDriver.deleteAndInsertCpes r fetchType cpes w) with
    | None =>
        last = SCommit /\
        succeed w (1 + length (log w)) (length steps)
    | Some e =>
        last = SRollback /\
        store (snd (RDBDriver.deleteAndInsertCpes r fetchType cpes w)) = store w /\
        exists before s f,
          steps = before ++ [s] /\
          succeed w (1 + length (log w)) (length before) /\
          oracle w (1 + length (log w) + length before) = Some f /\
          e = wrapped (phase_format s) (fault_error f)
    end.
Proof.
  destruct (deleteAndInsertCpes_run r fetchType cpes w)
    as [f w' Hsel Hlog Hst
       |k f w' oldIDs dels Hsel Hk Hsucc Hor Hlog Hst
       |k f w' oldIDs dels inss Hsel Hsucc1 Hk Hsucc Hor Hlog Hst
       |w' oldIDs dels inss Hsel Hsucc1 Hsucc2 Hlog Hst].
  - exists [SFindIDs fetchType], SRollback. split; [exact Hlog|].
    split; [repeat constructor|]. split; [reflexivity|]. split; [exact Hst|].
    exists [], (SFindIDs fetchType), f. split; [reflexivity|].
    split; [intros j Hj; simpl in Hj; lia|].
    split; [simpl length; rewrite Nat.add_0_r; exact Hsel|reflexivity].
  - destruct (firstn_S_snoc k dels Hk) as (idx & Hfirst & Hlen).
    exists (SFindIDs fetchType :: map (delete_stmt oldIDs) (firstn (S k) dels)), SRollback.
    split; [exact Hlog|].
    split; [constructor; [reflexivity|apply delete_stmts_are_steps]|].
    split; [reflexivity|]. split; [exact Hst|].
    exists (SFindIDs fetchType :: map (delete_stmt oldIDs) (firstn k dels)),
           (delete_stmt oldIDs idx), f.
    split; [rewrite Hfirst, map_app; reflexivity|].
    simpl length. rewrite length_map, Hlen.
    split; [apply succeed_cons; assumption|].
    split; [|reflexivity].
    rewrite <- Hor. f_equal. lia.
  - destruct (firstn_S_snoc k inss Hk) as (idx & Hfirst & Hlen).
    exists (SFindIDs fetchType :: map (delete_stmt oldIDs) dels
              ++ map (create_stmt cpes) (firstn (S k) inss)), SRollback.
    split; [exact Hlog|].
    split; [constructor; [reflexivity|];
            apply Forall_app; split;
            [apply delete_stmts_are_steps|apply create_stmts_are_steps]|].
    split; [reflexivity|]. split; [exact Hst|].
    exists (SFindIDs fetchType :: map (delete_stmt oldIDs) dels
              ++ map (create_stmt cpes) (firstn k inss)),
           (create_stmt cpes idx), f.
    split; [rewrite Hfirst, map_app, app_assoc; reflexivity|].
    simpl length. rewrite length_app, !length_map, Hlen.
    split; [apply succeed_cons; [assumption|]; apply succeed_app; assumption|].
    split; [|reflexivity].
    rewrite <- Hor. f_equal. lia.
  - exists (SFindIDs fetchType :: map (delete_stmt oldIDs) dels
              ++ map (create_stmt cpes) inss), SCommit.
    split; [exact Hlog|].
    split; [constructor; [reflexivity|];
            apply Forall_app; split;
            [apply delete_stmts_are_steps|apply create_stmts_are_steps]|].
    split; [reflexivity|].
    simpl length. rewrite length_app, !length_map.
    apply succeed_cons; [assumption|]. apply succeed_app; assumption.
Qed.

Lemma slices_nil {A : Type} (n : Z) : slices (@nil A) n = [].
Proof. reflexivity. Qed.

Lemma delete_stmts_slices oldIDs n :
  map (delete_stmt oldIDs) (chunkSlice (len oldIDs) n) = map SDelete (slices oldIDs n).
Proof. unfold slices. rewrite map_map. reflexivity. Qed.

Lemma create_stmts_slices cpes n :
  map (create_stmt cpes) (chunkSlice (len cpes) n) = map SCreate (slices cpes n).
Proof. unfold slices. rewrite map_map. reflexivity. Qed.

Lemma firstn_app_left {A : Type} (n : nat) (l1 l2 : list A) :
  (n <= length l1)%nat -> firstn n (l1 ++ l2) = firstn n l1.
Proof.
  intros H. rewrite firstn_app.
  replace (n - length l1)%nat with 0%nat by lia.
  simpl. apply app_nil_r.
Qed.

(** C6.  In every replace (the lengths of the slices being such that the
    chunker does not overflow), the ids of the stored entries of the
    batch's fetch type are cut into pieces of 10,000 (every piece but the
    last holds exactly 10,000 ids, the last one the remaining 1 to 10,000)
    and the new entries into pieces of 2,000 in the same way; the statements
    issued between the one [Begin] and the one final [Commit] or [Rollback]
    are one delete per piece of ids followed by one insert per piece of
    entries, up to the first statement that fails, and all of them when
    the replace returns no error.  With no stored entry of the fetch type
    there is no piece and so no delete. *)
Theorem deleteAndInsertCpes_chunked r fetchType cpes w :
  no_overflow (len (old_ids fetchType (store w))) 10000 ->
  no_overflow (len cpes) 2000 ->
  exists dels inss issued last,
    cut_into 10000 (old_ids fetchType (store w)) dels /\
    cut_into 2000 cpes inss /\
    (old_ids fetchType (store w) = [] -> dels = []) /\
    log (snd (RDBDriver.deleteAndInsertCpes r fetchType cpes w))
      = log w ++ [SBegin; SFindIDs fetchType] ++ issued ++ [last] /\
    (last = SCommit \/ last = SRollback) /\
    (exists n, issued = firstn n (map SDelete dels ++ map SCreate inss)) /\
    (fst (RDBDriver.deleteAndInsertCpes r fetchType cpes w) = None ->
     issued = map SDelete dels ++ map SCreate inss /\ last = SCommit).
Proof.
  intros Hfit1 Hfit2.
  exists (slices (old_ids fetchType (store w)) 10000), (slices cpes 2000).
  assert (Hcut1 := slices_cut_into (old_ids fetchType (store w)) 10000 ltac:(lia) Hfit1).
  assert (Hcut2 := slices_cut_into cpes 2000 ltac:(lia) Hfit2).
  assert (Hnil : old_ids fetchType (store w) = [] ->
                 slices (old_ids fetchType (store w)) 10000 = []).
  { intros ->. apply slices_nil. }
  destruct (deleteAndInsertCpes_run r fetchType cpes w)
    as [f w' Hsel Hlog Hst
       |k f w' oldIDs dels Hsel Hk Hsucc Hor Hlog Hst
       |k f w' oldIDs dels inss Hsel Hsucc1 Hk Hsucc Hor Hlog Hst
       |w' oldIDs dels inss Hsel Hsucc1 Hsucc2 Hlog Hst].
  - exists [], SRollback. split; [exact Hcut1|]. split; [exact Hcut2|]. split; [exact Hnil|].
    split; [exact Hlog|]. split; [right; reflexivity|].
    split; [exists 0%nat; reflexivity|]. discriminate.
  - exists (map (delete_stmt oldIDs) (firstn (S k) dels)), SRollback.
    split; [exact Hcut1|]. split; [exact Hcut2|]. split; [exact Hnil|].
    split; [exact Hlog|]. split; [right; reflexivity|].
    split; [|discriminate].
    exists (S k). rewrite <- delete_stmts_slices. fold oldIDs. fold dels.
    rewrite firstn_app_left by (rewrite length_map; lia).
    symmetry. apply firstn_map.
  - exists (map (delete_stmt oldIDs) dels ++ map (create_stmt cpes) (firstn (S k) inss)), SRollback.
    split; [exact Hcut1|]. split; [exact Hcut2|]. split; [exact Hnil|].
    split; [exact Hlog|]. split; [right; reflexivity|].
    split; [|discriminate].
    exists (length (map (delete_stmt oldIDs) dels) + S k)%nat.
    rewrite <- delete_stmts_slices, <- create_stmts_slices. fold oldIDs. fold dels. fold inss.
    rewrite firstn_app_2. f_equal. symmetry. apply firstn_map.
  - exists (map (delete_stmt oldIDs) dels ++ map (create_stmt cpes) inss), SCommit.
    split; [exact Hcut1|]. split; [exact Hcut2|]. split; [exact Hnil|].
    split; [exact Hlog|]. split; [left; reflexivity|].
    rewrite <- delete_stmts_slices, <- create_stmts_slices. fold oldIDs. fold dels. fold inss.
    split; [|intros _; split; reflexivity].
    exists (length (map (delete_stmt oldIDs) dels ++ map (create_stmt cpes) inss)).
    symmetry. apply firstn_all.
Qed.

Lemma mem_In x xs : mem x xs = true <-> In x xs.
Proof.
  unfold mem. rewrite existsb_exists. split.
  - intros (y & Hy & E). apply Z.eqb_eq in E. subst. exact Hy.
  - intros H. exists x. split; [exact H|apply Z.eqb_refl].
Qed.

Lemma delete_ids_app a b rows :
  delete_ids b (delete_ids a rows) = delete_ids (a ++ b) rows.
Proof.
  unfold delete_ids, mem. induction rows as [|c rows IH]; simpl.
  - reflexivity.
  - rewrite existsb_app.
    destruct (existsb (Z.eqb (ID c)) a); simpl.
    + exact IH.
    + destruct (existsb (Z.eqb (ID c)) b); simpl; rewrite IH; reflexivity.
Qed.

Lemma delete_ids_nil rows : delete_ids [] rows = rows.
Proof.
  unfold delete_ids. induction rows as [|c rows IH]; [reflexivity|].
  cbn [filter mem existsb negb]. f_equal. exact IH.
Qed.

Lemma with_cpes_same s : with_cpes s (categorized_cpes s) = s.
Proof. destruct s; reflexivity. Qed.

Lemma effects_delete ids ch s :
  effects (delete_effect ids) ch s =
  with_cpes s (delete_ids (concat (map (fun idx => slice ids (From idx) (To idx)) ch))
                 (categorized_cpes s)).
Proof.
  revert s. induction ch as [|idx ch IH]; intros s.
  - simpl. rewrite delete_ids_nil, with_cpes_same. reflexivity.
  - unfold effects in *. simpl fold_left. rewrite IH.
    unfold delete_effect at 1 2. unfold with_cpes at 1 2 3. simpl.
    rewrite delete_ids_app. reflexivity.
Qed.

Lemma NoDup_map_inj {A B : Type} (f : A -> B) (l : list A) a b :
  NoDup (map f l) -> In a l -> In b l -> f a = f b -> a = b.
Proof.
  induction l as [|x l IH]; simpl; intros Hnd Ha Hb E; [contradiction|].
  inversion Hnd as [|? ? Hnotin Hnd']; subst.
  destruct Ha as [->|Ha], Hb as [->|Hb].
  - reflexivity.
  - exfalso. apply Hnotin. rewrite E. apply in_map, Hb.
  - exfalso. apply Hnotin. rewrite <- E. apply in_map, Ha.
  - apply IH; assumption.
Qed.

(** Under the primary key, deleting the ids of a fetch type deletes the
    entries of that fetch type and no other. *)
Lemma delete_old_ids fetchType s :
  NoDup (map ID (categorized_cpes s)) ->
  delete_ids (old_ids fetchType s) (categorized_cpes s) =
  filter (fun c => negb (String.eqb (fetch_type c) fetchType)) (categorized_cpes s).
Proof.
  intros Hnd. unfold delete_ids, old_ids. apply filter_ext_in. intros c Hc.
  f_equal. destruct (String.eqb (fetch_type c) fetchType) eqn:E.
  - apply mem_In. apply in_map. apply filter_In. split; assumption.
  - destruct (mem (ID c) _) eqn:M; [|reflexivity].
    apply mem_In in M. apply in_map_iff in M as (c' & Hid & Hc').
    apply filter_In in Hc' as [Hin Hft].
    assert (c' = c) by (eapply NoDup_map_inj; eauto).
    subst c'. congruence.
Qed.

(** C10.  With a backend that fails no statement (and a store that keeps
    its primary key, of a size the chunker does not overflow on):
    [InsertCpes] with an empty slice returns no error, issues the select and
    the delete chunks but no insert, commits, and leaves the store without
    any entry of that fetch type, every other entry being kept.  It is not a
    no-op whenever an entry of that fetch type was stored. *)
Theorem InsertCpes_empty r fetchType w :
  NoDup (map ID (categorized_cpes (store w))) ->
  no_overflow (len (old_ids fetchType (store w))) 10000 ->
  (forall p, (length (log w) <= p)%nat -> oracle w p = None) ->
  fst (RDBDriver.InsertCpes r fetchType [] w) = None /\
  (exists dels,
     cut_into 10000 (old_ids fetchType (store w)) dels /\
     log (snd (RDBDriver.InsertCpes r fetchType [] w))
       = log w ++ [SBegin; SFindIDs fetchType] ++ map SDelete dels ++ [SCommit]) /\
  store (snd (RDBDriver.InsertCpes r fetchType [] w))
    = with_cpes (store w)
        (filter (fun c => negb (String.eqb (fetch_type c) fetchType))
           (categorized_cpes (store w))) /\
  ((exists c, In c (categorized_cpes (store w)) /\ fetch_type c = fetchType) ->
   store (snd (RDBDriver.InsertCpes r fetchType [] w)) <> store w).
Proof.
  intros Hnd Hfit Hok. unfold RDBDriver.InsertCpes.
  assert (Hstore : forall w', 
    store w' = effects (create_effect []) (chunkSlice (len (@nil CategorizedCpe)) 2000)
                 (effects (delete_effect (old_ids fetchType (store w)))
                    (chunkSlice (len (old_ids fetchType (store w))) 10000) (store w)) ->
    store w' = with_cpes (store w)
        (filter (fun c => negb (String.eqb (fetch_type c) fetchType))
           (categorized_cpes (store w)))).
  { intros w' ->. change (len (@nil CategorizedCpe)) with 0. rewrite chunkSlice_zero.
    unfold effects at 1. simpl fold_left. rewrite effects_delete.
    destruct (slices_cut_into (old_ids fetchType (store w)) 10000 ltac:(lia) Hfit) as [Hcat _].
    unfold slices in Hcat. rewrite Hcat, delete_old_ids by exact Hnd. reflexivity. }
  destruct (deleteAndInsertCpes_run r fetchType [] w)
    as [f w' Hsel Hlog Hst
       |k f w' oldIDs dels Hsel Hk Hsucc Hor Hlog Hst
       |k f w' oldIDs dels inss Hsel Hsucc1 Hk Hsucc Hor Hlog Hst
       |w' oldIDs dels inss Hsel Hsucc1 Hsucc2 Hlog Hst].
  - rewrite Hok in Hsel by lia. discriminate.
  - rewrite Hok in Hor by lia. discriminate.
  - rewrite Hok in Hor by lia. discriminate.
  - subst inss dels oldIDs. specialize (Hstore w' Hst).
    split; [reflexivity|]. split; [|split].
    + exists (slices (old_ids fetchType (store w)) 10000). split.
      * apply slices_cut_into; [lia|exact Hfit].
      * rewrite Hlog. change (len (@nil CategorizedCpe)) with 0.
        rewrite chunkSlice_zero. simpl map. rewrite app_nil_r.
        rewrite delete_stmts_slices. reflexivity.
    + exact Hstore.
    + intros (c & Hin & Hft) Heq. rewrite Hstore in Heq.
      apply (f_equal categorized_cpes) in Heq. simpl in Heq.
      rewrite <- Heq in Hin. apply filter_In in Hin as [_ Hneg].
      rewrite Hft, String.eqb_refl in Hneg. discriminate.
Qed.

End BulkReplace.

(** ** Lookups *)

Section Lookups.

Lemma like_chars_any p s :
  like_chars ("%"%char :: p) s =
  like_chars p s || match s with [] => false | _ :: s' => like_chars ("%"%char :: p) s' end.
Proof. destruct s; reflexivity. Qed.

Lemma like_chars_one p s :
  like_chars ("_"%char :: p) s = match s with [] => false | _ :: s' => like_chars p s' end.
Proof. reflexivity. Qed.

Lemma like_chars_same c p s :
  c <> "%"%char -> c <> "_"%char ->
  like_chars (c :: p) s =
  match s with [] => false | c' :: s' => Ascii.eqb c c' && like_chars p s' end.
Proof.
  intros H1 H2. cbn [like_chars].
  destruct (Ascii.eqb c "%") eqn:E1; [apply Ascii.eqb_eq in E1; contradiction|].
  destruct (Ascii.eqb c "_") eqn:E2; [apply Ascii.eqb_eq in E2; contradiction|].
  reflexivity.
Qed.

(** The matcher decides the relation. *)
Lemma like_chars_Like p s : like_chars p s = true <-> Like p s.
Proof.
  split.
  - revert s. induction p as [|c p IH]; intros s H.
    + destruct s; [constructor|discriminate].
    + destruct (ascii_dec c "%") as [->|H1].
      * induction s as [|c' s IHs].
        -- rewrite like_chars_any in H. rewrite orb_false_r in H.
           apply Like_any_none, IH, H.
        -- rewrite like_chars_any in H. apply orb_true_iff in H as [H|H].
           ++ apply Like_any_none, IH, H.
           ++ apply Like_any_more, IHs, H.
      * destruct (ascii_dec c "_") as [->|H2].
        -- rewrite like_chars_one in H. destruct s as [|c' s]; [discriminate|].
           apply Like_one, IH, H.
        -- rewrite (like_chars_same c p s H1 H2) in H.
           destruct s as [|c' s]; [discriminate|].
           apply andb_true_iff in H as [E H]. apply Ascii.eqb_eq in E. subst c'.
           apply Like_same; auto.
  - induction 1 as [|p s _ IH|p c s _ IH|p c s _ IH|c p s H1 H2 _ IH].
    + reflexivity.
    + rewrite like_chars_any, IH. reflexivity.
    + rewrite like_chars_any, IH. apply orb_true_r.
    + rewrite like_chars_one. exact IH.
    + rewrite (like_chars_same c p _ H1 H2), Ascii.eqb_refl, IH. reflexivity.
Qed.

Section Distinct.

Context {A : Type} (eqb : A -> A -> bool).
Hypothesis eqb_eq : forall x y, eqb x y = true <-> x = y.

Lemma In_distinct x l : In x (distinct eqb l) <-> In x l.
Proof.
  induction l as [|r l IH]; simpl; [tauto|].
  rewrite filter_In, IH. split.
  - intros [H|[H _]]; auto.
  - intros [H|H]; [auto|].
    destruct (eqb r x) eqn:E.
    + left. apply eqb_eq, E.
    + right. split; [exact H|reflexivity].
Qed.

Lemma NoDup_distinct l : NoDup (distinct eqb l).
Proof.
  induction l as [|r l IH]; simpl; constructor.
  - rewrite filter_In. intros [_ H].
    assert (E : eqb r r = true) by (apply eqb_eq; reflexivity).
    rewrite E in H. discriminate.
  - apply NoDup_filter, IH.
Qed.

End Distinct.

Lemma pair_eqb_eq (x y : string * bool) :
  pair_eqb String.eqb Bool.eqb x y = true <-> x = y.
Proof.
  destruct x as [a b], y as [c d]. unfold pair_eqb. simpl.
  rewrite andb_true_iff, String.eqb_eq, Bool.eqb_true_iff.
  split; [intros [-> ->]; reflexivity|intros E; inversion E; auto].
Qed.

Lemma NoDup_map_on {A B : Type} (f : A -> B) (l : list A) :
  (forall x y, In x l -> In y l -> f x = f y -> x = y) ->
  NoDup l -> NoDup (map f l).
Proof.
  induction l as [|a l IH]; intros Hinj Hnd; simpl; [constructor|].
  inversion Hnd as [|? ? Hnotin Hnd']; subst. constructor.
  - intros Hin. apply in_map_iff in Hin as (b & E & Hb).
    assert (b = a) by (apply Hinj; simpl; auto). subst b. contradiction.
  - apply IH; [|exact Hnd']. intros x y Hx Hy. apply Hinj; simpl; auto.
Qed.

(** The loop of [GetCpesByVendorProduct] splits the rows by their flag and
    keeps their order. *)
Lemma partition_cpes_spec results cpeURIs deprecated :
  RDBDriver.partition_cpes results cpeURIs deprecated =
  (cpeURIs ++ map CpeURI (filter (fun c => negb (Deprecated c)) results),
   deprecated ++ map CpeURI (filter Deprecated results)).
Proof.
  revert cpeURIs deprecated. induction results as [|c results IH]; intros a d; simpl.
  - rewrite !app_nil_r. reflexivity.
  - destruct (Deprecated c); simpl; rewrite IH, <- app_assoc; reflexivity.
Qed.

Lemma uris_by_flag (flag : bool) LIKE vendor product s :
  let uris := map fst (filter (fun x => Bool.eqb (snd x) flag)
                         (found_cpes LIKE vendor product s)) in
  NoDup uris /\
  forall u, In u uris <->
    exists c, In c (categorized_cpes s) /\ matches LIKE vendor product c = true /\
              CpeURI c = u /\ Deprecated c = flag.
Proof.
  intros uris. subst uris. split.
  - apply NoDup_map_on.
    + intros [u1 d1] [u2 d2] H1 H2 E. simpl in E. subst u2.
      apply filter_In in H1 as [_ H1]. apply filter_In in H2 as [_ H2].
      simpl in *. apply Bool.eqb_prop in H1, H2. congruence.
    + apply NoDup_filter, (NoDup_distinct _ pair_eqb_eq).
  - intros u. rewrite in_map_iff. split.
    + intros ([u' d] & E & H). simpl in E. subst u'.
      apply filter_In in H as [H Hd]. simpl in Hd. apply Bool.eqb_prop in Hd. subst d.
      unfold found_cpes in H. rewrite (In_distinct _ pair_eqb_eq) in H.
      apply in_map_iff in H as (c & E & Hc). inversion E; subst.
      apply filter_In in Hc as [Hin Hm]. exists c. auto.
    + intros (c & Hin & Hm & <- & <-). exists (CpeURI c, Deprecated c). split; [reflexivity|].
      apply filter_In. split; [|simpl; apply Bool.eqb_reflx].
      unfold found_cpes. rewrite (In_distinct _ pair_eqb_eq).
      apply in_map_iff. exists c. split; [reflexivity|]. apply filter_In. auto.
Qed.

Lemma active_scanned (rows : list (string * bool)) :
  map CpeURI (filter (fun c => negb (Deprecated c)) (map scanned_cpe rows)) =
  map fst (filter (fun x => Bool.eqb (snd x) false) rows).
Proof.
  induction rows as [|[u d] rows IH]; simpl; [reflexivity|].
  destruct d; simpl; rewrite IH; reflexivity.
Qed.

Lemma deprecated_scanned (rows : list (string * bool)) :
  map CpeURI (filter Deprecated (map scanned_cpe rows)) =
  map fst (filter (fun x => Bool.eqb (snd x) true) rows).
Proof.
  induction rows as [|[u d] rows IH]; simpl; [reflexivity|].
  destruct d; simpl; rewrite IH; reflexivity.
Qed.

Lemma GetCpesByVendorProduct_run r vendor product w :
  fst (RDBDriver.GetCpesByVendorProduct r vendor product w) =
  match oracle w (length (log w)) with
  | Some _ => ([], [], None)
  | None =>
      (map fst (filter (fun x => Bool.eqb (snd x) false)
                  (found_cpes (like w) vendor product (store w))),
       map fst (filter (fun x => Bool.eqb (snd x) true)
                  (found_cpes (like w) vendor product (store w))),
       None)
  end.
Proof.
  unfold RDBDriver.GetCpesByVendorProduct, conn_Find_cpes, issue, bind, get_store, get_like, ret.
  destruct (oracle w (length (log w))) as [f|]; cbn [fst snd store like].
  - rewrite fault_is_not_ErrRecordNotFound. reflexivity.
  - rewrite partition_cpes_spec. cbn [fst snd app].
    rewrite active_scanned, deprecated_scanned. reflexivity.
Qed.

(** C7.  When the backend answers the query: [GetCpesByVendorProduct]
    returns no error and two lists, neither of which holds a cpeURI twice;
    a cpeURI is in the first list exactly when some stored entry whose
    vendor and product match the two patterns under the [LIKE] of the
    backend carries it with [deprecated = false], and in the second list
    exactly when some such entry carries it with [deprecated = true].  So
    the two lists share a cpeURI exactly when matching entries carry it under
    both flags: what is distinct are the pairs of cpeURI and flag. *)
Theorem GetCpesByVendorProduct_partitions r vendor product w :
  oracle w (length (log w)) = None ->
  exists cpeURIs deprecated,
    fst (RDBDriver.GetCpesByVendorProduct r vendor product w) = (cpeURIs, deprecated, None) /\
    NoDup cpeURIs /\ NoDup deprecated /\
    (forall u, In u cpeURIs <->
       exists c, In c (categorized_cpes (store w)) /\
         like w (Vendor c) vendor = true /\ like w (Product c) product = true /\
         CpeURI c = u /\ Deprecated c = false) /\
    (forall u, In u deprecated <->
       exists c, In c (categorized_cpes (store w)) /\
         like w (Vendor c) vendor = true /\ like w (Product c) product = true /\
         CpeURI c = u /\ Deprecated c = true) /\
    (forall u, In u cpeURIs /\ In u deprecated <->
       exists c d, In c (categorized_cpes (store w)) /\ In d (categorized_cpes (store w)) /\
         matches (like w) vendor product c = true /\ matches (like w) vendor product d = true /\
         CpeURI c = u /\ CpeURI d = u /\ Deprecated c = false /\ Deprecated d = true).
Proof.
  intros Hok.
  assert (Hm : forall c, matches (like w) vendor product c = true <->
     like w (Vendor c) vendor = true /\ like w (Product c) product = true).
  { intros c. unfold matches. apply andb_true_iff. }
  rewrite GetCpesByVendorProduct_run, Hok.
  destruct (uris_by_flag false (like w) vendor product (store w)) as [Hnd1 Hin1].
  destruct (uris_by_flag true (like w) vendor product (store w)) as [Hnd2 Hin2].
  eexists _, _. split; [reflexivity|].
  split; [exact Hnd1|]. split; [exact Hnd2|]. split; [|split].
  - intros u. rewrite Hin1. split; intros (c & H1 & H2 & H3 & H4); exists c.
    + apply Hm in H2. tauto.
    + split; [exact H1|]. split; [apply Hm; tauto|tauto].
  - intros u. rewrite Hin2. split; intros (c & H1 & H2 & H3 & H4); exists c.
    + apply Hm in H2. tauto.
    + split; [exact H1|]. split; [apply Hm; tauto|tauto].
  - intros u. rewrite Hin1, Hin2. split.
    + intros [(c & H1 & H2 & H3 & H4) (d & H5 & H6 & H7 & H8)]. exists c, d. tauto.
    + intros (c & d & H1 & H2 & H3 & H4 & H5 & H6 & H7 & H8). split.
      * exists c. tauto.
      * exists d. tauto.
Qed.

(** C7 as stated fails where it calls the results distinct cpeURIs cut in
    two: on a store that holds one cpeURI under both flags, the lookup
    returns that cpeURI twice, once in each list. *)
Lemma GetCpesByVendorProduct_shared_uri :
  let w := Sample.world Sample.twice_listed Sample.healthy in
  oracle w (length (log w)) = None /\
  fst (RDBDriver.GetCpesByVendorProduct Sample.sqlite "v" "p" w)
    = (["cpe:/a:v:p:a"], ["cpe:/a:v:p:a"], None) /\
  ~ NoDup (fst (fst (fst (RDBDriver.GetCpesByVendorProduct Sample.sqlite "v" "p" w)))
           ++ snd (fst (fst (RDBDriver.GetCpesByVendorProduct Sample.sqlite "v" "p" w)))).
Proof.
  split; [reflexivity|]. split; [reflexivity|].
  intros H. inversion H as [|x l Hnotin _]; subst. apply Hnotin. left. reflexivity.
Qed.

End Lookups.

(** ** Errors of the lookups *)

Section LookupErrors.

Lemma GetVendorProducts_run r w :
  fst (RDBDriver.GetVendorProducts r w) =
  match oracle w (length (log w)) with
  | Some f => ([], Some (fault_error f))
  | None =>
      (map RDBDriver.vendor_product
         (distinct (pair_eqb String.eqb String.eqb)
            (map (fun c => (Vendor c, Product c)) (categorized_cpes (store w)))), None)
  end.
Proof.
  unfold RDBDriver.GetVendorProducts, conn_Find_vendor_product, issue, bind, get_store, ret.
  destruct (oracle w (length (log w))) as [f|]; cbn [fst snd store].
  - rewrite fault_is_not_ErrRecordNotFound. reflexivity.
  - reflexivity.
Qed.

(** A failure of the backend reaches the caller of [GetVendorProducts] but
    not the caller of [GetCpesByVendorProduct]. *)
Lemma lookups_on_failure r vendor product w f :
  oracle w (length (log w)) = Some f ->
  fst (RDBDriver.GetVendorProducts r w) = ([], Some (fault_error f)) /\
  fst (RDBDriver.GetCpesByVendorProduct r vendor product w) = ([], [], None).
Proof.
  intros H. rewrite GetVendorProducts_run, GetCpesByVendorProduct_run, H. auto.
Qed.

(** C3, at a failing input.  The store holds entries of vendor [v] and
    product [p], and the backend fails the query with an error that is not
    a record-not-found.  [GetCpesByVendorProduct] returns two empty lists
    and no error: the failure is dropped, where [GetVendorProducts] on the
    same world returns it. *)
Theorem GetCpesByVendorProduct_drops_error :
  let w := Sample.world Sample.migrated (Sample.fails_at 0 (fault_other "connection refused")) in
  fst (RDBDriver.GetCpesByVendorProduct Sample.sqlite "v" "p" w) = ([], [], None) /\
  fst (RDBDriver.GetVendorProducts Sample.sqlite w)
    = ([], Some (foreign_error "connection refused")) /\
  fst (RDBDriver.GetCpesByVendorProduct Sample.sqlite "v" "p"
         (Sample.world Sample.migrated Sample.healthy))
    = (["cpe:/a:v:p:a"], ["cpe:/a:v:p:b"], None).
Proof. repeat split. Qed.

End LookupErrors.

(** ** The metadata record *)

Section Metadata.

Variable config_Revision : string.
Variable models_LatestSchemaVersion : Z.

Lemma keyed_fields m ms :
  GoCPEDictRevision (keyed m ms) = GoCPEDictRevision m /\
  SchemaVersion (keyed m ms) = SchemaVersion m /\
  LastFetchedAt (keyed m ms) = LastFetchedAt m /\
  (MetaID m <> 0 -> keyed m ms = m) /\
  (MetaID m = 0 -> MetaID (keyed m ms) = next_MetaID ms).
Proof.
  unfold keyed. destruct (MetaID m =? 0) eqn:E; cbn.
  - apply Z.eqb_eq in E. repeat split; auto. intros H. contradiction.
  - apply Z.eqb_neq in E. repeat split; auto. intros H. contradiction.
Qed.

Lemma keyed_stored m ms : In (keyed m ms) (save_row m ms).
Proof.
  unfold save_row, keyed. destruct (MetaID m =? 0).
  - apply in_or_app. right. left. reflexivity.
  - destruct (existsb (fun x => MetaID x =? MetaID m) ms) eqn:E.
    + apply existsb_exists in E as (x & Hx & Hid).
      apply in_map_iff. exists x. rewrite Hid. auto.
    + apply in_or_app. right. left. reflexivity.
Qed.

(** C5.  Whatever record the caller passes, [UpsertFetchMeta] hands to
    [Save] that record with its revision set to [config.Revision] and its
    schema version set to [models.LatestSchemaVersion], and the caller's
    record carries these two values afterwards, with the fetch time it had.
    When [Save] fails the store is unchanged.  When it succeeds the stored
    rows are the result of saving the stamped record, and the caller's
    record is the row that was stored: the stamped record, under the key the
    store gave it when it had none. *)
Theorem UpsertFetchMeta_stamps r fetchMeta w :
  log (snd (RDBDriver.UpsertFetchMeta config_Revision models_LatestSchemaVersion r fetchMeta w))
    = log w ++ [SSave (stamped_with config_Revision models_LatestSchemaVersion fetchMeta)] /\
  GoCPEDictRevision
    (fst (fst (RDBDriver.UpsertFetchMeta config_Revision models_LatestSchemaVersion r fetchMeta w)))
    = config_Revision /\
  SchemaVersion
    (fst (fst (RDBDriver.UpsertFetchMeta config_Revision models_LatestSchemaVersion r fetchMeta w)))
    = models_LatestSchemaVersion /\
  LastFetchedAt
    (fst (fst (RDBDriver.UpsertFetchMeta config_Revision models_LatestSchemaVersion r fetchMeta w)))
    = LastFetchedAt fetchMeta /\
  match snd (fst (RDBDriver.UpsertFetchMeta config_Revision models_LatestSchemaVersion r fetchMeta w)) with
  | Some e =>
      exists f, oracle w (length (log w)) = Some f /\ e = fault_error f /\
        store (snd (RDBDriver.UpsertFetchMeta config_Revision models_LatestSchemaVersion r fetchMeta w))
          = store w
  | None =>
      fetch_metas (store (snd (RDBDriver.UpsertFetchMeta config_Revision models_LatestSchemaVersion r fetchMeta w)))
        = save_row (stamped_with config_Revision models_LatestSchemaVersion fetchMeta) (fetch_metas (store w)) /\
      In (fst (fst (RDBDriver.UpsertFetchMeta config_Revision models_LatestSchemaVersion r fetchMeta w)))
         (fetch_metas (store (snd (RDBDriver.UpsertFetchMeta config_Revision models_LatestSchemaVersion r fetchMeta w)))) /\
      (MetaID fetchMeta <> 0 ->
       fst (fst (RDBDriver.UpsertFetchMeta config_Revision models_LatestSchemaVersion r fetchMeta w))
         = stamped_with config_Revision models_LatestSchemaVersion fetchMeta) /\
      (MetaID fetchMeta = 0 ->
       MetaID (fst (fst (RDBDriver.UpsertFetchMeta config_Revision models_LatestSchemaVersion r fetchMeta w)))
         = next_MetaID (fetch_metas (store w)))
  end.
Proof.
  unfold RDBDriver.UpsertFetchMeta, conn_Save, issue, bind, get_store, set_store, ret.
  cbn [MetaID GoCPEDictRevision SchemaVersion LastFetchedAt].
  fold (stamped_with config_Revision models_LatestSchemaVersion fetchMeta).
  destruct (oracle w (length (log w))) as [f|]; cbn [fst snd log store fetch_metas].
  - split; [reflexivity|]. split; [reflexivity|]. split; [reflexivity|]. split; [reflexivity|].
    exists f. auto.
  - destruct (keyed_fields (stamped_with config_Revision models_LatestSchemaVersion fetchMeta)
                (fetch_metas (store w))) as (H1 & H2 & H3 & H4 & H5).
    split; [reflexivity|]. split; [exact H1|]. split; [exact H2|]. split; [exact H3|].
    split; [reflexivity|]. split; [apply keyed_stored|]. split; [exact H4|exact H5].
Qed.

(** C8.  [GetFetchMeta] on a store without a metadata record, the backend
    answering the query, returns a fresh record with the build's revision
    and schema version and no error.  Whatever the world, the error it
    returns is never a record-not-found; an error of the backend is
    returned as it is; and a stored record is returned when there is one. *)
Theorem GetFetchMeta_not_found r w :
  (oracle w (length (log w)) = None -> fetch_metas (store w) = [] ->
   fst (RDBDriver.GetFetchMeta config_Revision models_LatestSchemaVersion r w)
     = (Some (fresh_with config_Revision models_LatestSchemaVersion), None)) /\
  (forall e,
     snd (fst (RDBDriver.GetFetchMeta config_Revision models_LatestSchemaVersion r w)) = Some e ->
     is_ErrRecordNotFound e = false) /\
  (forall f, oracle w (length (log w)) = Some f ->
     fst (RDBDriver.GetFetchMeta config_Revision models_LatestSchemaVersion r w)
       = (None, Some (fault_error f))) /\
  (forall m ms, oracle w (length (log w)) = None -> fetch_metas (store w) = m :: ms ->
     fst (RDBDriver.GetFetchMeta config_Revision models_LatestSchemaVersion r w)
       = (Some m, None)).
Proof.
  unfold RDBDriver.GetFetchMeta, conn_Take, issue, bind, get_store, ret.
  cbn [store log fst snd].
  destruct (oracle w (length (log w))) as [f|].
  - cbn [fst snd]. rewrite fault_is_not_ErrRecordNotFound. cbn [negb fst snd].
    split; [discriminate|]. split.
    + intros e E. inversion E. apply fault_is_not_ErrRecordNotFound.
    + split; [intros f' E; inversion E; reflexivity|discriminate].
  - cbn [store]. destruct (fetch_metas (store w)) as [|m ms]; cbn [fst snd is_ErrRecordNotFound negb].
    + split; [reflexivity|]. split; [discriminate|]. split; discriminate.
    + split; [discriminate|]. split; [discriminate|]. split; [discriminate|].
      intros m' ms' _ E. inversion E. reflexivity.
Qed.

End Metadata.

(** ** The open sequence, call by call *)

Section OpenSequence.

Lemma len_pos {A : Type} (l : list A) : l <> [] -> (len l >? 0) = true.
Proof.
  intros H. destruct l as [|x l]; [contradiction|].
  apply Z.gtb_lt. unfold len. simpl length. lia.
Qed.

Lemma length_logged w s : length (log (logged w s)) = S (length (log w)).
Proof. cbn [logged log]. rewrite length_app. cbn [length]. lia. Qed.

Lemma relational_cases dbType :
  relational dbType ->
  dbType = dialectSqlite3 \/ dbType = dialectMysql \/ dbType = dialectPostgreSQL.
Proof. intros [E|[E|[E|[]]]]; auto. Qed.

(** [OpenDB] on a driver of a relational dialect. *)
Lemma OpenDB_eq r dbType dbPath debugSQL w :
  relational (name r) ->
  RDBDriver.OpenDB r dbType dbPath debugSQL w =
  match oracle w (length (log w)) with
  | Some f =>
      (if String.eqb (name r) dialectSqlite3 then
         match f with
         | fault_sqlite3 Code =>
             Returns (locked_code Code, Some (open_failure dbType dbPath (sqlite3_Error Code)))
         | fault_other _ => Panics "interface conversion: error is not sqlite3.Error"
         end
       else Returns (false, Some (open_failure dbType dbPath (fault_error f))),
       logged w (SOpen (dialector_of (name r)) dbPath debugSQL))
  | None => (Returns (false, None), opened (name r) dbPath debugSQL w)
  end.
Proof.
  intros Hr. unfold RDBDriver.OpenDB, gorm_Open, conn_Exec, note, issue, bind, ret,
    opened, dialector_of, open_failure, locked_code.
  destruct (relational_cases _ Hr) as [E|[E|E]]; rewrite E;
    cbv [dialectSqlite3 dialectMysql dialectPostgreSQL];
    cbn [String.eqb Ascii.eqb Bool.eqb andb];
    destruct (oracle w (length (log w))) as [[Code|text]|];
    cbn [option_map fault_error fst snd]; try reflexivity.
  destruct ((Code =? sqlite3_ErrLocked) || (Code =? sqlite3_ErrBusy)); reflexivity.
Qed.

Lemma opened_frame n dbPath debugSQL w :
  store (opened n dbPath debugSQL w) = store w /\
  oracle (opened n dbPath debugSQL w) = oracle w /\
  length (log (opened n dbPath debugSQL w)) = opened_at n w /\
  exists stmts, log (opened n dbPath debugSQL w) = log w ++ stmts /\ ~ migrates stmts.
Proof.
  unfold opened, opened_at. destruct (String.eqb n dialectSqlite3); cbn [logged store oracle log].
  - repeat split.
    + rewrite !length_app. cbn [length]. lia.
    + eexists. split; [rewrite <- app_assoc; reflexivity|].
      intros [t H]. simpl in H. intuition discriminate.
  - repeat split.
    + rewrite !length_app. cbn [length]. lia.
    + eexists. split; [reflexivity|].
      intros [t H]. simpl in H. intuition discriminate.
Qed.

Lemma Migrator_HasTable_eq t w :
  Migrator_HasTable t w = (tested t w, logged w (SHasTable t)).
Proof.
  unfold Migrator_HasTable, tested, issue, bind, ret, get_store, logged.
  destruct (oracle w (length (log w))); reflexivity.
Qed.

Lemma Migrator_CurrentDatabase_eq w :
  Migrator_CurrentDatabase w = (current_database w, logged w SCurrentDatabase).
Proof.
  unfold Migrator_CurrentDatabase, current_database, issue, bind, ret, get_store, logged.
  destruct (oracle w (length (log w))); reflexivity.
Qed.

Lemma conn_Count_eq table cond arg w :
  conn_Count table cond arg 0 w =
  (match oracle w (length (log w)) with
   | Some f => (0, Some (fault_error f))
   | None => (count_rows table cond arg (store w), None)
   end, logged w (SCount table cond arg)).
Proof.
  unfold conn_Count, issue, bind, ret, get_store, logged.
  destruct (oracle w (length (log w))); reflexivity.
Qed.

(** [IsGoCPEDictModelV1] on any driver. *)
Lemma IsGoCPEDictModelV1_eq r w : RDBDriver.IsGoCPEDictModelV1 r w = verdict r w.
Proof.
  unfold RDBDriver.IsGoCPEDictModelV1, verdict, count_verdict, bind.
  rewrite Migrator_HasTable_eq.
  destruct (tested fetch_metas_table w); [reflexivity|].
  destruct (String.eqb (name r) dialectSqlite3);
    [|destruct (String.eqb (name r) dialectMysql);
      [|destruct (String.eqb (name r) dialectPostgreSQL)]];
    rewrite ?Migrator_CurrentDatabase_eq, ?conn_Count_eq;
    try match goal with
        | |- context [match oracle ?w0 ?p with _ => _ end] => destruct (oracle w0 p)
        end;
    try change (0 >? 0) with false;
    try match goal with
        | |- context [if ?c >? 0 then _ else _] => destruct (c >? 0)
        end;
    reflexivity.
Qed.

Lemma verdict_frame r w :
  store (snd (verdict r w)) = store w /\
  oracle (snd (verdict r w)) = oracle w /\
  exists stmts, log (snd (verdict r w)) = log w ++ stmts /\ ~ migrates stmts.
Proof.
  unfold verdict, count_verdict.
  destruct (tested fetch_metas_table w);
    [|destruct (String.eqb (name r) dialectSqlite3);
      [|destruct (String.eqb (name r) dialectMysql);
        [|destruct (String.eqb (name r) dialectPostgreSQL)]]];
    cbn [fst snd logged store oracle log]; rewrite <- ?app_assoc;
    (split; [reflexivity|]; split; [reflexivity|]; eexists; split; [reflexivity|];
     intros [t H]; simpl in H; intuition discriminate).
Qed.

(** [MigrateDB] on any driver. *)
Lemma MigrateDB_eq r w : RDBDriver.MigrateDB r w = migrated_world w.
Proof.
  unfold RDBDriver.MigrateDB, conn_AutoMigrate, migrate_model, migrated_world, stored,
    with_table, migrate_failure, issue, bind, ret, get_store, set_store.
  cbn [fst snd store log oracle logged].
  destruct (oracle w (length (log w))) as [f|]; cbn [fst snd store log oracle]; [reflexivity|].
  rewrite length_app. cbn [length]. rewrite Nat.add_1_r.
  destruct (oracle w (S (length (log w)))) as [f|]; reflexivity.
Qed.

Lemma Table_eqb_eq a b : Table_eqb a b = true <-> a = b.
Proof.
  destruct a, b; simpl; split; intros H; try discriminate; try reflexivity.
  - apply String.eqb_eq in H. subst. reflexivity.
  - inversion H. apply String.eqb_refl.
Qed.

Lemma existsb_Table t ts : existsb (Table_eqb t) ts = true <-> In t ts.
Proof.
  rewrite existsb_exists. split.
  - intros (x & Hx & E). apply Table_eqb_eq in E. subst. exact Hx.
  - intros H. exists t. split; [exact H|apply Table_eqb_eq; reflexivity].
Qed.

Lemma In_add_table t u ts : In u (add_table t ts) <-> u = t \/ In u ts.
Proof.
  unfold add_table. destruct (existsb (Table_eqb t) ts) eqn:E.
  - apply existsb_Table in E. split; [auto|]. intros [->|H]; assumption.
  - rewrite in_app_iff. simpl. split; intros H; intuition auto.
Qed.

Lemma add_table_present t ts : In t ts -> add_table t ts = ts.
Proof. intros H. unfold add_table. apply existsb_Table in H. rewrite H. reflexivity. Qed.

Lemma migrated_tables_again ts : migrated_tables (migrated_tables ts) = migrated_tables ts.
Proof.
  unfold migrated_tables.
  rewrite (add_table_present fetch_metas_table).
  - apply add_table_present. apply In_add_table. left. reflexivity.
  - apply In_add_table. right. apply In_add_table. left. reflexivity.
Qed.

Lemma grown_refl s : grown s s.
Proof. repeat split. auto. Qed.

Lemma grown_with_table t s : grown s (with_table t s).
Proof. repeat split. cbn. intros u H. apply In_add_table. right. exact H. Qed.

Lemma grown_trans a b c : grown a b -> grown b c -> grown a c.
Proof.
  intros (A1 & A2 & A3 & A4) (B1 & B2 & B3 & B4).
  repeat split; try congruence. auto.
Qed.

(** Whatever the backend does, [MigrateDB] leaves the oracle alone and the
    store grown at most; its calls are migrations, one at least. *)
Lemma migrated_world_frame w :
  oracle (snd (migrated_world w)) = oracle w /\
  grown (store w) (store (snd (migrated_world w))) /\
  exists stmts, log (snd (migrated_world w)) = log w ++ stmts /\ migrates stmts.
Proof.
  unfold migrated_world.
  destruct (oracle w (length (log w))) as [f|]; cbn [fst snd logged stored store oracle log].
  - split; [reflexivity|]. split; [apply grown_refl|].
    eexists. split; [reflexivity|]. eexists. left. reflexivity.
  - destruct (oracle w (S (length (log w)))) as [f|];
      cbn [fst snd logged stored store oracle log]; rewrite <- app_assoc.
    + split; [reflexivity|]. split; [apply grown_with_table|].
      eexists. split; [reflexivity|]. eexists. left. reflexivity.
    + split; [reflexivity|].
      split; [eapply grown_trans; apply grown_with_table|].
      eexists. split; [reflexivity|]. eexists. left. reflexivity.
Qed.

Lemma count_rows_pos table cond arg s :
  (count_rows table cond arg s >? 0) = true -> tables s <> [].
Proof.
  intros H E. unfold count_rows in H. rewrite E in H. unfold len in H. cbn [length Z.of_nat] in H.
  repeat match type of H with
         | context [if ?c then _ else _] => destruct c
         end; discriminate.
Qed.

Lemma count_verdict_cases table cond arg w :
  fst (count_verdict table cond arg w)
  = match oracle w (length (log w)) with
    | Some f => (false, Some (fault_error f))
    | None => (count_rows table cond arg (store w) >? 0, None)
    end.
Proof. reflexivity. Qed.

(** The verdict on a store that has the metadata table, the test for it
    answered. *)
Lemma verdict_has r w :
  oracle w (length (log w)) = None -> has_fetch_meta (store w) = true ->
  verdict r w = (false, None, logged w (SHasTable fetch_metas_table)).
Proof.
  intros Hok Hhas. unfold verdict, tested. rewrite Hok.
  unfold has_fetch_meta in Hhas. rewrite Hhas. reflexivity.
Qed.

(** Whatever the backend does, the verdict is [true] only without an error
    and only for a store that has some table; for a store that has the
    metadata table, only when the test for it failed.  An error comes with
    [false], and is the backend's. *)
Lemma verdict_sound r w isV1 err :
  fst (verdict r w) = (isV1, err) ->
  (isV1 = true ->
   err = None /\ tables (store w) <> [] /\
   (has_fetch_meta (store w) = true -> oracle w (length (log w)) <> None)) /\
  (forall e, err = Some e -> isV1 = false /\ exists f, e = fault_error f).
Proof.
  unfold verdict.
  assert (Htest : tested fetch_metas_table w = false ->
            has_fetch_meta (store w) = true -> oracle w (length (log w)) <> None).
  { unfold tested, has_fetch_meta. destruct (oracle w (length (log w))); [discriminate|].
    intros H1 H2. congruence. }
  destruct (tested fetch_metas_table w) eqn:Et.
  - cbn [fst]. intros E. inversion E; subst. split; [discriminate|discriminate].
  - specialize (Htest eq_refl).
    assert (Hcount : forall table cond arg w1, store w1 = store w ->
      fst (count_verdict table cond arg w1) = (isV1, err) ->
      (isV1 = true ->
       err = None /\ tables (store w) <> [] /\
       (has_fetch_meta (store w) = true -> oracle w (length (log w)) <> None)) /\
      (forall e, err = Some e -> isV1 = false /\ exists f, e = fault_error f)).
    { intros table cond arg w1 Hst. rewrite count_verdict_cases.
      destruct (oracle w1 (length (log w1))) as [f|]; intros E; inversion E; subst.
      - split; [discriminate|]. intros e He. inversion He. eauto.
      - split; [|discriminate]. intros Hpos. split; [reflexivity|].
        split; [|exact Htest]. rewrite <- Hst. eapply count_rows_pos, Hpos. }
    destruct (String.eqb (name r) dialectSqlite3); [apply Hcount; reflexivity|].
    destruct (String.eqb (name r) dialectMysql); [apply Hcount; reflexivity|].
    destruct (String.eqb (name r) dialectPostgreSQL); [apply Hcount; reflexivity|].
    cbn [fst]. intros E. inversion E; subst. split; discriminate.
Qed.

(** The verdict on a store that has some table but not the metadata table:
    [true], or the error of the count.  On mysql this needs the query for
    the current database answered. *)
Lemma verdict_legacy r w :
  relational (name r) ->
  has_fetch_meta (store w) = false -> tables (store w) <> [] ->
  (name r = dialectMysql -> oracle w (S (length (log w))) = None) ->
  match oracle w (length (log w) +
                  (if String.eqb (name r) dialectMysql then 2 else 1)) with
  | Some f => fst (verdict r w) = (false, Some (fault_error f))
  | None => fst (verdict r w) = (true, None)
  end.
Proof.
  intros Hr Hhas Hne Hmy. unfold verdict.
  assert (Et : tested fetch_metas_table w = false).
  { unfold tested. destruct (oracle w (length (log w))); [reflexivity|exact Hhas]. }
  rewrite Et.
  destruct (relational_cases _ Hr) as [E|[E|E]]; rewrite E;
    cbv [dialectSqlite3 dialectMysql dialectPostgreSQL];
    cbn [String.eqb Ascii.eqb Bool.eqb andb];
    rewrite count_verdict_cases, ?length_logged.
  - replace (length (log w) + 1)%nat with (S (length (log w))) by lia.
    cbn [logged oracle store].
    destruct (oracle w (S (length (log w)))); [reflexivity|].
    change (count_rows "sqlite_master" "type = ?" "table" (store w)) with (len (tables (store w))).
    rewrite (len_pos _ Hne). reflexivity.
  - replace (length (log w) + 2)%nat with (S (S (length (log w)))) by lia.
    cbn [logged oracle store].
    destruct (oracle w (S (S (length (log w))))); [reflexivity|].
    unfold current_database. rewrite length_logged. cbn [logged oracle store].
    rewrite (Hmy E).
    unfold count_rows. cbn [String.eqb Ascii.eqb Bool.eqb andb].
    rewrite String.eqb_refl, (len_pos _ Hne). reflexivity.
  - replace (length (log w) + 1)%nat with (S (length (log w))) by lia.
    cbn [logged oracle store].
    destruct (oracle w (S (length (log w)))); [reflexivity|].
    change (count_rows "pg_tables" "schemaname = ?" "public" (store w))
      with (len (tables (store w))).
    rewrite (len_pos _ Hne). reflexivity.
Qed.

(** The verdict of a backend that fails nothing. *)
Lemma verdict_healthy r w :
  relational (name r) -> never_fails w ->
  fst (verdict r w)
  = (negb (has_fetch_meta (store w)) && negb (len (tables (store w)) =? 0), None).
Proof.
  intros Hr Hok.
  destruct (has_fetch_meta (store w)) eqn:Hhas.
  - rewrite (verdict_has r w (Hok _) Hhas). reflexivity.
  - destruct (tables (store w)) as [|t ts] eqn:Ets.
    + unfold verdict, tested. rewrite Hok. fold (has_fetch_meta (store w)). rewrite Hhas.
      destruct (relational_cases _ Hr) as [E|[E|E]]; rewrite E;
        cbv [dialectSqlite3 dialectMysql dialectPostgreSQL];
        cbn [String.eqb Ascii.eqb Bool.eqb andb];
        rewrite count_verdict_cases; cbn [logged oracle store]; rewrite Hok;
        unfold count_rows; rewrite Ets;
        repeat match goal with
               | |- context [if ?c then _ else _] => destruct c
               end; reflexivity.
    + pose proof (verdict_legacy r w Hr Hhas) as H. rewrite Ets in H.
      specialize (H ltac:(discriminate) (fun _ => Hok _)). rewrite Hok in H.
      rewrite H. reflexivity.
Qed.

End OpenSequence.

(** ** Opening a store *)

Section Opening.

Variable config_Revision : string.
Variable models_LatestSchemaVersion : Z.
Variable dialectRedis : string.
Variable RedisDriver : string -> DB.

(** C9.  On a driver of the sqlite3 dialect whose [gorm.Open] fails, the
    error is asserted to be an [sqlite3.Error] whatever it is: [OpenDB]
    returns, reporting [locked] exactly for the codes [ErrLocked] and
    [ErrBusy], when the error is an [sqlite3.Error], and panics when it is of
    any other type.  So it returns if and only if the error is an
    [sqlite3.Error]. *)
Theorem OpenDB_sqlite3_assertion r dbType dbPath debugSQL w f :
  name r = dialectSqlite3 ->
  oracle w (length (log w)) = Some f ->
  fst (RDBDriver.OpenDB r dbType dbPath debugSQL w) =
    match f with
    | fault_sqlite3 Code =>
        Returns ((Code =? sqlite3_ErrLocked) || (Code =? sqlite3_ErrBusy),
                 Some (printed_error "Failed to open DB. dbtype: %s, dbpath: %s, err: %s"
                         [dbType; dbPath] (sqlite3_Error Code)))
    | fault_other _ => Panics "interface conversion: error is not sqlite3.Error"
    end /\
  ((exists res, fst (RDBDriver.OpenDB r dbType dbPath debugSQL w) = Returns res) <->
   (exists Code, f = fault_sqlite3 Code)).
Proof.
  intros Hname Hf.
  assert (E : fst (RDBDriver.OpenDB r dbType dbPath debugSQL w) =
    match f with
    | fault_sqlite3 Code =>
        Returns ((Code =? sqlite3_ErrLocked) || (Code =? sqlite3_ErrBusy),
                 Some (printed_error "Failed to open DB. dbtype: %s, dbpath: %s, err: %s"
                         [dbType; dbPath] (sqlite3_Error Code)))
    | fault_other _ => Panics "interface conversion: error is not sqlite3.Error"
    end).
  { unfold RDBDriver.OpenDB. rewrite Hname, !String.eqb_refl.
    unfold gorm_Open, issue, bind, ret. rewrite Hf. cbn [option_map fault_error fst snd].
    destruct f as [Code|text]; cbn [fault_error fst].
    - destruct ((Code =? sqlite3_ErrLocked) || (Code =? sqlite3_ErrBusy)); reflexivity.
    - reflexivity. }
  split; [exact E|]. rewrite E. split.
  - intros [res H]. destruct f as [Code|text]; [eauto|discriminate].
  - intros [Code ->]. eauto.
Qed.


Lemma newDB_relational dbType :
  relational dbType ->
  newDB config_Revision models_LatestSchemaVersion dialectRedis RedisDriver dbType
    = inl (RDBDriver.as_DB config_Revision models_LatestSchemaVersion {| name := dbType |}).
Proof. intros [E|[E|[E|[]]]]; rewrite <- E; reflexivity. Qed.

(** [NewDB] on a relational dialect, call by call. *)
Lemma NewDB_eq dbType dbPath debugSQL w :
  relational dbType ->
  NewDB config_Revision models_LatestSchemaVersion dialectRedis RedisDriver
    dbType dbPath debugSQL w =
  match oracle w (length (log w)) with
  | Some f => (refused_open dbType dbPath f,
               logged w (SOpen (dialector_of dbType) dbPath debugSQL))
  | None =>
      let (v, w2) := verdict {| name := dbType |} (opened dbType dbPath debugSQL w) in
      match v with
      | (_, Some e) => (Returns (None, false, Some e), w2)
      | (true, None) => (Returns (None, false, Some incompatible), w2)
      | (false, None) =>
          (Returns (Some (RDBDriver.as_DB config_Revision models_LatestSchemaVersion
                            {| name := dbType |}), false, fst (migrated_world w2)),
           snd (migrated_world w2))
      end
  end.
Proof.
  intros Hrel. unfold NewDB. rewrite (newDB_relational dbType Hrel).
  cbn [OpenDB IsGoCPEDictModelV1 MigrateDB RDBDriver.as_DB]. unfold bind at 1.
  rewrite (OpenDB_eq {| name := dbType |} dbType dbPath debugSQL w Hrel). cbn [name].
  unfold refused_open.
  destruct (oracle w (length (log w))) as [f|].
  - destruct (String.eqb dbType dialectSqlite3); [destruct f as [Code|text]|];
      try reflexivity.
    destruct (locked_code Code); reflexivity.
  - unfold bind at 1. rewrite IsGoCPEDictModelV1_eq.
    destruct (verdict {| name := dbType |} (opened dbType dbPath debugSQL w)) as [[isV1 err] w2].
    destruct err as [e|]; [destruct isV1; reflexivity|].
    destruct isV1; [reflexivity|].
    unfold bind. rewrite MigrateDB_eq.
    destruct (migrated_world w2) as [[e|] w3]; reflexivity.
Qed.

(** C4.  For a relational dialect.  On a store that holds some table but
    not the metadata table: [NewDB] never calls [MigrateDB], leaves the
    store as it is and never returns without an error, whatever the backend
    fails (on mysql, as long as it answers the query for the current
    database, whose failure gorm reads as the empty name); and with a
    backend that fails nothing, the error it returns is the compatibility
    error, with a nil driver.  On a store that holds the metadata table:
    [IsGoCPEDictModelV1] reports [false] with no error when the backend
    answers the test for the table, and [NewDB] goes on to [MigrateDB] once
    the open has succeeded and that test is answered. *)
Theorem NewDB_refuses_legacy dbType dbPath debugSQL w :
  relational dbType ->
  (has_fetch_meta (store w) = false -> tables (store w) <> [] ->
   ((dbType = dialectMysql -> oracle w (S (opened_at dbType w)) = None) ->
    (exists issued,
       log (snd (NewDB config_Revision models_LatestSchemaVersion dialectRedis RedisDriver
                   dbType dbPath debugSQL w)) = log w ++ issued /\
       ~ migrates issued) /\
    store (snd (NewDB config_Revision models_LatestSchemaVersion dialectRedis RedisDriver
                  dbType dbPath debugSQL w)) = store w /\
    (forall driver locked,
       fst (NewDB config_Revision models_LatestSchemaVersion dialectRedis RedisDriver
              dbType dbPath debugSQL w) <> Returns (driver, locked, None))) /\
   (never_fails w ->
    fst (NewDB config_Revision models_LatestSchemaVersion dialectRedis RedisDriver
           dbType dbPath debugSQL w) = Returns (None, false, Some incompatible))) /\
  (has_fetch_meta (store w) = true ->
   (forall w', store w' = store w -> oracle w' (length (log w')) = None ->
      fst (RDBDriver.IsGoCPEDictModelV1 {| name := dbType |} w') = (false, None)) /\
   (oracle w (length (log w)) = None -> oracle w (opened_at dbType w) = None ->
    exists issued,
      log (snd (NewDB config_Revision models_LatestSchemaVersion dialectRedis RedisDriver
                  dbType dbPath debugSQL w)) = log w ++ issued /\
      migrates issued)).
Proof.
  intros Hrel. rewrite (NewDB_eq dbType dbPath debugSQL w Hrel).
  set (r := {| name := dbType |}).
  assert (Hr : relational (name r)) by exact Hrel.
  destruct (opened_frame dbType dbPath debugSQL w) as (Hst1 & Hor1 & Hlen1 & s1 & Hlog1 & Hno1).
  destruct (verdict_frame r (opened dbType dbPath debugSQL w)) as (Hst2 & Hor2 & s2 & Hlog2 & Hno2).
  assert (Hno12 : ~ migrates (s1 ++ s2)).
  { intros [t H]. apply in_app_or in H as [H|H]; [apply Hno1|apply Hno2]; exists t; exact H. }
  split.
  - intros Hhas Hne. split.
    + intros Hmy.
      destruct (oracle w (length (log w))) as [f|] eqn:Hopen.
      * cbn [fst snd logged store log]. split.
        -- eexists. split; [reflexivity|]. intros [t H]. simpl in H. intuition discriminate.
        -- split; [reflexivity|]. intros driver locked. unfold refused_open.
           destruct (String.eqb dbType dialectSqlite3); [destruct f|]; discriminate.
      * pose proof (verdict_legacy r (opened dbType dbPath debugSQL w) Hr) as Hv.
        rewrite Hst1 in Hv. specialize (Hv Hhas Hne).
        rewrite Hlen1, Hor1 in Hv.
        assert (Hmy' : name r = dialectMysql -> oracle w (S (opened_at dbType w)) = None)
          by exact Hmy.
        specialize (Hv Hmy').
        destruct (verdict r (opened dbType dbPath debugSQL w)) as [[isV1 err] w2].
        cbn [fst snd] in *.
        assert (Hlog : log w2 = log w ++ s1 ++ s2).
        { rewrite Hlog2, Hlog1, <- app_assoc. reflexivity. }
        assert (Hst : store w2 = store w) by congruence.
        match type of Hv with
        | match ?o with _ => _ end => destruct o as [f|]
        end; inversion Hv; subst isV1 err; cbn [fst snd];
          (split; [eauto|]; split; [exact Hst|]; discriminate).
    + intros Hok. rewrite Hok.
      assert (Hok1 : never_fails (opened dbType dbPath debugSQL w)).
      { intros p. rewrite Hor1. apply Hok. }
      pose proof (verdict_healthy r _ Hr Hok1) as Hv. rewrite Hst1, Hhas in Hv.
      assert (El : (len (tables (store w)) =? 0) = false).
      { apply Z.eqb_neq. pose proof (len_pos _ Hne) as H. apply Z.gtb_lt in H. lia. }
      rewrite El in Hv. cbn [negb andb] in Hv.
      destruct (verdict r (opened dbType dbPath debugSQL w)) as [[isV1 err] w2].
      cbn [fst] in Hv. inversion Hv; subst. reflexivity.
  - intros Hhas. split.
    + intros w' Hw' Hok'. rewrite IsGoCPEDictModelV1_eq, verdict_has; [reflexivity|exact Hok'|].
      rewrite Hw'. exact Hhas.
    + intros Hopen Htest. rewrite Hopen.
      rewrite (verdict_has r (opened dbType dbPath debugSQL w)).
      * destruct (migrated_world_frame
                    (logged (opened dbType dbPath debugSQL w) (SHasTable fetch_metas_table)))
          as (_ & _ & s3 & Hlog3 & Hmig3).
        cbn [fst snd]. rewrite Hlog3. cbn [logged log]. rewrite Hlog1.
        exists (s1 ++ [SHasTable fetch_metas_table] ++ s3).
        split; [rewrite <- !app_assoc; reflexivity|].
        destruct Hmig3 as [t Ht]. exists t.
        apply in_or_app. right. apply in_or_app. right. exact Ht.
      * rewrite Hlen1, Hor1. exact Htest.
      * rewrite Hst1. exact Hhas.
Qed.

End Opening.

Lemma OpenDB_sqlite3_assertion_witness :
  fst (RDBDriver.OpenDB Sample.sqlite "sqlite3" "/var/cpe.sqlite3" false
         (Sample.world Sample.migrated (Sample.fails_at 0 (fault_sqlite3 5))))
    = Returns (true,
               Some (printed_error "Failed to open DB. dbtype: %s, dbpath: %s, err: %s"
                       ["sqlite3"; "/var/cpe.sqlite3"] (sqlite3_Error 5))) /\
  fst (RDBDriver.OpenDB Sample.sqlite "sqlite3" "/var/cpe.sqlite3" false
         (Sample.world Sample.migrated (Sample.fails_at 0 (fault_other "out of memory"))))
    = Panics "interface conversion: error is not sqlite3.Error".
Proof.
  split.
  - exact (proj1 (OpenDB_sqlite3_assertion Sample.sqlite "sqlite3" "/var/cpe.sqlite3" false
                    (Sample.world Sample.migrated (Sample.fails_at 0 (fault_sqlite3 5)))
                    (fault_sqlite3 5) eq_refl eq_refl)).
  - exact (proj1 (OpenDB_sqlite3_assertion Sample.sqlite "sqlite3" "/var/cpe.sqlite3" false
                    (Sample.world Sample.migrated (Sample.fails_at 0 (fault_other "out of memory")))
                    (fault_other "out of memory") eq_refl eq_refl)).
Defined.

Lemma NewDB_refuses_legacy_witness :
  relational "sqlite3" /\
  fst (NewDB "" 0 "redis" Sample.other_driver "sqlite3" "/var/cpe.sqlite3" false
         (Sample.world Sample.legacy Sample.healthy))
    = Returns (None, false, Some incompatible) /\
  log (snd (NewDB "" 0 "redis" Sample.other_driver "sqlite3" "/var/cpe.sqlite3" false
              (Sample.world Sample.legacy Sample.healthy)))
    = [SOpen "sqlite" "/var/cpe.sqlite3" false; SExec "PRAGMA foreign_keys = ON";
       SHasTable fetch_metas_table; SCount "sqlite_master" "type = ?" "table"].
Proof.
  assert (Hrel : relational "sqlite3") by (left; reflexivity).
  split; [exact Hrel|]. split; [|reflexivity].
  destruct (NewDB_refuses_legacy "" 0 "redis" Sample.other_driver "sqlite3" "/var/cpe.sqlite3" false
              (Sample.world Sample.legacy Sample.healthy) Hrel) as [Hlegacy _].
  destruct (Hlegacy eq_refl ltac:(discriminate)) as (_ & Hcompat).
  exact (Hcompat (fun p => eq_refl)).
Defined.

(** ** The properties at sample worlds *)

Lemma deleteAndInsertCpes_chunked_witness :
  no_overflow (len (old_ids "nvd" (store (Sample.world Sample.migrated Sample.healthy)))) 10000 /\
  no_overflow (len [Sample.cpe_new]) 2000 /\
  log (snd (RDBDriver.deleteAndInsertCpes Sample.sqlite "nvd" [Sample.cpe_new]
              (Sample.world Sample.migrated Sample.healthy)))
    = [SBegin; SFindIDs "nvd"; SDelete [1; 2]; SCreate [Sample.cpe_new]; SCommit] /\
  exists dels inss issued last,
    cut_into 10000 [1; 2] dels /\
    cut_into 2000 [Sample.cpe_new] inss /\
    log (snd (RDBDriver.deleteAndInsertCpes Sample.sqlite "nvd" [Sample.cpe_new]
                (Sample.world Sample.migrated Sample.healthy)))
      = [SBegin; SFindIDs "nvd"] ++ issued ++ [last] /\
    issued = map SDelete dels ++ map SCreate inss /\ last = SCommit.
Proof.
  assert (H1 : no_overflow
                 (len (old_ids "nvd" (store (Sample.world Sample.migrated Sample.healthy)))) 10000)
    by (vm_compute; discriminate).
  assert (H2 : no_overflow (len [Sample.cpe_new]) 2000) by (vm_compute; discriminate).
  split; [exact H1|]. split; [exact H2|]. split; [reflexivity|].
  destruct (deleteAndInsertCpes_chunked Sample.sqlite "nvd" [Sample.cpe_new]
              (Sample.world Sample.migrated Sample.healthy) H1 H2)
    as (dels & inss & issued & last & Hd & Hi & _ & Hlog & _ & _ & Hall).
  exists dels, inss, issued, last.
  split; [exact Hd|]. split; [exact Hi|]. split; [exact Hlog|].
  exact (Hall eq_refl).
Defined.

Lemma InsertCpes_empty_witness :
  NoDup (map ID (categorized_cpes (store (Sample.world Sample.migrated Sample.healthy)))) /\
  no_overflow (len (old_ids "nvd" (store (Sample.world Sample.migrated Sample.healthy)))) 10000 /\
  (forall p, (length (log (Sample.world Sample.migrated Sample.healthy)) <= p)%nat ->
             oracle (Sample.world Sample.migrated Sample.healthy) p = None) /\
  fst (RDBDriver.InsertCpes Sample.sqlite "nvd" []
         (Sample.world Sample.migrated Sample.healthy)) = None /\
  categorized_cpes
    (store (snd (RDBDriver.InsertCpes Sample.sqlite "nvd" []
                   (Sample.world Sample.migrated Sample.healthy))))
    = [Sample.cpe_c] /\
  store (snd (RDBDriver.InsertCpes Sample.sqlite "nvd" []
                (Sample.world Sample.migrated Sample.healthy)))
    <> store (Sample.world Sample.migrated Sample.healthy).
Proof.
  assert (H1 : NoDup (map ID (categorized_cpes
                 (store (Sample.world Sample.migrated Sample.healthy))))).
  { repeat constructor; simpl; intuition discriminate. }
  assert (H2 : no_overflow
                 (len (old_ids "nvd" (store (Sample.world Sample.migrated Sample.healthy)))) 10000)
    by (vm_compute; discriminate).
  assert (H3 : forall p,
             (length (log (Sample.world Sample.migrated Sample.healthy)) <= p)%nat ->
             oracle (Sample.world Sample.migrated Sample.healthy) p = None)
    by (intros p _; reflexivity).
  split; [exact H1|]. split; [exact H2|]. split; [exact H3|].
  destruct (InsertCpes_empty Sample.sqlite "nvd"
              (Sample.world Sample.migrated Sample.healthy) H1 H2 H3)
    as (Herr & _ & Hstore & Hchanged).
  split; [exact Herr|]. split; [rewrite Hstore; reflexivity|].
  apply Hchanged. exists Sample.cpe_a. split; [left; reflexivity|reflexivity].
Defined.

Lemma GetCpesByVendorProduct_partitions_witness :
  oracle (Sample.world Sample.migrated Sample.healthy)
    (length (log (Sample.world Sample.migrated Sample.healthy))) = None /\
  fst (RDBDriver.GetCpesByVendorProduct Sample.sqlite "v" "%"
         (Sample.world Sample.migrated Sample.healthy))
    = (["cpe:/a:v:p:a"], ["cpe:/a:v:p:b"], None) /\
  exists cpeURIs deprecated,
    fst (RDBDriver.GetCpesByVendorProduct Sample.sqlite "v" "%"
           (Sample.world Sample.migrated Sample.healthy)) = (cpeURIs, deprecated, None) /\
    NoDup cpeURIs /\ NoDup deprecated.
Proof.
  split; [reflexivity|]. split; [reflexivity|].
  destruct (GetCpesByVendorProduct_partitions Sample.sqlite "v" "%"
              (Sample.world Sample.migrated Sample.healthy) eq_refl)
    as (cpeURIs & deprecated & Hrun & Hnd1 & Hnd2 & _).
  exists cpeURIs, deprecated. auto.
Defined.

Lemma UpsertFetchMeta_stamps_witness :
  let m := {| MetaID := 0; GoCPEDictRevision := "forged"; SchemaVersion := 99;
              LastFetchedAt := 1700000000 |} in
  let w := Sample.world Sample.migrated Sample.healthy in
  MetaID m = 0 /\
  fst (RDBDriver.UpsertFetchMeta "0a1b2c3" 2 Sample.sqlite m w)
    = ({| MetaID := 1; GoCPEDictRevision := "0a1b2c3"; SchemaVersion := 2;
          LastFetchedAt := 1700000000 |}, None) /\
  MetaID (fst (fst (RDBDriver.UpsertFetchMeta "0a1b2c3" 2 Sample.sqlite m w)))
    = next_MetaID (fetch_metas (store w)).
Proof.
  intros m w. split; [reflexivity|]. split; [reflexivity|].
  pose proof (UpsertFetchMeta_stamps "0a1b2c3" 2 Sample.sqlite m w) as (_ & _ & _ & _ & H).
  change (snd (fst (RDBDriver.UpsertFetchMeta "0a1b2c3" 2 Sample.sqlite m w)))
    with (@None error) in H.
  exact (proj2 (proj2 (proj2 H)) eq_refl).
Defined.

Lemma GetFetchMeta_not_found_witness :
  oracle (Sample.world Sample.migrated Sample.healthy)
    (length (log (Sample.world Sample.migrated Sample.healthy))) = None /\
  fetch_metas (store (Sample.world Sample.migrated Sample.healthy)) = [] /\
  fst (RDBDriver.GetFetchMeta "0a1b2c3" 2 Sample.sqlite
         (Sample.world Sample.migrated Sample.healthy))
    = (Some {| MetaID := 0; GoCPEDictRevision := "0a1b2c3"; SchemaVersion := 2;
               LastFetchedAt := 0 |}, None).
Proof.
  split; [reflexivity|]. split; [reflexivity|].
  exact (proj1 (GetFetchMeta_not_found "0a1b2c3" 2 Sample.sqlite
                  (Sample.world Sample.migrated Sample.healthy)) eq_refl eq_refl).
Defined.

(** The replace of the three sample entries, failing at the insert: the
    store is the one before the call. *)
Example replace_rolls_back :
  let w := Sample.world Sample.migrated (Sample.fails_at 3 (fault_other "disk full")) in
  fst (RDBDriver.InsertCpes Sample.sqlite "nvd" [Sample.cpe_new] w)
    = Some (wrapped "Failed to insert. err: %w" (foreign_error "disk full")) /\
  log (snd (RDBDriver.InsertCpes Sample.sqlite "nvd" [Sample.cpe_new] w))
    = [SBegin; SFindIDs "nvd"; SDelete [1; 2]; SCreate [Sample.cpe_new]; SRollback] /\
  store (snd (RDBDriver.InsertCpes Sample.sqlite "nvd" [Sample.cpe_new] w)) = Sample.migrated.
Proof. repeat split. Qed.

(** The same replace on a backend that fails nothing. *)
Example replace_commits :
  let w := Sample.world Sample.migrated Sample.healthy in
  fst (RDBDriver.InsertCpes Sample.sqlite "nvd" [Sample.cpe_new] w) = None /\
  map CpeURI (categorized_cpes (store (snd (RDBDriver.InsertCpes Sample.sqlite "nvd" [Sample.cpe_new] w))))
    = ["cpe:/a:w:q:c"; "cpe:/a:x:y:z"] /\
  fst (RDBDriver.GetVendorProducts Sample.sqlite
         (snd (RDBDriver.InsertCpes Sample.sqlite "nvd" [Sample.cpe_new] w)))
    = (["w::q"; "x::y"], None).
Proof. repeat split. Qed.

(** * Further properties *)

(** ** The chunker at its edges *)

Section ChunkerEdges.

Lemma chain_count a cs b S :
  1 <= S -> chain a cs b -> full_but_last S cs ->
  len cs = (b - a + S - 1) / S.
Proof.
  intros HS. revert a. induction cs as [|c cs IH]; intros a Hc Hf.
  - simpl in Hc. subst b. unfold len. simpl.
    replace (a - a + S - 1) with (S - 1) by lia.
    rewrite Z.div_small by lia. reflexivity.
  - simpl in Hc. destruct Hc as (H1 & H2 & H3).
    destruct cs as [|c' cs'].
    + simpl in H3, Hf. unfold size in Hf. subst b a. unfold len. simpl.
      apply Z.div_unique_pos with (r := To c - From c - 1); lia.
    + change (size c = S /\ full_but_last S (c' :: cs')) in Hf. destruct Hf as [Hs Hf].
      specialize (IH (To c) H3 Hf). unfold size in Hs.
      unfold len in *. cbn [length] in *.
      rewrite Nat2Z.inj_succ, IH.
      replace (b - a + S - 1) with ((b - To c + S - 1) + 1 * S) by lia.
      rewrite Z.div_add by lia. lia.
Qed.

(** X1.  Under the bound that keeps the loop from overflowing,
    [chunkSlice(N, S)] sends the length divided by the chunk size, rounded
    up, many ranges. *)
Theorem chunkSlice_count (N S : Z) :
  0 <= N -> 1 <= S -> no_overflow N S ->
  len (chunkSlice N S) = (N + S - 1) / S.
Proof.
  intros HN HS Hfit.
  destruct (chunk_loop_closes N S HN HS Hfit) as (_ & Hc & Hf).
  rewrite (chain_count 0 _ N S HS Hc Hf). f_equal. lia.
Qed.

Lemma chunkSlice_count_witness :
  (0 <= 25000 /\ 1 <= 10000 /\ no_overflow 25000 10000) /\
  len (chunkSlice 25000 10000) = 3.
Proof.
  assert (H0 : 0 <= 25000) by lia.
  assert (H1 : 1 <= 10000) by lia.
  assert (H2 : no_overflow 25000 10000) by (vm_compute; discriminate).
  split; [auto|].
  exact (chunkSlice_count 25000 10000 H0 H1 H2).
Defined.

(** X2.  The edges of the loop.  A length that is not positive closes the
    channel at once with nothing sent, whatever the chunk size.  A chunk
    size of zero on a positive length never closes the channel: every
    iteration sends the empty range [[0, 0)] and leaves [i] at zero. *)
Theorem chunkSlice_edges (N S : Z) (fuel : nat) :
  (N <= 0 -> chunk_loop (Datatypes.S fuel) N S 0 = ([], true)) /\
  (0 < N -> chunk_loop fuel N 0 0 = (repeat {| From := 0; To := 0 |} fuel, false)).
Proof.
  split.
  - intros H. rewrite chunk_loop_S.
    replace (0 <? N) with false by (symmetry; apply Z.ltb_ge; lia). reflexivity.
  - intros H. induction fuel as [|fuel IH]; [reflexivity|].
    rewrite chunk_loop_S.
    replace (0 <? N) with true by (symmetry; apply Z.ltb_lt; lia).
    change (int_add 0 0) with 0. cbv zeta. cbn [To From].
    replace (N <? 0) with false by (symmetry; apply Z.ltb_ge; lia).
    rewrite IH. reflexivity.
Qed.

Lemma chunkSlice_edges_witness :
  (-3 <= 0 /\ chunk_loop 1 (-3) 10000 0 = ([], true)) /\
  (0 < 7 /\ chunk_loop 4 7 0 0 = (repeat {| From := 0; To := 0 |} 4, false)).
Proof.
  split.
  - split; [lia|]. exact (proj1 (chunkSlice_edges (-3) 10000 0) ltac:(lia)).
  - split; [lia|]. exact (proj2 (chunkSlice_edges 7 0 4) ltac:(lia)).
Defined.

End ChunkerEdges.

(** ** Opening, further *)

Section OpeningFurther.

Variable config_Revision : string.
Variable models_LatestSchemaVersion : Z.
Variable dialectRedis : string.
Variable RedisDriver : string -> DB.

(** X3.  A dialect that is none of the supported ones is refused before
    anything is done: [NewDB] returns a nil driver, not locked, and the error
    that names the dialect, and makes no call on any backend. *)
Theorem NewDB_unknown_dialect dbType dbPath debugSQL w :
  ~ relational dbType -> dbType <> dialectRedis ->
  NewDB config_Revision models_LatestSchemaVersion dialectRedis RedisDriver
    dbType dbPath debugSQL w
  = (Returns (None, false, Some (text_error "Invalid database dialect, %s" [dbType])), w).
Proof.
  intros Hrel Hredis. unfold NewDB, newDB.
  assert (H1 : String.eqb dbType dialectSqlite3 = false).
  { apply String.eqb_neq. intros E. apply Hrel. left. auto. }
  assert (H2 : String.eqb dbType dialectMysql = false).
  { apply String.eqb_neq. intros E. apply Hrel. right. left. auto. }
  assert (H3 : String.eqb dbType dialectPostgreSQL = false).
  { apply String.eqb_neq. intros E. apply Hrel. right. right. left. auto. }
  assert (H4 : String.eqb dbType dialectRedis = false) by (apply String.eqb_neq; exact Hredis).
  rewrite H1, H2, H3, H4. reflexivity.
Qed.

(** X4.  When the open fails on a relational dialect, [NewDB] stops there:
    the open is the only call made, the store is untouched and the driver
    returned is nil.  On sqlite3 it reports [locked] exactly for an
    [sqlite3.Error] whose code is [ErrLocked] or [ErrBusy] and panics on an
    error of any other type; on mysql and postgres it never reports
    [locked]. *)
Theorem NewDB_open_failure dbType dbPath debugSQL w f :
  relational dbType ->
  oracle w (length (log w)) = Some f ->
  (exists dialector,
     snd (NewDB config_Revision models_LatestSchemaVersion dialectRedis RedisDriver
            dbType dbPath debugSQL w) = logged w (SOpen dialector dbPath debugSQL)) /\
  fst (NewDB config_Revision models_LatestSchemaVersion dialectRedis RedisDriver
         dbType dbPath debugSQL w) =
    if String.eqb dbType dialectSqlite3 then
      match f with
      | fault_sqlite3 Code =>
          Returns (None, locked_code Code,
                   Some (open_failure dbType dbPath (sqlite3_Error Code)))
      | fault_other _ => Panics "interface conversion: error is not sqlite3.Error"
      end
    else Returns (None, false, Some (open_failure dbType dbPath (fault_error f))).
Proof.
  intros Hrel Hf.
  rewrite (NewDB_eq config_Revision models_LatestSchemaVersion dialectRedis RedisDriver
             dbType dbPath debugSQL w Hrel), Hf.
  cbn [fst snd]. split; [eexists; reflexivity|reflexivity].
Qed.

End OpeningFurther.

Lemma NewDB_unknown_dialect_witness :
  ~ relational "oracle" /\ "oracle" <> "redis" /\
  NewDB "" 0 "redis" Sample.other_driver "oracle" "/var/cpe" false
    (Sample.world Sample.legacy Sample.healthy)
  = (Returns (None, false, Some (text_error "Invalid database dialect, %s" ["oracle"])),
     Sample.world Sample.legacy Sample.healthy).
Proof.
  assert (H1 : ~ relational "oracle").
  { intros [E|[E|[E|[]]]]; discriminate. }
  assert (H2 : "oracle" <> "redis") by discriminate.
  split; [exact H1|]. split; [exact H2|].
  exact (NewDB_unknown_dialect "" 0 "redis" Sample.other_driver "oracle" "/var/cpe" false
           (Sample.world Sample.legacy Sample.healthy) H1 H2).
Defined.

Lemma NewDB_open_failure_witness :
  relational "sqlite3" /\
  fst (NewDB "" 0 "redis" Sample.other_driver "sqlite3" "/var/cpe.sqlite3" false
         (Sample.world Sample.migrated (Sample.fails_at 0 (fault_sqlite3 5))))
  = Returns (None, true, Some (open_failure "sqlite3" "/var/cpe.sqlite3" (sqlite3_Error 5))) /\
  relational "mysql" /\
  fst (NewDB "" 0 "redis" Sample.other_driver "mysql" "cpe@tcp(db)/cpe" false
         (Sample.world Sample.migrated (Sample.fails_at 0 (fault_sqlite3 5))))
  = Returns (None, false, Some (open_failure "mysql" "cpe@tcp(db)/cpe" (sqlite3_Error 5))).
Proof.
  assert (H1 : relational "sqlite3") by (left; reflexivity).
  assert (H2 : relational "mysql") by (right; left; reflexivity).
  split; [exact H1|]. split.
  - exact (proj2 (NewDB_open_failure "" 0 "redis" Sample.other_driver "sqlite3"
                    "/var/cpe.sqlite3" false
                    (Sample.world Sample.migrated (Sample.fails_at 0 (fault_sqlite3 5)))
                    (fault_sqlite3 5) H1 eq_refl)).
  - split; [exact H2|].
    exact (proj2 (NewDB_open_failure "" 0 "redis" Sample.other_driver "mysql"
                    "cpe@tcp(db)/cpe" false
                    (Sample.world Sample.migrated (Sample.fails_at 0 (fault_sqlite3 5)))
                    (fault_sqlite3 5) H2 eq_refl)).
Defined.

(** ** Migration and the open sequence *)

Lemma migrated_world_cases w :
  match fst (migrated_world w) with
  | Some e => exists f, e = migrate_failure f
  | None =>
      store (snd (migrated_world w))
      = with_tables (store w) (migrated_tables (tables (store w)))
  end.
Proof.
  unfold migrated_world.
  destruct (oracle w (length (log w))) as [f|]; cbn [fst snd]; [eauto|].
  destruct (oracle w (S (length (log w)))) as [f|]; cbn [fst snd]; [eauto|].
  reflexivity.
Qed.

(** X5.  [MigrateDB] only adds: whatever the backend does, the rows of both
    tables and every table of the catalogue are still there afterwards.  It
    is not all or nothing: once the backend has migrated the first model,
    the metadata table is in the catalogue, whether the second model fails
    or not.  A failed migration returns the failure of the backend as text.
    A successful one leaves the two tables of the program in the catalogue,
    and changes nothing at all on a store that already holds them. *)
Theorem MigrateDB_additive r w :
  fetch_metas (store (snd (RDBDriver.MigrateDB r w))) = fetch_metas (store w) /\
  categorized_cpes (store (snd (RDBDriver.MigrateDB r w))) = categorized_cpes (store w) /\
  (forall t, In t (tables (store w)) -> In t (tables (store (snd (RDBDriver.MigrateDB r w))))) /\
  (oracle w (length (log w)) = None ->
   In fetch_metas_table (tables (store (snd (RDBDriver.MigrateDB r w))))) /\
  match fst (RDBDriver.MigrateDB r w) with
  | Some e => exists f, e = printed_error "Failed to migrate. err: %s" [] (fault_error f)
  | None =>
      In fetch_metas_table (tables (store (snd (RDBDriver.MigrateDB r w)))) /\
      In categorized_cpes_table (tables (store (snd (RDBDriver.MigrateDB r w)))) /\
      (In fetch_metas_table (tables (store w)) ->
       In categorized_cpes_table (tables (store w)) ->
       store (snd (RDBDriver.MigrateDB r w)) = store w)
  end.
Proof.
  rewrite MigrateDB_eq.
  destruct (migrated_world_frame w) as (_ & (_ & G2 & G3 & G4) & _).
  split; [exact G2|]. split; [exact G3|]. split; [exact G4|].
  split.
  { intros Hok. unfold migrated_world. rewrite Hok.
    destruct (oracle w (S (length (log w)))); cbn [snd logged stored store with_table tables].
    - apply In_add_table. left. reflexivity.
    - apply In_add_table. right. apply In_add_table. left. reflexivity. }
  pose proof (migrated_world_cases w) as Hc.
  destruct (fst (migrated_world w)) as [e|]; [exact Hc|].
  rewrite Hc. cbn [tables with_tables]. unfold migrated_tables.
  split; [apply In_add_table; right; apply In_add_table; left; reflexivity|].
  split; [apply In_add_table; left; reflexivity|].
  intros H1 H2. rewrite (add_table_present fetch_metas_table _ H1).
  rewrite (add_table_present categorized_cpes_table _ H2).
  destruct (store w). reflexivity.
Qed.

Section MigrationFurther.

Variable config_Revision : string.
Variable models_LatestSchemaVersion : Z.
Variable dialectRedis : string.
Variable RedisDriver : string -> DB.

(** X6.  The outcomes of [NewDB] on a relational dialect, whatever the
    backend does.  A driver is returned only after [MigrateDB] has been
    called, and never as locked; it comes with an error exactly when the
    migration failed, and then the store has lost nothing: its rows are
    those of before and every table of before is in the catalogue.  A nil
    driver always comes with an error, no migration has been attempted and
    the store is untouched; the same holds when the open panics. *)
Theorem NewDB_outcomes dbType dbPath debugSQL w :
  relational dbType ->
  exists issued,
    log (snd (NewDB config_Revision models_LatestSchemaVersion dialectRedis RedisDriver
                dbType dbPath debugSQL w)) = log w ++ issued /\
    match fst (NewDB config_Revision models_LatestSchemaVersion dialectRedis RedisDriver
                 dbType dbPath debugSQL w) with
    | Returns (Some _, locked, err) =>
        locked = false /\ migrates issued /\
        match err with
        | None =>
            store (snd (NewDB config_Revision models_LatestSchemaVersion dialectRedis
                          RedisDriver dbType dbPath debugSQL w))
            = with_tables (store w) (migrated_tables (tables (store w)))
        | Some e =>
            grown (store w)
              (store (snd (NewDB config_Revision models_LatestSchemaVersion dialectRedis
                            RedisDriver dbType dbPath debugSQL w))) /\
            exists f, e = printed_error "Failed to migrate. err: %s" [] (fault_error f)
        end
    | Returns (None, _, err) =>
        err <> None /\ ~ migrates issued /\
        store (snd (NewDB config_Revision models_LatestSchemaVersion dialectRedis RedisDriver
                      dbType dbPath debugSQL w)) = store w
    | Panics _ =>
        ~ migrates issued /\
        store (snd (NewDB config_Revision models_LatestSchemaVersion dialectRedis RedisDriver
                      dbType dbPath debugSQL w)) = store w
    end.
Proof.
  intros Hrel.
  rewrite (NewDB_eq config_Revision models_LatestSchemaVersion dialectRedis RedisDriver
             dbType dbPath debugSQL w Hrel).
  set (r := {| name := dbType |}).
  destruct (opened_frame dbType dbPath debugSQL w) as (Hst1 & Hor1 & Hlen1 & s1 & Hlog1 & Hno1).
  destruct (verdict_frame r (opened dbType dbPath debugSQL w)) as (Hst2 & Hor2 & s2 & Hlog2 & Hno2).
  assert (Hno12 : ~ migrates (s1 ++ s2)).
  { intros [t H]. apply in_app_or in H as [H|H]; [apply Hno1|apply Hno2]; exists t; exact H. }
  destruct (oracle w (length (log w))) as [f|].
  - exists [SOpen (dialector_of dbType) dbPath debugSQL]. split; [reflexivity|].
    assert (Hno : ~ migrates [SOpen (dialector_of dbType) dbPath debugSQL]).
    { intros [t H]. simpl in H. intuition discriminate. }
    unfold refused_open. cbn [fst snd logged store].
    destruct (String.eqb dbType dialectSqlite3); [destruct f as [Code|text]|]; cbn [fst];
      repeat split; try exact Hno; discriminate.
  - destruct (verdict r (opened dbType dbPath debugSQL w)) as [[isV1 err] w2].
    cbn [fst snd] in *.
    assert (Hlog : log w2 = log w ++ s1 ++ s2).
    { rewrite Hlog2, Hlog1, <- app_assoc. reflexivity. }
    assert (Hst : store w2 = store w) by congruence.
    destruct err as [e|].
    + exists (s1 ++ s2). destruct isV1; cbn [fst snd];
        (split; [exact Hlog|]; split; [discriminate|]; split; [exact Hno12|exact Hst]).
    + destruct isV1; cbn [fst snd].
      * exists (s1 ++ s2). split; [exact Hlog|]. split; [discriminate|].
        split; [exact Hno12|exact Hst].
      * destruct (migrated_world_frame w2) as (_ & Hg & s3 & Hlog3 & Hmig3).
        pose proof (migrated_world_cases w2) as Hc.
        exists (s1 ++ s2 ++ s3). split; [rewrite Hlog3, Hlog, <- !app_assoc; reflexivity|].
        split; [reflexivity|]. split.
        { destruct Hmig3 as [t Ht]. exists t.
          apply in_or_app. right. apply in_or_app. right. exact Ht. }
        destruct (fst (migrated_world w2)) as [e|].
        -- split; [rewrite <- Hst; exact Hg|exact Hc].
        -- rewrite Hc, Hst. reflexivity.
Qed.

(** X7.  The compatibility error is raised only on a store that holds some
    table, and on one that holds the metadata table only when the backend
    failed the very test for that table (which gorm reads as: no such
    table).  So on a backend that answers that test, it is raised only for
    a store with some table and without the metadata table. *)
Theorem NewDB_incompatible_sound dbType dbPath debugSQL w driver locked :
  relational dbType ->
  fst (NewDB config_Revision models_LatestSchemaVersion dialectRedis RedisDriver
         dbType dbPath debugSQL w) = Returns (driver, locked, Some incompatible) ->
  tables (store w) <> [] /\
  (has_fetch_meta (store w) = false \/ oracle w (opened_at dbType w) <> None).
Proof.
  intros Hrel.
  rewrite (NewDB_eq config_Revision models_LatestSchemaVersion dialectRedis RedisDriver
             dbType dbPath debugSQL w Hrel).
  set (r := {| name := dbType |}).
  destruct (opened_frame dbType dbPath debugSQL w) as (Hst1 & Hor1 & Hlen1 & _).
  destruct (oracle w (length (log w))) as [f|].
  - unfold refused_open, open_failure, incompatible. cbn [fst].
    destruct (String.eqb dbType dialectSqlite3); [destruct f|]; discriminate.
  - pose proof (verdict_sound r (opened dbType dbPath debugSQL w)) as Hs.
    destruct (verdict r (opened dbType dbPath debugSQL w)) as [[isV1 err] w2].
    specialize (Hs isV1 err eq_refl). destruct Hs as [Htrue Herr].
    rewrite Hst1, Hlen1, Hor1 in Htrue.
    destruct err as [e|].
    + destruct (Herr e eq_refl) as (_ & f & ->).
      unfold incompatible. destruct isV1, f; cbn [fst fault_error]; discriminate.
    + destruct isV1; cbn [fst].
      * intros _. destruct (Htrue eq_refl) as (_ & Hne & Htest).
        split; [exact Hne|].
        destruct (has_fetch_meta (store w)); [right; apply Htest; reflexivity|left; reflexivity].
      * pose proof (migrated_world_cases w2) as Hc.
        destruct (fst (migrated_world w2)) as [e|]; [|discriminate].
        destruct Hc as [f ->]. unfold migrate_failure, incompatible. discriminate.
Qed.

Lemma NewDB_ready_run dbType dbPath debugSQL w :
  relational dbType -> never_fails w ->
  (has_fetch_meta (store w) = true \/ tables (store w) = []) ->
  (exists driver,
     fst (NewDB config_Revision models_LatestSchemaVersion dialectRedis RedisDriver
            dbType dbPath debugSQL w) = Returns (Some driver, false, None)) /\
  store (snd (NewDB config_Revision models_LatestSchemaVersion dialectRedis RedisDriver
                dbType dbPath debugSQL w))
    = with_tables (store w) (migrated_tables (tables (store w))) /\
  oracle (snd (NewDB config_Revision models_LatestSchemaVersion dialectRedis RedisDriver
                 dbType dbPath debugSQL w)) = oracle w.
Proof.
  intros Hrel Hok Hstore.
  rewrite (NewDB_eq config_Revision models_LatestSchemaVersion dialectRedis RedisDriver
             dbType dbPath debugSQL w Hrel).
  set (r := {| name := dbType |}).
  assert (Hr : relational (name r)) by exact Hrel.
  destruct (opened_frame dbType dbPath debugSQL w) as (Hst1 & Hor1 & _).
  destruct (verdict_frame r (opened dbType dbPath debugSQL w)) as (Hst2 & Hor2 & _).
  assert (Hok1 : never_fails (opened dbType dbPath debugSQL w)).
  { intros p. rewrite Hor1. apply Hok. }
  pose proof (verdict_healthy r _ Hr Hok1) as Hv. rewrite Hst1 in Hv.
  assert (Hfalse : negb (has_fetch_meta (store w)) && negb (len (tables (store w)) =? 0) = false).
  { destruct Hstore as [H|H]; rewrite H; [reflexivity|]. apply andb_false_r. }
  rewrite Hfalse in Hv. rewrite Hok.
  destruct (verdict r (opened dbType dbPath debugSQL w)) as [[isV1 err] w2].
  cbn [fst snd] in *. inversion Hv; subst isV1 err.
  assert (Hok2 : never_fails w2) by (intros p; rewrite Hor2, Hor1; apply Hok).
  destruct (migrated_world_frame w2) as (Hor3 & _).
  pose proof (migrated_world_cases w2) as Hc.
  unfold migrated_world in Hc |- *. rewrite !Hok2 in Hc |- *. cbn [fst snd] in Hc |- *.
  split; [eauto|]. split.
  - rewrite Hc, Hst2, Hst1. reflexivity.
  - cbn [stored oracle]. rewrite Hor2, Hor1. reflexivity.
Qed.

(** X8.  With a backend that fails nothing, [NewDB] on a relational dialect
    makes a store ready when it is a fresh one (no table at all) or one that
    holds the metadata table: it returns a driver and no error, and the
    store is the one before with the two tables of the program in its
    catalogue.  Opening the resulting store again succeeds as well and
    changes nothing. *)
Theorem NewDB_ready_reopen dbType dbPath debugSQL w :
  relational dbType -> never_fails w ->
  (has_fetch_meta (store w) = true \/ tables (store w) = []) ->
  (exists driver,
     fst (NewDB config_Revision models_LatestSchemaVersion dialectRedis RedisDriver
            dbType dbPath debugSQL w) = Returns (Some driver, false, None)) /\
  store (snd (NewDB config_Revision models_LatestSchemaVersion dialectRedis RedisDriver
                dbType dbPath debugSQL w))
    = with_tables (store w) (migrated_tables (tables (store w))) /\
  (exists driver,
     fst (NewDB config_Revision models_LatestSchemaVersion dialectRedis RedisDriver
            dbType dbPath debugSQL
            (snd (NewDB config_Revision models_LatestSchemaVersion dialectRedis RedisDriver
                    dbType dbPath debugSQL w))) = Returns (Some driver, false, None)) /\
  store (snd (NewDB config_Revision models_LatestSchemaVersion dialectRedis RedisDriver
                dbType dbPath debugSQL
                (snd (NewDB config_Revision models_LatestSchemaVersion dialectRedis RedisDriver
                        dbType dbPath debugSQL w))))
    = store (snd (NewDB config_Revision models_LatestSchemaVersion dialectRedis RedisDriver
                    dbType dbPath debugSQL w)).
Proof.
  intros Hrel Hok Hstore.
  destruct (NewDB_ready_run dbType dbPath debugSQL w Hrel Hok Hstore) as (Hres & Hst & Hor).
  split; [exact Hres|]. split; [exact Hst|].
  set (w1 := snd (NewDB config_Revision models_LatestSchemaVersion dialectRedis RedisDriver
                    dbType dbPath debugSQL w)) in *.
  assert (Hok1 : never_fails w1) by (intros p; rewrite Hor; apply Hok).
  assert (Hhas1 : has_fetch_meta (store w1) = true).
  { unfold has_fetch_meta. rewrite Hst. cbn [tables with_tables].
    apply existsb_Table. unfold migrated_tables.
    apply In_add_table. right. apply In_add_table. left. reflexivity. }
  destruct (NewDB_ready_run dbType dbPath debugSQL w1 Hrel Hok1 (or_introl Hhas1))
    as (Hres1 & Hst1 & _).
  split; [exact Hres1|].
  rewrite Hst1, Hst. cbn [tables with_tables]. rewrite migrated_tables_again. reflexivity.
Qed.

End MigrationFurther.

Lemma MigrateDB_additive_witness :
  fst (RDBDriver.MigrateDB Sample.sqlite (Sample.world Sample.migrated Sample.healthy)) = None /\
  store (snd (RDBDriver.MigrateDB Sample.sqlite (Sample.world Sample.migrated Sample.healthy)))
    = Sample.migrated /\
  (exists f,
     fst (RDBDriver.MigrateDB Sample.sqlite
            (Sample.world Sample.legacy (Sample.fails_at 1 (fault_other "disk full"))))
     = Some (printed_error "Failed to migrate. err: %s" [] (fault_error f))) /\
  In fetch_metas_table
     (tables (store (snd (RDBDriver.MigrateDB Sample.sqlite
                            (Sample.world Sample.legacy
                               (Sample.fails_at 1 (fault_other "disk full"))))))).
Proof.
  split; [reflexivity|]. split.
  - destruct (MigrateDB_additive Sample.sqlite (Sample.world Sample.migrated Sample.healthy))
      as (_ & _ & _ & _ & Hm).
    destruct Hm as (_ & _ & Hsame).
    apply Hsame; [left; reflexivity|right; left; reflexivity].
  - destruct (MigrateDB_additive Sample.sqlite
                (Sample.world Sample.legacy (Sample.fails_at 1 (fault_other "disk full"))))
      as (_ & _ & _ & Hfirst & Hm).
    split; [|exact (Hfirst eq_refl)].
    destruct Hm as [f Hf].
    exists f. exact (f_equal Some Hf).
Defined.

Lemma NewDB_outcomes_witness :
  relational "postgres" /\
  exists issued,
    log (snd (NewDB "" 0 "redis" Sample.other_driver "postgres" "host=db" false
                (Sample.world Sample.migrated (Sample.fails_at 3 (fault_other "read-only")))))
      = [] ++ issued /\
    migrates issued /\
    grown Sample.migrated
      (store (snd (NewDB "" 0 "redis" Sample.other_driver "postgres" "host=db" false
                     (Sample.world Sample.migrated
                        (Sample.fails_at 3 (fault_other "read-only")))))).
Proof.
  assert (H : relational "postgres") by (right; right; left; reflexivity).
  split; [exact H|].
  destruct (NewDB_outcomes "" 0 "redis" Sample.other_driver "postgres" "host=db" false
              (Sample.world Sample.migrated (Sample.fails_at 3 (fault_other "read-only"))) H)
    as (issued & Hlog & Hm).
  exists issued. split; [exact Hlog|].
  split; [exact (proj1 (proj2 Hm))|exact (proj1 (proj2 (proj2 Hm)))].
Defined.

Lemma NewDB_incompatible_sound_witness :
  relational "sqlite3" /\
  fst (NewDB "" 0 "redis" Sample.other_driver "sqlite3" "/var/cpe.sqlite3" false
         (Sample.world Sample.migrated (Sample.fails_at 2 (fault_other "database is locked"))))
    = Returns (None, false, Some incompatible) /\
  tables Sample.migrated <> [] /\
  (has_fetch_meta Sample.migrated = false \/
   Sample.fails_at 2 (fault_other "database is locked") 2%nat <> None).
Proof.
  assert (H : relational "sqlite3") by (left; reflexivity).
  split; [exact H|]. split; [reflexivity|].
  exact (NewDB_incompatible_sound "" 0 "redis" Sample.other_driver "sqlite3"
           "/var/cpe.sqlite3" false
           (Sample.world Sample.migrated (Sample.fails_at 2 (fault_other "database is locked")))
           None false H eq_refl).
Defined.

Lemma NewDB_ready_reopen_witness :
  relational "mysql" /\
  never_fails (Sample.world (with_tables Sample.migrated []) Sample.healthy) /\
  tables (store (Sample.world (with_tables Sample.migrated []) Sample.healthy)) = [] /\
  store (snd (NewDB "" 0 "redis" Sample.other_driver "mysql" "cpe@tcp(db)/cpe" false
                (Sample.world (with_tables Sample.migrated []) Sample.healthy)))
    = Sample.migrated.
Proof.
  assert (H1 : relational "mysql") by (right; left; reflexivity).
  assert (H2 : never_fails (Sample.world (with_tables Sample.migrated []) Sample.healthy))
    by (intros p; reflexivity).
  split; [exact H1|]. split; [exact H2|]. split; [reflexivity|].
  exact (proj1 (proj2 (NewDB_ready_reopen "" 0 "redis" Sample.other_driver "mysql"
                         "cpe@tcp(db)/cpe" false
                         (Sample.world (with_tables Sample.migrated []) Sample.healthy)
                         H1 H2 (or_intror eq_refl)))).
Defined.

(** ** The bulk replace, further *)

Section ReplaceFurther.

Lemma max_id_nonneg rows : 0 <= max_id rows.
Proof. unfold max_id. induction rows as [|x rows IH]; cbn [map fold_right]; lia. Qed.

Lemma max_id_app a b : max_id (a ++ b) = Z.max (max_id a) (max_id b).
Proof.
  induction a as [|c a IH].
  - pose proof (max_id_nonneg b). unfold max_id at 2. cbn [map fold_right app]. lia.
  - unfold max_id in *. cbn [map fold_right app]. rewrite IH. lia.
Qed.

Lemma max_id_bound rows c : In c rows -> ID c <= max_id rows.
Proof.
  unfold max_id. induction rows as [|x rows IH]; cbn [map fold_right]; [contradiction|].
  intros [->|H]; [lia|]. specialize (IH H). lia.
Qed.

Lemma with_ids_app n a b :
  with_ids n (a ++ b) = with_ids n a ++ with_ids (next_after n a) b.
Proof.
  revert n. induction a as [|c a IH]; intros n; simpl; [reflexivity|].
  destruct (ID c =? 0); simpl; rewrite IH; reflexivity.
Qed.

Lemma next_after_max n a :
  1 <= n -> next_after n a = 1 + Z.max (n - 1) (max_id (with_ids n a)).
Proof.
  revert n. induction a as [|c a IH]; intros n Hn; cbn [next_after with_ids].
  - unfold max_id. cbn [map fold_right]. lia.
  - destruct (ID c =? 0) eqn:E.
    + rewrite IH by lia. unfold max_id. cbn [map fold_right ID]. lia.
    + rewrite IH by lia. unfold max_id. cbn [map fold_right]. lia.
Qed.

Lemma next_ID_positive rows : 1 <= next_ID rows.
Proof. pose proof (max_id_nonneg rows). unfold next_ID, max_id in *. lia. Qed.

(** Two inserts in a row store what one insert of both slices stores. *)
Lemma insert_rows_app a b rows :
  insert_rows b (insert_rows a rows) = insert_rows (a ++ b) rows.
Proof.
  unfold insert_rows.
  assert (E : next_ID (rows ++ with_ids (next_ID rows) a) = next_after (next_ID rows) a).
  { rewrite (next_after_max _ a (next_ID_positive rows)).
    unfold next_ID at 1. fold (max_id (rows ++ with_ids (next_ID rows) a)).
    rewrite max_id_app.
    replace (next_ID rows - 1) with (max_id rows) by (unfold next_ID, max_id; lia).
    reflexivity. }
  rewrite E, with_ids_app, <- app_assoc. reflexivity.
Qed.

Lemma insert_rows_nil rows : insert_rows [] rows = rows.
Proof. unfold insert_rows. simpl. apply app_nil_r. Qed.

Lemma effects_create cpes ch s :
  effects (create_effect cpes) ch s =
  with_cpes s (insert_rows (concat (map (fun idx => slice cpes (From idx) (To idx)) ch))
                 (categorized_cpes s)).
Proof.
  revert s. induction ch as [|idx ch IH]; intros s.
  - simpl. rewrite insert_rows_nil, with_cpes_same. reflexivity.
  - unfold effects in *. simpl fold_left. rewrite IH.
    unfold create_effect at 1 2. unfold with_cpes at 1 2 3. simpl.
    rewrite insert_rows_app. reflexivity.
Qed.

(** The store a committed replace leaves, chunk by chunk, when the chunker
    does not overflow: the store of one delete of all the old ids followed
    by one insert of the whole batch. *)
Lemma committed_store fetchType cpes s :
  no_overflow (len (old_ids fetchType s)) 10000 ->
  no_overflow (len cpes) 2000 ->
  effects (create_effect cpes) (chunkSlice (len cpes) 2000)
    (effects (delete_effect (old_ids fetchType s))
       (chunkSlice (len (old_ids fetchType s)) 10000) s)
  = with_cpes s (insert_rows cpes (delete_ids (old_ids fetchType s) (categorized_cpes s))).
Proof.
  intros H1 H2. rewrite effects_create, effects_delete.
  destruct (slices_cut_into (old_ids fetchType s) 10000 ltac:(lia) H1) as [Hc1 _].
  destruct (slices_cut_into cpes 2000 ltac:(lia) H2) as [Hc2 _].
  unfold slices in Hc1, Hc2. rewrite Hc1, Hc2. reflexivity.
Qed.

Lemma healthy_replace r fetchType cpes w :
  healthy_from_now w ->
  fst (RDBDriver.deleteAndInsertCpes r fetchType cpes w) = None /\
  store (snd (RDBDriver.deleteAndInsertCpes r fetchType cpes w))
    = effects (create_effect cpes) (chunkSlice (len cpes) 2000)
        (effects (delete_effect (old_ids fetchType (store w)))
           (chunkSlice (len (old_ids fetchType (store w))) 10000) (store w)).
Proof.
  intros Hok.
  destruct (deleteAndInsertCpes_run r fetchType cpes w)
    as [f w' Hsel Hlog Hst
       |k f w' oldIDs dels Hsel Hk Hsucc Hor Hlog Hst
       |k f w' oldIDs dels inss Hsel Hsucc1 Hk Hsucc Hor Hlog Hst
       |w' oldIDs dels inss Hsel Hsucc1 Hsucc2 Hlog Hst].
  - rewrite Hok in Hsel by lia. discriminate.
  - rewrite Hok in Hor by lia. discriminate.
  - rewrite Hok in Hor by lia. discriminate.
  - split; [reflexivity|exact Hst].
Qed.

(** A replace never changes the oracle, ends its transaction, and only
    lengthens the log. *)
Lemma deleteAndInsertCpes_frame r fetchType cpes w :
  oracle (snd (RDBDriver.deleteAndInsertCpes r fetchType cpes w)) = oracle w /\
  snapshot (snd (RDBDriver.deleteAndInsertCpes r fetchType cpes w)) = None /\
  (length (log w) <= length (log (snd (RDBDriver.deleteAndInsertCpes r fetchType cpes w))))%nat.
Proof.
  assert (Hfirst :
    oracle (snd (RDBDriver.deleteAndInsertCpes r fetchType cpes w)) = oracle w /\
    snapshot (snd (RDBDriver.deleteAndInsertCpes r fetchType cpes w)) = None).
  { destruct (RDBDriver.deleteAndInsertCpes r fetchType cpes w) as [err w'] eqn:E.
    cbn [snd]. unfold RDBDriver.deleteAndInsertCpes in E.
    set (w1 := {| store := store w; snapshot := Some (store w); log := log w ++ [SBegin];
                  oracle := oracle w; like := like w;
                  bar := {| total := len cpes; current := 0; finished := false |} |}).
    change ((err <- RDBDriver.deleteAndInsertCpes_body fetchType cpes ;;
             match err with Some _ => tx_Rollback | None => tx_Commit end ;; ret err) w1
            = (err, w')) in E.
    unfold bind in E.
    assert (Hbody : oracle (snd (RDBDriver.deleteAndInsertCpes_body fetchType cpes w1))
                    = oracle w).
    { unfold RDBDriver.deleteAndInsertCpes_body, bind. rewrite tx_Find_ids_run.
      destruct (oracle w1 (length (log w1))) as [f|]; cbn [Error].
      - rewrite fault_is_not_ErrRecordNotFound. reflexivity.
      - match goal with
        | |- context [RDBDriver.deleteAndInsertCpes_chunks ?res cpes ?w2] =>
            destruct (deleteAndInsertCpes_chunks_run res cpes w2 eq_refl) as (Ho & _)
        end.
        rewrite Ho. reflexivity. }
    destruct (RDBDriver.deleteAndInsertCpes_body fetchType cpes w1) as [e w2].
    cbn [snd] in Hbody.
    destruct e as [e|]; unfold tx_Rollback, tx_Commit, note, issue, bind, ret,
      get_snapshot, set_store, set_snapshot in E; cbn [fst snd snapshot] in E.
    + destruct (snapshot w2) eqn:Hsnap; inversion E; subst; cbn [oracle snapshot]; auto.
    + inversion E; subst; cbn [oracle snapshot]; auto. }
  destruct Hfirst as [H1 H2]. split; [exact H1|]. split; [exact H2|].
  destruct (deleteAndInsertCpes_run r fetchType cpes w)
    as [f w' Hsel Hlog Hst
       |k f w' oldIDs dels Hsel Hk Hsucc Hor Hlog Hst
       |k f w' oldIDs dels inss Hsel Hsucc1 Hk Hsucc Hor Hlog Hst
       |w' oldIDs dels inss Hsel Hsucc1 Hsucc2 Hlog Hst];
    rewrite Hlog, length_app; lia.
Qed.

Lemma healthy_after_replace r fetchType cpes w :
  healthy_from_now w ->
  healthy_from_now (snd (RDBDriver.deleteAndInsertCpes r fetchType cpes w)).
Proof.
  intros Hok p Hp.
  destruct (deleteAndInsertCpes_frame r fetchType cpes w) as (Ho & _ & Hl).
  rewrite Ho. apply Hok. lia.
Qed.

Lemma forget_with_ids n rows : map forget_id (with_ids n rows) = map forget_id rows.
Proof.
  revert n. induction rows as [|c rows IH]; intros n; cbn [with_ids map]; [reflexivity|].
  destruct (ID c =? 0); cbn [map]; rewrite IH; reflexivity.
Qed.

Lemma with_ids_fresh n rows :
  Forall (fun c => ID c = 0) rows ->
  NoDup (map ID (with_ids n rows)) /\ Forall (fun c => n <= ID c) (with_ids n rows).
Proof.
  revert n. induction rows as [|c rows IH]; intros n Hz; cbn [with_ids map].
  - split; constructor.
  - inversion Hz as [|? ? Hc Hrest]; subst. rewrite Hc. cbn [Z.eqb map ID].
    destruct (IH (n + 1) Hrest) as [Hnd Hge]. split.
    + constructor; [|exact Hnd].
      intros Hin. apply in_map_iff in Hin as (x & Hx & Hin).
      rewrite Forall_forall in Hge. specialize (Hge x Hin). lia.
    + constructor; [cbn [ID]; lia|].
      eapply Forall_impl; [|exact Hge]. cbn beta. intros x Hx. lia.
Qed.

Lemma with_ids_tags fetchType n rows :
  Forall (fun c => fetch_type c = fetchType) rows ->
  Forall (fun c => fetch_type c = fetchType) (with_ids n rows).
Proof.
  revert n. induction rows as [|c rows IH]; intros n H; cbn [with_ids]; [constructor|].
  inversion H; subst. destruct (ID c =? 0); constructor; auto.
Qed.

Lemma NoDup_ids_filter (p : CategorizedCpe -> bool) rows :
  NoDup (map ID rows) -> NoDup (map ID (filter p rows)).
Proof.
  induction rows as [|c rows IH]; cbn [filter map]; intros H; [constructor|].
  inversion H as [|? ? Hnotin Hnd]; subst.
  destruct (p c); cbn [map]; [|auto].
  constructor; [|auto]. intros Hin. apply Hnotin.
  apply in_map_iff in Hin as (x & Hx & Hin). apply filter_In in Hin as [Hin _].
  rewrite <- Hx. apply in_map, Hin.
Qed.

(** An insert of rows without keys keeps the primary key. *)
Lemma NoDup_ids_insert new rows :
  NoDup (map ID rows) -> Forall (fun c => ID c = 0) new ->
  NoDup (map ID (insert_rows new rows)).
Proof.
  intros Hnd Hz. unfold insert_rows. rewrite map_app.
  destruct (with_ids_fresh (next_ID rows) new Hz) as [Hnew Hge].
  apply NoDup_app; [exact Hnd|exact Hnew|].
  intros a Ha Hb.
  apply in_map_iff in Ha as (x & Hx & Hin). apply in_map_iff in Hb as (y & Hy & Hiny).
  rewrite Forall_forall in Hge. specialize (Hge y Hiny).
  pose proof (max_id_bound rows x Hin). unfold next_ID in Hge. unfold max_id in *. lia.
Qed.

(** X9.  Chunking is invisible in the result.  With a backend that fails
    nothing (and slice lengths the chunker does not overflow on),
    [deleteAndInsertCpes] returns no error and leaves the store that a single
    delete of all the old ids followed by a single insert of the whole batch
    would leave. *)
Theorem replace_as_one_delete_one_insert r fetchType cpes w :
  healthy_from_now w ->
  no_overflow (len (old_ids fetchType (store w))) 10000 ->
  no_overflow (len cpes) 2000 ->
  fst (RDBDriver.deleteAndInsertCpes r fetchType cpes w) = None /\
  store (snd (RDBDriver.deleteAndInsertCpes r fetchType cpes w))
    = with_cpes (store w)
        (insert_rows cpes
           (delete_ids (old_ids fetchType (store w)) (categorized_cpes (store w)))).
Proof.
  intros Hok H1 H2. destruct (healthy_replace r fetchType cpes w Hok) as [Herr Hst].
  split; [exact Herr|]. rewrite Hst. apply committed_store; assumption.
Qed.

(** X10.  Whatever the backend does and whatever the batch, a replace
    changes nothing but the entries: the catalogue and the metadata record
    are as before and no transaction is left open. *)
Theorem replace_leaves_the_rest r fetchType cpes w :
  database (store (snd (RDBDriver.deleteAndInsertCpes r fetchType cpes w))) = database (store w) /\
  tables (store (snd (RDBDriver.deleteAndInsertCpes r fetchType cpes w))) = tables (store w) /\
  fetch_metas (store (snd (RDBDriver.deleteAndInsertCpes r fetchType cpes w)))
    = fetch_metas (store w) /\
  snapshot (snd (RDBDriver.deleteAndInsertCpes r fetchType cpes w)) = None.
Proof.
  destruct (deleteAndInsertCpes_frame r fetchType cpes w) as (_ & Hsnap & _).
  destruct (deleteAndInsertCpes_run r fetchType cpes w)
    as [f w' Hsel Hlog Hst
       |k f w' oldIDs dels Hsel Hk Hsucc Hor Hlog Hst
       |k f w' oldIDs dels inss Hsel Hsucc1 Hk Hsucc Hor Hlog Hst
       |w' oldIDs dels inss Hsel Hsucc1 Hsucc2 Hlog Hst];
    rewrite Hst; try (repeat split; [exact Hsnap]).
  rewrite effects_create, effects_delete. repeat split. exact Hsnap.
Qed.

Lemma filter_all {A : Type} (p : A -> bool) (l : list A) :
  Forall (fun x => p x = true) l -> filter p l = l.
Proof.
  induction 1 as [|x l Hx _ IH]; cbn [filter]; [reflexivity|].
  rewrite Hx, IH. reflexivity.
Qed.

Lemma filter_none {A : Type} (p : A -> bool) (l : list A) :
  Forall (fun x => p x = false) l -> filter p l = [].
Proof.
  induction 1 as [|x l Hx _ IH]; cbn [filter]; [reflexivity|].
  rewrite Hx, IH. reflexivity.
Qed.

Lemma filter_twice {A : Type} (p : A -> bool) (l : list A) :
  filter p (filter p l) = filter p l.
Proof.
  apply filter_all. apply Forall_forall. intros x Hx. apply filter_In in Hx. tauto.
Qed.

(** The entries a committed replace leaves, under the primary key: the
    entries of the other fetch types followed by the batch with its keys. *)
Lemma generation_rows fetchType cpes s :
  NoDup (map ID (categorized_cpes s)) ->
  insert_rows cpes (delete_ids (old_ids fetchType s) (categorized_cpes s))
  = filter (not_of_type fetchType) (categorized_cpes s)
    ++ with_ids (next_ID (filter (not_of_type fetchType) (categorized_cpes s))) cpes.
Proof. intros Hnd. rewrite (delete_old_ids fetchType s Hnd). reflexivity. Qed.

Lemma tagged_rows fetchType rows :
  Forall (fun c => fetch_type c = fetchType) rows ->
  filter (of_type fetchType) rows = rows /\ filter (not_of_type fetchType) rows = [].
Proof.
  intros H. split.
  - apply filter_all. eapply Forall_impl; [|exact H]. cbn beta. intros c E.
    unfold of_type. rewrite E. apply String.eqb_refl.
  - apply filter_none. eapply Forall_impl; [|exact H]. cbn beta. intros c E.
    unfold not_of_type. rewrite E, String.eqb_refl. reflexivity.
Qed.

Lemma others_rows fetchType rows :
  filter (of_type fetchType) (filter (not_of_type fetchType) rows) = [] /\
  filter (not_of_type fetchType) (filter (not_of_type fetchType) rows)
    = filter (not_of_type fetchType) rows.
Proof.
  split; [|apply filter_twice].
  apply filter_none. apply Forall_forall. intros c Hc. apply filter_In in Hc as [_ Hc].
  unfold of_type, not_of_type in *. destruct (String.eqb (fetch_type c) fetchType);
    [discriminate|reflexivity].
Qed.

(** X11.  A committed replace swaps one generation.  With a backend that
    fails nothing, a store that keeps its primary key and a batch whose
    entries all carry the fetch type: afterwards the stored entries of that
    fetch type are the batch, in order and up to the keys the store gave
    them, so there are as many as the batch holds; the entries of every
    other fetch type are exactly those of before. *)
Theorem replace_swaps_generation r fetchType cpes w :
  healthy_from_now w ->
  NoDup (map ID (categorized_cpes (store w))) ->
  no_overflow (len (old_ids fetchType (store w))) 10000 ->
  no_overflow (len cpes) 2000 ->
  Forall (fun c => fetch_type c = fetchType) cpes ->
  map forget_id
    (filter (of_type fetchType)
       (categorized_cpes (store (snd (RDBDriver.InsertCpes r fetchType cpes w)))))
    = map forget_id cpes /\
  len (filter (of_type fetchType)
         (categorized_cpes (store (snd (RDBDriver.InsertCpes r fetchType cpes w)))))
    = len cpes /\
  filter (not_of_type fetchType)
    (categorized_cpes (store (snd (RDBDriver.InsertCpes r fetchType cpes w))))
    = filter (not_of_type fetchType) (categorized_cpes (store w)).
Proof.
  intros Hok Hnd H1 H2 Htag. unfold RDBDriver.InsertCpes.
  destruct (healthy_replace r fetchType cpes w Hok) as [_ Hst].
  rewrite Hst, committed_store by assumption.
  cbn [categorized_cpes with_cpes]. rewrite (generation_rows fetchType cpes _ Hnd).
  rewrite !filter_app.
  destruct (others_rows fetchType (categorized_cpes (store w))) as [E1 E2].
  destruct (tagged_rows fetchType _ (with_ids_tags fetchType
              (next_ID (filter (not_of_type fetchType) (categorized_cpes (store w)))) cpes Htag))
    as [E3 E4].
  rewrite E1, E2, E3, E4. cbn [app]. rewrite app_nil_r.
  split; [apply forget_with_ids|]. split; [|reflexivity].
  unfold len. rewrite <- (length_map forget_id), forget_with_ids, length_map. reflexivity.
Qed.

(** X12.  The primary key is an invariant of the replace.  On a store whose
    entries have distinct ids, a replace by a batch that brings no ids of its
    own leaves entries with distinct ids, whatever the backend does. *)
Theorem replace_keeps_primary_key r fetchType cpes w :
  NoDup (map ID (categorized_cpes (store w))) ->
  Forall (fun c => ID c = 0) cpes ->
  no_overflow (len (old_ids fetchType (store w))) 10000 ->
  no_overflow (len cpes) 2000 ->
  NoDup (map ID (categorized_cpes (store (snd (RDBDriver.deleteAndInsertCpes r fetchType cpes w))))).
Proof.
  intros Hnd Hz H1 H2.
  destruct (deleteAndInsertCpes_run r fetchType cpes w)
    as [f w' Hsel Hlog Hst
       |k f w' oldIDs dels Hsel Hk Hsucc Hor Hlog Hst
       |k f w' oldIDs dels inss Hsel Hsucc1 Hk Hsucc Hor Hlog Hst
       |w' oldIDs dels inss Hsel Hsucc1 Hsucc2 Hlog Hst];
    rewrite Hst; try exact Hnd.
  subst oldIDs dels inss. rewrite committed_store by assumption.
  cbn [categorized_cpes with_cpes].
  apply NoDup_ids_insert; [|exact Hz]. apply NoDup_ids_filter, Hnd.
Qed.

(** The stored entries of a fetch type, once a batch of that type has
    replaced them, are the batch with its keys. *)
Lemma generation_after fetchType cpes s :
  NoDup (map ID (categorized_cpes s)) ->
  Forall (fun c => fetch_type c = fetchType) cpes ->
  let rows := insert_rows cpes (delete_ids (old_ids fetchType s) (categorized_cpes s)) in
  filter (of_type fetchType) rows
    = with_ids (next_ID (filter (not_of_type fetchType) (categorized_cpes s))) cpes /\
  filter (not_of_type fetchType) rows = filter (not_of_type fetchType) (categorized_cpes s).
Proof.
  intros Hnd Htag rows. subst rows. rewrite (generation_rows fetchType cpes _ Hnd).
  rewrite !filter_app.
  destruct (others_rows fetchType (categorized_cpes s)) as [E1 E2].
  destruct (tagged_rows fetchType _ (with_ids_tags fetchType
              (next_ID (filter (not_of_type fetchType) (categorized_cpes s))) cpes Htag))
    as [E3 E4].
  rewrite E1, E2, E3, E4. cbn [app]. rewrite app_nil_r. auto.
Qed.

Lemma length_with_ids n rows : length (with_ids n rows) = length rows.
Proof. rewrite <- (length_map forget_id), forget_with_ids, length_map. reflexivity. Qed.

(** X13.  Replacing twice by the same batch is replacing once, up to the
    keys.  With a backend that fails nothing, a store that keeps its primary
    key and a batch without keys whose entries all carry the fetch type, the
    second [InsertCpes] returns no error as well and leaves the entries of
    the first, each with a new key at most. *)
Theorem replace_twice r fetchType cpes w :
  healthy_from_now w ->
  NoDup (map ID (categorized_cpes (store w))) ->
  Forall (fun c => ID c = 0) cpes ->
  Forall (fun c => fetch_type c = fetchType) cpes ->
  no_overflow (len (old_ids fetchType (store w))) 10000 ->
  no_overflow (len cpes) 10000 ->
  no_overflow (len cpes) 2000 ->
  let w1 := snd (RDBDriver.InsertCpes r fetchType cpes w) in
  let w2 := snd (RDBDriver.InsertCpes r fetchType cpes w1) in
  fst (RDBDriver.InsertCpes r fetchType cpes w1) = None /\
  map forget_id (categorized_cpes (store w2)) = map forget_id (categorized_cpes (store w1)) /\
  NoDup (map ID (categorized_cpes (store w2))).
Proof.
  intros Hok Hnd Hz Htag H1 H1' H2 w1 w2. subst w2 w1. unfold RDBDriver.InsertCpes.
  pose proof (healthy_after_replace r fetchType cpes w Hok) as Hok1.
  destruct (healthy_replace r fetchType cpes w Hok) as [_ Hst].
  rewrite committed_store in Hst by assumption.
  set (w1 := snd (RDBDriver.deleteAndInsertCpes r fetchType cpes w)) in *.
  destruct (generation_after fetchType cpes (store w) Hnd Htag) as [G1 G2].
  assert (Hnd1 : NoDup (map ID (categorized_cpes (store w1)))).
  { rewrite Hst. cbn [categorized_cpes with_cpes]. rewrite (generation_rows _ _ _ Hnd).
    change (NoDup (map ID (insert_rows cpes
                     (filter (not_of_type fetchType) (categorized_cpes (store w)))))).
    apply NoDup_ids_insert; [apply NoDup_ids_filter, Hnd|exact Hz]. }
  assert (Hold : len (old_ids fetchType (store w1)) = len cpes).
  { unfold old_ids. rewrite Hst. cbn [categorized_cpes with_cpes].
    change (fun c : CategorizedCpe => String.eqb (fetch_type c) fetchType) with (of_type fetchType).
    rewrite G1. unfold len. rewrite length_map, length_with_ids. reflexivity. }
  assert (H1'' : no_overflow (len (old_ids fetchType (store w1))) 10000)
    by (rewrite Hold; exact H1').
  destruct (healthy_replace r fetchType cpes w1 Hok1) as [Herr Hst2].
  rewrite committed_store in Hst2 by assumption.
  split; [exact Herr|].
  destruct (generation_after fetchType cpes (store w1) Hnd1 Htag) as [_ G3].
  assert (Hrows2 : categorized_cpes (store (snd (RDBDriver.deleteAndInsertCpes r fetchType cpes w1)))
            = filter (not_of_type fetchType) (categorized_cpes (store w))
              ++ with_ids (next_ID (filter (not_of_type fetchType) (categorized_cpes (store w1)))) cpes).
  { rewrite Hst2. cbn [categorized_cpes with_cpes].
    rewrite (generation_rows _ _ _ Hnd1). f_equal.
    rewrite Hst. cbn [categorized_cpes with_cpes]. exact G2. }
  split.
  - rewrite Hrows2. rewrite Hst at 2. cbn [categorized_cpes with_cpes].
    rewrite (generation_rows _ _ _ Hnd), !map_app, !forget_with_ids. reflexivity.
  - rewrite Hst2. cbn [categorized_cpes with_cpes]. rewrite (generation_rows _ _ _ Hnd1).
    change (NoDup (map ID (insert_rows cpes
                     (filter (not_of_type fetchType) (categorized_cpes (store w1)))))).
    apply NoDup_ids_insert; [apply NoDup_ids_filter, Hnd1|exact Hz].
Qed.

Lemma like_chars_refl s : like_chars s s = true.
Proof.
  induction s as [|c s IH]; [reflexivity|].
  destruct (Ascii.eqb c "%") eqn:E1.
  - apply Ascii.eqb_eq in E1. subst c.
    rewrite like_chars_any. cbv iota. rewrite like_chars_any, IH. apply orb_true_r.
  - destruct (Ascii.eqb c "_") eqn:E2.
    + apply Ascii.eqb_eq in E2. subst c. rewrite like_chars_one. exact IH.
    + apply Ascii.eqb_neq in E1, E2.
      rewrite (like_chars_same c s _ E1 E2), Ascii.eqb_refl, IH. reflexivity.
Qed.

Lemma sql_like_itself s : sql_like s s = true.
Proof. unfold sql_like. apply like_chars_refl. Qed.

(** The plain [LIKE] obeys the law: so do the sample worlds. *)
Lemma plain_like_itself w : like w = sql_like -> like_itself w.
Proof. intros E x _. rewrite E. apply sql_like_itself. Qed.

Lemma matches_itself LIKE c :
  LIKE (Vendor c) (Vendor c) = true -> LIKE (Product c) (Product c) = true ->
  matches LIKE (Vendor c) (Product c) c = true.
Proof. intros H1 H2. unfold matches. rewrite H1, H2. reflexivity. Qed.

Lemma delete_loop_like ids ch w :
  like (snd (for_range ch (RDBDriver.delete_chunk ids) w)) = like w.
Proof.
  revert w. induction ch as [|idx ch IH]; intros w; [reflexivity|].
  cbn [for_range]. unfold bind.
  destruct (RDBDriver.delete_chunk ids idx w) as [r0 w1] eqn:E.
  unfold RDBDriver.delete_chunk, tx_Delete, issue, bind, get_store, set_store, ret in E.
  destruct (oracle w (length (log w))) as [f|]; inversion E; subst r0 w1; clear E;
    unfold ret; cbn [fst snd]; [reflexivity|].
  rewrite IH. reflexivity.
Qed.

Lemma insert_loop_like cpes ch w :
  like (snd (for_range ch (RDBDriver.insert_chunk cpes) w)) = like w.
Proof.
  revert w. induction ch as [|idx ch IH]; intros w; [reflexivity|].
  cbn [for_range]. unfold bind.
  destruct (RDBDriver.insert_chunk cpes idx w) as [r0 w1] eqn:E.
  unfold RDBDriver.insert_chunk, tx_Create, bar_Add, issue, bind, get_store, set_store,
    get_bar, set_bar, ret in E.
  destruct (oracle w (length (log w))) as [f|]; inversion E; subst r0 w1; clear E;
    unfold ret; cbn [fst snd]; [reflexivity|].
  rewrite IH. reflexivity.
Qed.

(** A replace leaves the [LIKE] of the backend alone. *)
Lemma deleteAndInsertCpes_like r fetchType cpes w :
  like (snd (RDBDriver.deleteAndInsertCpes r fetchType cpes w)) = like w.
Proof.
  assert (Hchunks : forall result w2,
    like (snd (RDBDriver.deleteAndInsertCpes_chunks result cpes w2)) = like w2).
  { intros result w2. unfold RDBDriver.deleteAndInsertCpes_chunks.
    set (del := if RowsAffected result >? 0
                then for_range (chunkSlice (len (found result)) 10000)
                       (RDBDriver.delete_chunk (found result))
                else ret None).
    assert (Hdel : like (snd (del w2)) = like w2).
    { subst del. destruct (RowsAffected result >? 0); [apply delete_loop_like|reflexivity]. }
    unfold bind at 1. destruct (del w2) as [e1 w3]. cbn [fst snd] in Hdel.
    destruct e1 as [e1|]; [exact Hdel|].
    unfold bind at 1.
    pose proof (insert_loop_like cpes (chunkSlice (len cpes) 2000) w3) as Hins.
    destruct (for_range (chunkSlice (len cpes) 2000) (RDBDriver.insert_chunk cpes) w3)
      as [e2 w4].
    cbn [fst snd] in Hins. destruct e2 as [e2|].
    - unfold ret. cbn [snd]. congruence.
    - unfold bar_Finish, get_bar, set_bar, bind, ret. cbn [fst snd like]. congruence. }
  unfold RDBDriver.deleteAndInsertCpes.
  set (w1 := {| store := store w; snapshot := Some (store w); log := log w ++ [SBegin];
                oracle := oracle w; like := like w;
                bar := {| total := len cpes; current := 0; finished := false |} |}).
  change (like (snd ((err <- RDBDriver.deleteAndInsertCpes_body fetchType cpes ;;
                      match err with Some _ => tx_Rollback | None => tx_Commit end ;; ret err) w1))
          = like w).
  assert (Hbody : like (snd (RDBDriver.deleteAndInsertCpes_body fetchType cpes w1)) = like w).
  { unfold RDBDriver.deleteAndInsertCpes_body. unfold bind at 1.
    rewrite tx_Find_ids_run.
    destruct (oracle w1 (length (log w1))) as [f|]; cbn [Error].
    - rewrite fault_is_not_ErrRecordNotFound. reflexivity.
    - rewrite Hchunks. reflexivity. }
  unfold bind at 1.
  destruct (RDBDriver.deleteAndInsertCpes_body fetchType cpes w1) as [e w2].
  cbn [fst snd] in Hbody.
  destruct e as [e|].
  - unfold tx_Rollback, note, issue, bind, ret, get_snapshot, set_store, set_snapshot.
    cbn [fst snd snapshot].
    destruct (snapshot w2); cbn [fst snd like]; exact Hbody.
  - unfold tx_Commit, note, issue, bind, ret, set_snapshot. cbn [fst snd like]. exact Hbody.
Qed.

Lemma string_pair_eqb_eq (x y : string * string) :
  pair_eqb String.eqb String.eqb x y = true <-> x = y.
Proof.
  destruct x as [a b], y as [c d]. unfold pair_eqb. simpl.
  rewrite andb_true_iff, !String.eqb_eq.
  split; [intros [-> ->]; reflexivity|intros E; inversion E; auto].
Qed.

Lemma In_insert_rows c new rows :
  In c new ->
  exists c', In c' (insert_rows new rows) /\ forget_id c' = forget_id c.
Proof.
  intros Hin. unfold insert_rows.
  assert (H : In (forget_id c) (map forget_id (with_ids (next_ID rows) new))).
  { rewrite forget_with_ids. apply in_map, Hin. }
  apply in_map_iff in H as (c' & E & Hc'). exists c'. split; [|exact E].
  apply in_or_app. right. exact Hc'.
Qed.

(** X14.  What a replace stored, the lookups find.  After [InsertCpes] on a
    backend that fails nothing, every entry [c] of the batch is found under
    its own vendor and product: [GetCpesByVendorProduct] on them returns its
    cpeURI, in the second list when the entry is deprecated and in the first
    when it is not, and [GetVendorProducts] lists its vendor and product.
    The vendor and the product are taken without a backslash, the escape
    character of [LIKE] on two of the three backends; of the [LIKE] of the
    backend this much is used, that a plain value, taken as a pattern,
    matches itself. *)
Theorem replace_then_lookup r fetchType cpes w c :
  healthy_from_now w ->
  like_itself w ->
  no_overflow (len (old_ids fetchType (store w))) 10000 ->
  no_overflow (len cpes) 2000 ->
  In c cpes ->
  plain (Vendor c) ->
  plain (Product c) ->
  let w1 := snd (RDBDriver.InsertCpes r fetchType cpes w) in
  In (CpeURI c)
     (if Deprecated c
      then snd (fst (fst (RDBDriver.GetCpesByVendorProduct r (Vendor c) (Product c) w1)))
      else fst (fst (fst (RDBDriver.GetCpesByVendorProduct r (Vendor c) (Product c) w1)))) /\
  In (RDBDriver.vendor_product (Vendor c, Product c))
     (fst (fst (RDBDriver.GetVendorProducts r w1))).
Proof.
  intros Hok Hlike H1 H2 Hin HV HP w1. subst w1. unfold RDBDriver.InsertCpes.
  pose proof (healthy_after_replace r fetchType cpes w Hok) as Hok1.
  pose proof (deleteAndInsertCpes_like r fetchType cpes w) as Hl1.
  destruct (healthy_replace r fetchType cpes w Hok) as [_ Hst].
  rewrite committed_store in Hst by assumption.
  set (w1 := snd (RDBDriver.deleteAndInsertCpes r fetchType cpes w)) in *.
  destruct (In_insert_rows c cpes
              (delete_ids (old_ids fetchType (store w)) (categorized_cpes (store w))) Hin)
    as (c' & Hc' & E).
  assert (Hstored : In c' (categorized_cpes (store w1))) by (rewrite Hst; exact Hc').
  assert (EV : Vendor c' = Vendor c) by exact (f_equal Vendor E).
  assert (EP : Product c' = Product c) by exact (f_equal Product E).
  assert (EU : CpeURI c' = CpeURI c) by exact (f_equal CpeURI E).
  assert (ED : Deprecated c' = Deprecated c) by exact (f_equal Deprecated E).
  assert (Hnow : oracle w1 (length (log w1)) = None) by (apply Hok1; lia).
  split.
  - rewrite GetCpesByVendorProduct_run, Hnow.
    assert (Hm : exists x, In x (categorized_cpes (store w1)) /\
                   matches (like w1) (Vendor c) (Product c) x = true /\
                   CpeURI x = CpeURI c /\ Deprecated x = Deprecated c).
    { exists c'. split; [exact Hstored|]. split; [|auto].
      rewrite <- EV, <- EP. apply matches_itself; rewrite Hl1; apply Hlike; congruence. }
    destruct (Deprecated c); cbn [fst snd].
    + apply (proj2 (uris_by_flag true (like w1) (Vendor c) (Product c) (store w1))). exact Hm.
    + apply (proj2 (uris_by_flag false (like w1) (Vendor c) (Product c) (store w1))). exact Hm.
  - rewrite GetVendorProducts_run, Hnow. cbn [fst]. apply in_map.
    rewrite (In_distinct _ string_pair_eqb_eq). apply in_map_iff.
    exists c'. split; [|exact Hstored]. rewrite EV, EP. reflexivity.
Qed.

Lemma chunkSlice_length N S :
  0 <= N -> 1 <= S -> no_overflow N S ->
  Z.of_nat (length (chunkSlice N S)) = (N + S - 1) / S.
Proof.
  intros HN HS Hfit.
  destruct (chunk_loop_closes N S HN HS Hfit) as (_ & Hc & Hf).
  pose proof (chain_count 0 _ N S HS Hc Hf) as H. unfold len in H.
  rewrite H. f_equal. lia.
Qed.

(** X15.  What a replace costs.  Between its [Begin] and its [Commit] or
    [Rollback], [deleteAndInsertCpes] makes one select, at most one delete
    for every 10000 old ids and at most one insert for every 2000 entries of
    the batch, both rounded up, whatever the backend does; when it returns
    no error it has made exactly that many calls. *)
Theorem replace_statement_count r fetchType cpes w :
  no_overflow (len (old_ids fetchType (store w))) 10000 ->
  no_overflow (len cpes) 2000 ->
  let most := 3 + (len (old_ids fetchType (store w)) + 9999) / 10000
                + (len cpes + 1999) / 2000 in
  let made := len (log (snd (RDBDriver.deleteAndInsertCpes r fetchType cpes w)))
              - len (log w) in
  3 <= made <= most /\
  (fst (RDBDriver.deleteAndInsertCpes r fetchType cpes w) = None -> made = most).
Proof.
  intros H1 H2 most made. subst most made.
  pose proof (chunkSlice_length (len (old_ids fetchType (store w))) 10000
                ltac:(unfold len; lia) ltac:(lia) H1) as L1.
  pose proof (chunkSlice_length (len cpes) 2000 ltac:(unfold len; lia) ltac:(lia) H2) as L2.
  replace (len (old_ids fetchType (store w)) + 10000 - 1)
    with (len (old_ids fetchType (store w)) + 9999) in L1 by lia.
  replace (len cpes + 2000 - 1) with (len cpes + 1999) in L2 by lia.
  rewrite <- L1, <- L2.
  destruct (deleteAndInsertCpes_run r fetchType cpes w)
    as [f w' Hsel Hlog Hst
       |k f w' oldIDs dels Hsel Hk Hsucc Hor Hlog Hst
       |k f w' oldIDs dels inss Hsel Hsucc1 Hk Hsucc Hor Hlog Hst
       |w' oldIDs dels inss Hsel Hsucc1 Hsucc2 Hlog Hst];
    rewrite Hlog; unfold len in *;
    repeat (rewrite ?length_app, ?length_map, ?length_firstn; cbn [length]).
  - split; [lia|discriminate].
  - subst dels oldIDs. unfold len in *. split; [lia|discriminate].
  - subst inss dels oldIDs. unfold len in *. split; [lia|discriminate].
  - subst inss dels oldIDs. unfold len in *. split; [lia|intros _; lia].
Qed.

Lemma sample_healthy s : healthy_from_now (Sample.world s Sample.healthy).
Proof. intros p _. reflexivity. Qed.

Lemma sample_key : NoDup (map ID (categorized_cpes Sample.migrated)).
Proof.
  cbn. repeat constructor; cbn; intuition discriminate.
Qed.

Lemma replace_as_one_delete_one_insert_witness :
  let w := Sample.world Sample.migrated Sample.healthy in
  (healthy_from_now w /\
   no_overflow (len (old_ids "nvd" (store w))) 10000 /\
   no_overflow (len [Sample.cpe_new]) 2000) /\
  fst (RDBDriver.deleteAndInsertCpes Sample.sqlite "nvd" [Sample.cpe_new] w) = None /\
  store (snd (RDBDriver.deleteAndInsertCpes Sample.sqlite "nvd" [Sample.cpe_new] w))
    = with_cpes (store w)
        (insert_rows [Sample.cpe_new]
           (delete_ids (old_ids "nvd" (store w)) (categorized_cpes (store w)))).
Proof.
  intros w.
  assert (H0 : healthy_from_now w) by apply sample_healthy.
  assert (H1 : no_overflow (len (old_ids "nvd" (store w))) 10000) by (vm_compute; discriminate).
  assert (H2 : no_overflow (len [Sample.cpe_new]) 2000) by (vm_compute; discriminate).
  split; [auto|].
  exact (replace_as_one_delete_one_insert Sample.sqlite "nvd" [Sample.cpe_new] w H0 H1 H2).
Defined.

Lemma replace_swaps_generation_witness :
  let w := Sample.world Sample.migrated Sample.healthy in
  let after := categorized_cpes
                 (store (snd (RDBDriver.InsertCpes Sample.sqlite "nvd" [Sample.cpe_new] w))) in
  (healthy_from_now w /\
   NoDup (map ID (categorized_cpes (store w))) /\
   no_overflow (len (old_ids "nvd" (store w))) 10000 /\
   no_overflow (len [Sample.cpe_new]) 2000 /\
   Forall (fun c => fetch_type c = "nvd") [Sample.cpe_new]) /\
  map forget_id (filter (of_type "nvd") after) = map forget_id [Sample.cpe_new] /\
  len (filter (of_type "nvd") after) = len [Sample.cpe_new] /\
  filter (not_of_type "nvd") after = filter (not_of_type "nvd") (categorized_cpes (store w)).
Proof.
  intros w after. subst after.
  assert (H0 : healthy_from_now w) by apply sample_healthy.
  assert (Hk : NoDup (map ID (categorized_cpes (store w)))) by apply sample_key.
  assert (H1 : no_overflow (len (old_ids "nvd" (store w))) 10000) by (vm_compute; discriminate).
  assert (H2 : no_overflow (len [Sample.cpe_new]) 2000) by (vm_compute; discriminate).
  assert (Ht : Forall (fun c => fetch_type c = "nvd") [Sample.cpe_new])
    by (repeat constructor).
  split; [auto 6|].
  exact (replace_swaps_generation Sample.sqlite "nvd" [Sample.cpe_new] w H0 Hk H1 H2 Ht).
Defined.

Lemma replace_keeps_primary_key_witness :
  let w := Sample.world Sample.migrated (Sample.fails_at 3 (fault_other "disk full")) in
  (NoDup (map ID (categorized_cpes (store w))) /\
   Forall (fun c => ID c = 0) [Sample.cpe_new] /\
   no_overflow (len (old_ids "nvd" (store w))) 10000 /\
   no_overflow (len [Sample.cpe_new]) 2000) /\
  NoDup (map ID (categorized_cpes
                   (store (snd (RDBDriver.deleteAndInsertCpes Sample.sqlite "nvd"
                                  [Sample.cpe_new] w))))).
Proof.
  intros w.
  assert (Hk : NoDup (map ID (categorized_cpes (store w)))) by apply sample_key.
  assert (Hz : Forall (fun c => ID c = 0) [Sample.cpe_new]) by (repeat constructor).
  assert (H1 : no_overflow (len (old_ids "nvd" (store w))) 10000) by (vm_compute; discriminate).
  assert (H2 : no_overflow (len [Sample.cpe_new]) 2000) by (vm_compute; discriminate).
  split; [auto|].
  exact (replace_keeps_primary_key Sample.sqlite "nvd" [Sample.cpe_new] w Hk Hz H1 H2).
Defined.

Lemma replace_twice_witness :
  let w := Sample.world Sample.migrated Sample.healthy in
  let w1 := snd (RDBDriver.InsertCpes Sample.sqlite "nvd" [Sample.cpe_new] w) in
  let w2 := snd (RDBDriver.InsertCpes Sample.sqlite "nvd" [Sample.cpe_new] w1) in
  (healthy_from_now w /\
   NoDup (map ID (categorized_cpes (store w))) /\
   Forall (fun c => ID c = 0) [Sample.cpe_new] /\
   Forall (fun c => fetch_type c = "nvd") [Sample.cpe_new] /\
   no_overflow (len (old_ids "nvd" (store w))) 10000 /\
   no_overflow (len [Sample.cpe_new]) 10000 /\
   no_overflow (len [Sample.cpe_new]) 2000) /\
  fst (RDBDriver.InsertCpes Sample.sqlite "nvd" [Sample.cpe_new] w1) = None /\
  map forget_id (categorized_cpes (store w2)) = map forget_id (categorized_cpes (store w1)) /\
  NoDup (map ID (categorized_cpes (store w2))).
Proof.
  intros w w1 w2. subst w2 w1.
  assert (H0 : healthy_from_now w) by apply sample_healthy.
  assert (Hk : NoDup (map ID (categorized_cpes (store w)))) by apply sample_key.
  assert (Hz : Forall (fun c => ID c = 0) [Sample.cpe_new]) by (repeat constructor).
  assert (Ht : Forall (fun c => fetch_type c = "nvd") [Sample.cpe_new])
    by (repeat constructor).
  assert (H1 : no_overflow (len (old_ids "nvd" (store w))) 10000) by (vm_compute; discriminate).
  assert (H1' : no_overflow (len [Sample.cpe_new]) 10000) by (vm_compute; discriminate).
  assert (H2 : no_overflow (len [Sample.cpe_new]) 2000) by (vm_compute; discriminate).
  split; [auto 8|].
  exact (replace_twice Sample.sqlite "nvd" [Sample.cpe_new] w H0 Hk Hz Ht H1 H1' H2).
Defined.

Lemma replace_then_lookup_witness :
  let w := Sample.world Sample.migrated Sample.healthy in
  let w1 := snd (RDBDriver.InsertCpes Sample.sqlite "nvd" [Sample.cpe_new] w) in
  (healthy_from_now w /\
   like_itself w /\
   no_overflow (len (old_ids "nvd" (store w))) 10000 /\
   no_overflow (len [Sample.cpe_new]) 2000 /\
   In Sample.cpe_new [Sample.cpe_new] /\
   plain (Vendor Sample.cpe_new) /\
   plain (Product Sample.cpe_new)) /\
  In "cpe:/a:x:y:z" (fst (fst (fst (RDBDriver.GetCpesByVendorProduct Sample.sqlite "x" "y" w1)))) /\
  In "x::y" (fst (fst (RDBDriver.GetVendorProducts Sample.sqlite w1))).
Proof.
  intros w w1. subst w1.
  assert (H0 : healthy_from_now w) by apply sample_healthy.
  assert (H1 : no_overflow (len (old_ids "nvd" (store w))) 10000) by (vm_compute; discriminate).
  assert (H2 : no_overflow (len [Sample.cpe_new]) 2000) by (vm_compute; discriminate).
  assert (Hin : In Sample.cpe_new [Sample.cpe_new]) by (left; reflexivity).
  assert (Hv : plain (Vendor Sample.cpe_new))
    by (unfold plain; cbn; intuition discriminate).
  assert (Hp : plain (Product Sample.cpe_new))
    by (unfold plain; cbn; intuition discriminate).
  assert (Hl : like_itself w) by (apply plain_like_itself; reflexivity).
  split; [auto 9|].
  exact (replace_then_lookup Sample.sqlite "nvd" [Sample.cpe_new] w Sample.cpe_new
           H0 Hl H1 H2 Hin Hv Hp).
Defined.

Lemma replace_statement_count_witness :
  let w := Sample.world Sample.migrated Sample.healthy in
  (no_overflow (len (old_ids "nvd" (store w))) 10000 /\
   no_overflow (len [Sample.cpe_new]) 2000) /\
  len (log (snd (RDBDriver.deleteAndInsertCpes Sample.sqlite "nvd" [Sample.cpe_new] w)))
    - len (log w) = 5.
Proof.
  intros w.
  assert (H1 : no_overflow (len (old_ids "nvd" (store w))) 10000) by (vm_compute; discriminate).
  assert (H2 : no_overflow (len [Sample.cpe_new]) 2000) by (vm_compute; discriminate).
  split; [auto|].
  exact (proj2 (replace_statement_count Sample.sqlite "nvd" [Sample.cpe_new] w H1 H2)
           eq_refl).
Defined.

End ReplaceFurther.

(** ** The progress bar of a replace *)

Section Progress.

Local Arguments chunkSlice : simpl never.

Lemma delete_loop_bar ids ch w :
  bar (snd (for_range ch (RDBDriver.delete_chunk ids) w)) = bar w.
Proof.
  revert w. induction ch as [|idx ch IH]; intros w; [reflexivity|].
  cbn [for_range]. unfold bind at 1.
  unfold RDBDriver.delete_chunk at 1, tx_Delete, issue, bind, get_store, set_store, ret.
  destruct (oracle w (length (log w))) as [f|]; cbn [fst snd]; [reflexivity|].
  rewrite IH. reflexivity.
Qed.

Lemma insert_loop_bar cpes ch :
  forall a b w, chain a ch b -> 0 <= a -> b <= max_int ->
    let run := for_range ch (RDBDriver.insert_chunk cpes) w in
    total (bar (snd run)) = total (bar w) /\
    finished (bar (snd run)) = finished (bar w) /\
    match fst run with
    | None => current (bar (snd run)) = current (bar w) + (b - a)
    | Some _ => current (bar w) <= current (bar (snd run)) <= current (bar w) + (b - a)
    end.
Proof.
  induction ch as [|idx ch IH]; intros a b w Hc Ha Hb run; subst run.
  - simpl in Hc. subst b. cbn. repeat split; lia.
  - simpl in Hc. destruct Hc as (H1 & H2 & H3).
    pose proof (chain_le _ _ _ H3) as Hle.
    cbn [for_range]. unfold bind.
    destruct (RDBDriver.insert_chunk cpes idx w) as [r0 w1] eqn:E.
    unfold RDBDriver.insert_chunk, tx_Create, bar_Add, issue, bind, get_store, set_store,
      get_bar, set_bar, ret in E. cbn [fst snd bar total current finished] in E.
    destruct (oracle w (length (log w))) as [f|]; inversion E; subst r0 w1; clear E;
      unfold ret; cbn [fst snd bar total current finished].
    + repeat split; lia.
    + rewrite int_sub_small by (unfold is_int, min_int, max_int in *; lia).
      match goal with
      | |- context [for_range ch _ ?w1] =>
          destruct (IH (To idx) b w1 H3 ltac:(lia) Hb) as (Ht & Hf & Hcur)
      end.
      cbn [bar total current finished] in Ht, Hf, Hcur.
      split; [exact Ht|]. split; [exact Hf|].
      destruct (fst (for_range ch (RDBDriver.insert_chunk cpes) _)); lia.
Qed.

(** X16.  The progress bar counts the entries stored.  [deleteAndInsertCpes]
    starts a bar whose total is the size of the batch.  When it returns no
    error the bar is finished and stands at its total; when it returns an
    error the bar is left unfinished, somewhere between zero and its
    total. *)
Theorem replace_progress r fetchType cpes w :
  no_overflow (len cpes) 2000 ->
  progress_of (len cpes) (RDBDriver.deleteAndInsertCpes r fetchType cpes w).
Proof.
  intros Hfit.
  destruct (chunk_loop_closes (len cpes) 2000 ltac:(unfold len; lia) ltac:(lia) Hfit)
    as (_ & Hchain & _).
  assert (Hmax : len cpes <= max_int).
  { unfold no_overflow in Hfit.
    pose proof (Z.mod_pos_bound (len cpes + 2000 - 1) 2000 ltac:(lia)).
    pose proof (Z.div_mod (len cpes + 2000 - 1) 2000 ltac:(lia)). lia. }
  assert (Hlen : 0 <= len cpes) by (unfold len; lia).
  assert (Hchunks : forall result w2,
    bar w2 = {| total := len cpes; current := 0; finished := false |} ->
    progress_of (len cpes) (RDBDriver.deleteAndInsertCpes_chunks result cpes w2)).
  { intros result w2 Hbar. unfold RDBDriver.deleteAndInsertCpes_chunks.
    set (del := if RowsAffected result >? 0
                then for_range (chunkSlice (len (found result)) 10000)
                       (RDBDriver.delete_chunk (found result))
                else ret None).
    assert (Hdel : bar (snd (del w2)) = bar w2).
    { subst del. destruct (RowsAffected result >? 0); [apply delete_loop_bar|reflexivity]. }
    unfold bind at 1. destruct (del w2) as [e1 w3]. cbn [fst snd] in Hdel.
    destruct e1 as [e1|].
    - unfold ret, progress_of. cbn [fst snd]. rewrite Hdel, Hbar. cbn. repeat split; lia.
    - unfold bind at 1.
      destruct (insert_loop_bar cpes _ 0 (len cpes) w3 Hchain ltac:(lia) Hmax)
        as (Ht & Hf & Hcur).
      rewrite Hdel, Hbar in Ht, Hf, Hcur. cbn [total current finished] in Ht, Hf, Hcur.
      destruct (for_range (chunkSlice (len cpes) 2000) (RDBDriver.insert_chunk cpes) w3)
        as [e2 w4].
      cbn [fst snd] in Ht, Hf, Hcur. destruct e2 as [e2|].
      + unfold ret, progress_of. cbn [fst snd]. repeat split; try lia; assumption.
      + unfold bar_Finish, get_bar, set_bar, bind, ret, progress_of.
        cbn [fst snd bar total current finished]. repeat split; try lia; assumption. }
  unfold RDBDriver.deleteAndInsertCpes.
  set (w1 := {| store := store w; snapshot := Some (store w); log := log w ++ [SBegin];
                oracle := oracle w; like := like w;
                bar := {| total := len cpes; current := 0; finished := false |} |}).
  change (progress_of (len cpes)
            ((err <- RDBDriver.deleteAndInsertCpes_body fetchType cpes ;;
              match err with Some _ => tx_Rollback | None => tx_Commit end ;; ret err) w1)).
  assert (Hbody : progress_of (len cpes) (RDBDriver.deleteAndInsertCpes_body fetchType cpes w1)).
  { unfold RDBDriver.deleteAndInsertCpes_body. unfold bind at 1.
    rewrite tx_Find_ids_run.
    destruct (oracle w1 (length (log w1))) as [f|]; cbn [Error].
    - rewrite fault_is_not_ErrRecordNotFound. cbn [negb]. unfold ret, progress_of. cbn.
      repeat split; lia.
    - apply Hchunks. reflexivity. }
  unfold bind at 1.
  destruct (RDBDriver.deleteAndInsertCpes_body fetchType cpes w1) as [e w2].
  unfold progress_of in *. cbn [fst snd] in Hbody.
  destruct e as [e|].
  - unfold tx_Rollback, note, issue, bind, ret, get_snapshot, set_store, set_snapshot.
    cbn [fst snd snapshot].
    destruct (snapshot w2); cbn [fst snd bar]; exact Hbody.
  - unfold tx_Commit, note, issue, bind, ret, set_snapshot. cbn [fst snd bar]. exact Hbody.
Qed.

Lemma replace_progress_witness :
  let w := Sample.world Sample.migrated (Sample.fails_at 2 (fault_other "disk full")) in
  no_overflow (len [Sample.cpe_new; Sample.cpe_new]) 2000 /\
  progress_of 2 (RDBDriver.deleteAndInsertCpes Sample.sqlite "nvd"
                   [Sample.cpe_new; Sample.cpe_new] w) /\
  bar (snd (RDBDriver.deleteAndInsertCpes Sample.sqlite "nvd"
              [Sample.cpe_new; Sample.cpe_new] (Sample.world Sample.migrated Sample.healthy)))
    = {| total := 2; current := 2; finished := true |}.
Proof.
  intros w.
  assert (H : no_overflow (len [Sample.cpe_new; Sample.cpe_new]) 2000)
    by (vm_compute; discriminate).
  split; [exact H|]. split; [|reflexivity].
  exact (replace_progress Sample.sqlite "nvd" [Sample.cpe_new; Sample.cpe_new] w H).
Defined.

End Progress.

(** ** The lookups, further *)

Section LookupsFurther.

Lemma like_chars_wildcard s : like_chars ["%"%char] s = true.
Proof.
  induction s as [|c s IH]; [reflexivity|].
  rewrite like_chars_any, IH. apply orb_true_r.
Qed.

(** The plain [LIKE] obeys the law: so do the sample worlds. *)
Lemma plain_like_any w : like w = sql_like -> like_any w.
Proof.
  intros E x. rewrite E. unfold sql_like. cbn [list_ascii_of_string].
  apply like_chars_wildcard.
Qed.

Lemma matches_wildcard w c : like_any w -> matches (like w) "%" "%" c = true.
Proof. intros H. unfold matches. rewrite !H. reflexivity. Qed.

Lemma GetCpesByVendorProduct_world r vendor product w :
  snd (RDBDriver.GetCpesByVendorProduct r vendor product w)
  = logged w (SFindCpes "vendor LIKE ? and product LIKE ?" vendor product).
Proof.
  unfold RDBDriver.GetCpesByVendorProduct, conn_Find_cpes, issue, bind, get_store, get_like, ret.
  destruct (oracle w (length (log w))) as [f|]; cbn [fst snd].
  - rewrite fault_is_not_ErrRecordNotFound. reflexivity.
  - destruct (RDBDriver.partition_cpes _ [] []). reflexivity.
Qed.

(** X17.  [GetCpesByVendorProduct] never returns an error and never
    writes: whatever the patterns and whatever the backend does, its third
    result is nil, the world it leaves differs from the one it found by the
    one query in the log, and every cpeURI in its two lists is the cpeURI
    of a stored entry. *)
Theorem GetCpesByVendorProduct_total r vendor product w :
  snd (fst (RDBDriver.GetCpesByVendorProduct r vendor product w)) = None /\
  snd (RDBDriver.GetCpesByVendorProduct r vendor product w)
    = logged w (SFindCpes "vendor LIKE ? and product LIKE ?" vendor product) /\
  forall u,
    In u (fst (fst (fst (RDBDriver.GetCpesByVendorProduct r vendor product w)))
          ++ snd (fst (fst (RDBDriver.GetCpesByVendorProduct r vendor product w)))) ->
    exists c, In c (categorized_cpes (store w)) /\ CpeURI c = u.
Proof.
  split; [|split; [apply GetCpesByVendorProduct_world|]].
  - rewrite GetCpesByVendorProduct_run. destruct (oracle w (length (log w))); reflexivity.
  - intros u. rewrite GetCpesByVendorProduct_run.
    destruct (oracle w (length (log w))) as [f|]; cbn [fst snd app]; [intros []|].
    intros H. apply in_app_or in H as [H|H].
    + apply (proj2 (uris_by_flag false (like w) vendor product (store w))) in H
        as (c & Hin & _ & E & _). exists c. auto.
    + apply (proj2 (uris_by_flag true (like w) vendor product (store w))) in H
        as (c & Hin & _ & E & _). exists c. auto.
Qed.

Lemma GetCpesByVendorProduct_total_witness :
  let w := Sample.world Sample.migrated Sample.healthy in
  In "cpe:/a:v:p:a"
     (fst (fst (fst (RDBDriver.GetCpesByVendorProduct Sample.sqlite "v" "p" w)))
      ++ snd (fst (fst (RDBDriver.GetCpesByVendorProduct Sample.sqlite "v" "p" w)))) /\
  exists c, In c (categorized_cpes (store w)) /\ CpeURI c = "cpe:/a:v:p:a".
Proof.
  intros w.
  split; [left; reflexivity|].
  apply (proj2 (proj2 (GetCpesByVendorProduct_total Sample.sqlite "v" "p" w))).
  left. reflexivity.
Defined.

(** X18.  The patterns are handed to [LIKE] as they are, so a lookup with
    the pattern [%] for the vendor and for the product lists the whole
    store: when the backend answers the query, the cpeURI of every stored
    entry is returned, in the second list when the entry is deprecated and
    in the first when it is not.  Of the [LIKE] of the backend this much is
    used, that the pattern [%] matches every value. *)
Theorem GetCpesByVendorProduct_wildcard r w c :
  oracle w (length (log w)) = None ->
  like_any w ->
  In c (categorized_cpes (store w)) ->
  In (CpeURI c)
     (if Deprecated c
      then snd (fst (fst (RDBDriver.GetCpesByVendorProduct r "%" "%" w)))
      else fst (fst (fst (RDBDriver.GetCpesByVendorProduct r "%" "%" w)))).
Proof.
  intros Hok Hany Hin. rewrite GetCpesByVendorProduct_run, Hok.
  assert (Hm : exists x, In x (categorized_cpes (store w)) /\
                 matches (like w) "%" "%" x = true /\
                 CpeURI x = CpeURI c /\ Deprecated x = Deprecated c).
  { exists c. split; [exact Hin|]. split; [apply matches_wildcard, Hany|auto]. }
  destruct (Deprecated c); cbn [fst snd].
  - apply (proj2 (uris_by_flag true (like w) "%" "%" (store w))). exact Hm.
  - apply (proj2 (uris_by_flag false (like w) "%" "%" (store w))). exact Hm.
Qed.

Lemma GetCpesByVendorProduct_wildcard_witness :
  let w := Sample.world Sample.migrated Sample.healthy in
  (oracle w (length (log w)) = None /\ like_any w /\
   In Sample.cpe_b (categorized_cpes (store w))) /\
  In "cpe:/a:v:p:b" (snd (fst (fst (RDBDriver.GetCpesByVendorProduct Sample.sqlite "%" "%" w)))).
Proof.
  intros w.
  assert (H0 : oracle w (length (log w)) = None) by reflexivity.
  assert (Ha : like_any w) by (apply plain_like_any; reflexivity).
  assert (H1 : In Sample.cpe_b (categorized_cpes (store w))) by (right; left; reflexivity).
  split; [auto|].
  exact (GetCpesByVendorProduct_wildcard Sample.sqlite w Sample.cpe_b H0 Ha H1).
Defined.

Lemma length_filter_le {A : Type} (p : A -> bool) (l : list A) :
  (length (filter p l) <= length l)%nat.
Proof.
  induction l as [|x l IH]; cbn [filter length]; [lia|].
  destruct (p x); cbn [length]; lia.
Qed.

Lemma length_distinct {A : Type} (eqb : A -> A -> bool) (l : list A) :
  (length (distinct eqb l) <= length l)%nat.
Proof.
  induction l as [|x l IH]; cbn [distinct length]; [lia|].
  pose proof (length_filter_le (fun y => negb (eqb x y)) (distinct eqb l)). lia.
Qed.

(** X19.  [GetVendorProducts] reads and does not write: the world it
    leaves differs from the one it found by the one query in the log.  An
    error of the backend is returned as it is, with an empty list, never
    under the message [Failed to select results].  When the backend answers,
    no error is returned and the list holds the strings [vendor::product]
    of the stored entries: a string is listed exactly when some stored entry
    has that vendor and product, and the list is no longer than the store. *)
Theorem GetVendorProducts_lists r w :
  snd (RDBDriver.GetVendorProducts r w) = logged w SFindVendorProducts /\
  snd (fst (RDBDriver.GetVendorProducts r w))
    = option_map fault_error (oracle w (length (log w))) /\
  (forall f, oracle w (length (log w)) = Some f ->
     fst (fst (RDBDriver.GetVendorProducts r w)) = []) /\
  (oracle w (length (log w)) = None ->
     (forall s, In s (fst (fst (RDBDriver.GetVendorProducts r w))) <->
        exists c, In c (categorized_cpes (store w)) /\
                  s = String.append (Vendor c) (String.append "::" (Product c))) /\
     (length (fst (fst (RDBDriver.GetVendorProducts r w)))
      <= length (categorized_cpes (store w)))%nat).
Proof.
  split.
  { unfold RDBDriver.GetVendorProducts, conn_Find_vendor_product, issue, bind, get_store, ret.
    destruct (oracle w (length (log w))) as [f|]; cbn [fst snd].
    - rewrite fault_is_not_ErrRecordNotFound. reflexivity.
    - reflexivity. }
  rewrite GetVendorProducts_run.
  destruct (oracle w (length (log w))) as [f|]; cbn [fst snd option_map].
  - split; [reflexivity|]. split; [reflexivity|discriminate].
  - split; [reflexivity|]. split; [discriminate|]. intros _. split.
    + intros s. rewrite in_map_iff. split.
      * intros ([v p] & E & H). rewrite (In_distinct _ string_pair_eqb_eq) in H.
        apply in_map_iff in H as (c & Ec & Hc). inversion Ec; subst.
        exists c. split; [exact Hc|reflexivity].
      * intros (c & Hc & ->). exists (Vendor c, Product c). split; [reflexivity|].
        rewrite (In_distinct _ string_pair_eqb_eq). apply in_map_iff. exists c. auto.
    + rewrite length_map.
      etransitivity; [apply length_distinct|]. rewrite length_map. lia.
Qed.

Lemma GetVendorProducts_lists_witness :
  let w := Sample.world Sample.migrated Sample.healthy in
  oracle w (length (log w)) = None /\
  (In "w::q" (fst (fst (RDBDriver.GetVendorProducts Sample.sqlite w))) <->
   exists c, In c (categorized_cpes (store w)) /\
             "w::q" = String.append (Vendor c) (String.append "::" (Product c))) /\
  (length (fst (fst (RDBDriver.GetVendorProducts Sample.sqlite w)))
   <= length (categorized_cpes (store w)))%nat.
Proof.
  intros w.
  assert (H : oracle w (length (log w)) = None) by reflexivity.
  split; [exact H|].
  destruct (proj2 (proj2 (proj2 (GetVendorProducts_lists Sample.sqlite w))) H) as [H1 H2].
  split; [apply H1|exact H2].
Defined.

End LookupsFurther.

(** ** The metadata record, further *)

Section MetadataFurther.

Variable config_Revision : string.
Variable models_LatestSchemaVersion : Z.

Lemma GetFetchMeta_world r w :
  snd (RDBDriver.GetFetchMeta config_Revision models_LatestSchemaVersion r w) = logged w STake.
Proof.
  unfold RDBDriver.GetFetchMeta, conn_Take, issue, bind, get_store, ret.
  destruct (oracle w (length (log w))) as [f|]; cbn [fst snd store].
  - rewrite fault_is_not_ErrRecordNotFound. reflexivity.
  - destruct (fetch_metas (store w)); reflexivity.
Qed.

Lemma GetFetchMeta_value r w :
  oracle w (length (log w)) = None ->
  fst (RDBDriver.GetFetchMeta config_Revision models_LatestSchemaVersion r w)
  = (Some (match fetch_metas (store w) with
           | [] => fresh_with config_Revision models_LatestSchemaVersion
           | m :: _ => m
           end), None).
Proof.
  intros Hok.
  unfold RDBDriver.GetFetchMeta, conn_Take, issue, bind, get_store, ret. rewrite Hok.
  cbn [fst snd store]. destruct (fetch_metas (store w)); reflexivity.
Qed.

Lemma UpsertFetchMeta_run r m w :
  oracle w (length (log w)) = None ->
  RDBDriver.UpsertFetchMeta config_Revision models_LatestSchemaVersion r m w
  = (keyed (stamped_with config_Revision models_LatestSchemaVersion m) (fetch_metas (store w)),
     None,
     {| store := {| database := database (store w); tables := tables (store w);
                    fetch_metas := save_row (stamped_with config_Revision
                                               models_LatestSchemaVersion m)
                                     (fetch_metas (store w));
                    categorized_cpes := categorized_cpes (store w) |};
        snapshot := snapshot w;
        log := log w ++ [SSave (stamped_with config_Revision models_LatestSchemaVersion m)];
        oracle := oracle w; like := like w; bar := bar w |}).
Proof.
  intros Hok.
  unfold RDBDriver.UpsertFetchMeta, conn_Save, issue, bind, get_store, set_store, ret.
  rewrite Hok. reflexivity.
Qed.

(** Saving a record that carries the key of the first stored row updates
    that row in place. *)
Lemma save_row_first m m0 ms :
  MetaID m = MetaID m0 -> MetaID m0 <> 0 ->
  exists ms', save_row m (m0 :: ms) = m :: ms' /\ length ms' = length ms.
Proof.
  intros E Hne. unfold save_row. rewrite E.
  destruct (MetaID m0 =? 0) eqn:E0; [apply Z.eqb_eq in E0; contradiction|].
  cbn [existsb]. rewrite Z.eqb_refl. cbn [orb map]. rewrite Z.eqb_refl.
  eexists. split; [reflexivity|]. apply length_map.
Qed.

(** X20.  The metadata record round trip.  On a backend that fails nothing
    and a store whose records have keys other than zero: the record that
    [GetFetchMeta] returns, given a new fetch time [t] and handed to
    [UpsertFetchMeta], is what the next [GetFetchMeta] returns, with fetch
    time [t] and with the revision and schema version of the build.  A store
    without a record holds one afterwards; a store with records holds as
    many as before; the entries and the catalogue are as before. *)
Theorem fetch_meta_round_trip r w t :
  healthy_from_now w ->
  Forall (fun m => MetaID m <> 0) (fetch_metas (store w)) ->
  exists m0 m1,
    fst (RDBDriver.GetFetchMeta config_Revision models_LatestSchemaVersion r w)
      = (Some m0, None) /\
    let w1 := snd (RDBDriver.GetFetchMeta config_Revision models_LatestSchemaVersion r w) in
    let w2 := snd (RDBDriver.UpsertFetchMeta config_Revision models_LatestSchemaVersion r
                     (fetched_at t m0) w1) in
    snd (fst (RDBDriver.UpsertFetchMeta config_Revision models_LatestSchemaVersion r
                (fetched_at t m0) w1)) = None /\
    fst (RDBDriver.GetFetchMeta config_Revision models_LatestSchemaVersion r w2)
      = (Some m1, None) /\
    GoCPEDictRevision m1 = config_Revision /\
    SchemaVersion m1 = models_LatestSchemaVersion /\
    LastFetchedAt m1 = t /\
    length (fetch_metas (store w2)) = Nat.max 1 (length (fetch_metas (store w))) /\
    categorized_cpes (store w2) = categorized_cpes (store w) /\
    tables (store w2) = tables (store w).
Proof.
  intros Hok Hkeys.
  assert (H0 : oracle w (length (log w)) = None) by (apply Hok; lia).
  assert (H1 : oracle (logged w STake) (length (log (logged w STake))) = None).
  { cbn [logged oracle log]. apply Hok. rewrite length_app. lia. }
  pose proof (GetFetchMeta_value r w H0) as G0.
  pose proof (GetFetchMeta_world r w) as W0.
  set (m0 := match fetch_metas (store w) with
             | [] => fresh_with config_Revision models_LatestSchemaVersion
             | m :: _ => m
             end) in *.
  pose proof (UpsertFetchMeta_run r (fetched_at t m0) (logged w STake) H1) as U.
  set (m1 := stamped_with config_Revision models_LatestSchemaVersion (fetched_at t m0)) in *.
  assert (Hsave : exists k ms',
            save_row m1 (fetch_metas (store w))
              = {| MetaID := k; GoCPEDictRevision := config_Revision;
                   SchemaVersion := models_LatestSchemaVersion; LastFetchedAt := t |} :: ms' /\
            length (save_row m1 (fetch_metas (store w)))
              = Nat.max 1 (length (fetch_metas (store w)))).
  { subst m1 m0. destruct (fetch_metas (store w)) as [|m ms] eqn:Ems.
    - eexists _, []. split; reflexivity.
    - inversion Hkeys as [|? ? Hm _]; subst.
      destruct (save_row_first
                  (stamped_with config_Revision models_LatestSchemaVersion (fetched_at t m))
                  m ms eq_refl Hm) as (ms' & Es & El).
      exists (MetaID m), ms'. split; [exact Es|].
      rewrite Es. cbn [length]. rewrite El. lia. }
  destruct Hsave as (k & ms' & Es & El).
  exists m0, {| MetaID := k; GoCPEDictRevision := config_Revision;
                SchemaVersion := models_LatestSchemaVersion; LastFetchedAt := t |}.
  split; [exact G0|]. cbv zeta. rewrite W0, U. cbn [fst snd].
  split; [reflexivity|].
  split.
  - rewrite GetFetchMeta_value.
    + cbn [store fetch_metas logged]. rewrite Es. reflexivity.
    + cbn [oracle log logged]. apply Hok. rewrite !length_app. cbn [length]. lia.
  - cbn [store fetch_metas categorized_cpes tables logged].
    repeat split; try reflexivity. exact El.
Qed.

(** X21.  [GetFetchMeta] reads and does not write.  Whatever the backend
    does, the world it leaves differs from the one it found by the one
    query in the log: the record it makes up for a store without one is not
    stored.  So, asked again with the backend still answering, it returns
    what it returned before. *)
Theorem GetFetchMeta_reads r w :
  snd (RDBDriver.GetFetchMeta config_Revision models_LatestSchemaVersion r w) = logged w STake /\
  (oracle w (length (log w)) = None -> oracle w (S (length (log w))) = None ->
   fst (RDBDriver.GetFetchMeta config_Revision models_LatestSchemaVersion r
          (snd (RDBDriver.GetFetchMeta config_Revision models_LatestSchemaVersion r w)))
   = fst (RDBDriver.GetFetchMeta config_Revision models_LatestSchemaVersion r w)).
Proof.
  split; [apply GetFetchMeta_world|].
  intros H0 H1. rewrite GetFetchMeta_world, !GetFetchMeta_value.
  - reflexivity.
  - exact H0.
  - cbn [logged oracle log]. rewrite length_app. cbn [length].
    rewrite Nat.add_1_r. exact H1.
Qed.

End MetadataFurther.

Lemma fetch_meta_round_trip_witness :
  let s := {| database := "cpe";
              tables := [fetch_metas_table; categorized_cpes_table];
              fetch_metas := [{| MetaID := 1; GoCPEDictRevision := "old"; SchemaVersion := 1;
                                 LastFetchedAt := 1600000000 |}];
              categorized_cpes := [Sample.cpe_a] |} in
  let w := Sample.world s Sample.healthy in
  let w1 := snd (RDBDriver.GetFetchMeta "rev" 2 Sample.sqlite w) in
  (healthy_from_now w /\ Forall (fun m => MetaID m <> 0) (fetch_metas (store w))) /\
  exists m0 m1,
    fst (RDBDriver.GetFetchMeta "rev" 2 Sample.sqlite w) = (Some m0, None) /\
    fst (RDBDriver.GetFetchMeta "rev" 2 Sample.sqlite
           (snd (RDBDriver.UpsertFetchMeta "rev" 2 Sample.sqlite (fetched_at 1700000000 m0) w1)))
      = (Some m1, None) /\
    LastFetchedAt m1 = 1700000000.
Proof.
  intros s w w1.
  assert (H0 : healthy_from_now w) by (intros p _; reflexivity).
  assert (H1 : Forall (fun m => MetaID m <> 0) (fetch_metas (store w)))
    by (repeat constructor; discriminate).
  split; [auto|].
  destruct (fetch_meta_round_trip "rev" 2 Sample.sqlite w 1700000000 H0 H1)
    as (m0 & m1 & G0 & _ & G1 & _ & _ & T & _).
  exists m0, m1. auto.
Defined.

Lemma GetFetchMeta_reads_witness :
  let w := Sample.world Sample.migrated Sample.healthy in
  (oracle w (length (log w)) = None /\ oracle w (S (length (log w))) = None) /\
  fst (RDBDriver.GetFetchMeta "rev" 2 Sample.sqlite
         (snd (RDBDriver.GetFetchMeta "rev" 2 Sample.sqlite w)))
  = fst (RDBDriver.GetFetchMeta "rev" 2 Sample.sqlite w).
Proof.
  intros w.
  assert (H0 : oracle w (length (log w)) = None) by reflexivity.
  assert (H1 : oracle w (S (length (log w))) = None) by reflexivity.
  split; [auto|].
  exact (proj2 (GetFetchMeta_reads "rev" 2 Sample.sqlite w) H0 H1).
Defined.

(** ** The calls of [OpenDB] *)

Section OpenCalls.

Lemma not_relational n :
  ~ relational n ->
  String.eqb n dialectSqlite3 = false /\ String.eqb n dialectMysql = false /\
  String.eqb n dialectPostgreSQL = false.
Proof.
  intros H. repeat split; apply String.eqb_neq; intros E; apply H; subst n;
    unfold relational; simpl; auto.
Qed.

(** X22.  What [OpenDB] asks of the backend.  It never touches the store.
    On a driver whose name is none of the three dialects it makes no call
    at all and returns the error [Not Supported DB dialects] unlocked.  On a
    driver of one of the three it opens the connection and, for sqlite3 with
    the connection open, turns the foreign keys on, and nothing else; the
    outcome of that statement is not looked at: once the connection is open,
    [OpenDB] returns no error. *)
Theorem OpenDB_calls r dbType dbPath debugSQL w :
  store (snd (RDBDriver.OpenDB r dbType dbPath debugSQL w)) = store w /\
  (~ relational (name r) ->
   RDBDriver.OpenDB r dbType dbPath debugSQL w
   = (Returns (false,
               Some (open_failure dbType dbPath
                       (text_error "Not Supported DB dialects. r.name: %s" [name r]))), w)) /\
  (relational (name r) ->
   (exists dialector,
      log (snd (RDBDriver.OpenDB r dbType dbPath debugSQL w))
      = log w ++ SOpen dialector dbPath debugSQL ::
          match oracle w (length (log w)) with
          | None => if String.eqb (name r) dialectSqlite3
                    then [SExec "PRAGMA foreign_keys = ON"] else []
          | Some _ => []
          end) /\
   (oracle w (length (log w)) = None ->
    fst (RDBDriver.OpenDB r dbType dbPath debugSQL w) = Returns (false, None))).
Proof.
  split; [|split].
  - unfold RDBDriver.OpenDB, gorm_Open, conn_Exec, note, issue, bind, ret.
    destruct (String.eqb (name r) dialectSqlite3);
      [|destruct (String.eqb (name r) dialectMysql);
        [|destruct (String.eqb (name r) dialectPostgreSQL)]];
      cbn [fst snd]; try reflexivity;
      destruct (oracle w (length (log w))) as [[Code|text]|]; cbn [option_map fault_error];
      try reflexivity.
    destruct ((Code =? sqlite3_ErrLocked) || (Code =? sqlite3_ErrBusy)); reflexivity.
  - intros H. destruct (not_relational (name r) H) as (E1 & E2 & E3).
    unfold RDBDriver.OpenDB, bind, ret, open_failure. rewrite E1, E2, E3. reflexivity.
  - intros H. unfold RDBDriver.OpenDB, gorm_Open, conn_Exec, note, issue, bind, ret.
    destruct H as [E|[E|[E|[]]]]; rewrite <- E;
      cbv [dialectSqlite3 dialectMysql dialectPostgreSQL];
      cbn [String.eqb Ascii.eqb Bool.eqb andb];
      destruct (oracle w (length (log w))) as [[Code|text]|];
      cbn [option_map fault_error fst snd log];
      try destruct ((Code =? sqlite3_ErrLocked) || (Code =? sqlite3_ErrBusy));
      cbn [fst snd log];
      (split; [eexists; try rewrite <- app_assoc; reflexivity
              |first [discriminate | intros _; reflexivity]]).
Qed.

Lemma OpenDB_calls_witness :
  let w := Sample.world Sample.migrated (Sample.fails_at 1 (fault_other "no pragma")) in
  (~ relational "oracle" /\
   RDBDriver.OpenDB {| name := "oracle" |} "oracle" "cpe.db" false w
   = (Returns (false,
               Some (open_failure "oracle" "cpe.db"
                       (text_error "Not Supported DB dialects. r.name: %s" ["oracle"]))), w)) /\
  (relational (name Sample.sqlite) /\ oracle w (length (log w)) = None /\
   fst (RDBDriver.OpenDB Sample.sqlite "sqlite3" "cpe.db" false w) = Returns (false, None)).
Proof.
  intros w.
  assert (H1 : ~ relational "oracle").
  { unfold relational. simpl. intuition discriminate. }
  assert (H2 : relational (name Sample.sqlite)) by (left; reflexivity).
  assert (H3 : oracle w (length (log w)) = None) by reflexivity.
  split.
  - split; [exact H1|].
    exact (proj1 (proj2 (OpenDB_calls {| name := "oracle" |} "oracle" "cpe.db" false w)) H1).
  - split; [exact H2|]. split; [exact H3|].
    exact (proj2 (proj2 (proj2 (OpenDB_calls Sample.sqlite "sqlite3" "cpe.db" false w)) H2) H3).
Defined.

End OpenCalls.

(** ** What [NewDB] promises its caller *)

Section Contract.

Variable config_Revision : string.
Variable models_LatestSchemaVersion : Z.
Variable dialectRedis : string.
Variable RedisDriver : string -> DB.

(** X23.  The three results of [NewDB] hang together, for every dialect and
    every implementation of the key-value driver.  When it returns: [locked]
    is reported only with an error and without a driver; without an error a
    driver is returned, unlocked; and a driver that is returned is the one
    [newDB] made for the dialect. *)
Theorem NewDB_contract dbType dbPath debugSQL w driver locked err :
  fst (NewDB config_Revision models_LatestSchemaVersion dialectRedis RedisDriver
         dbType dbPath debugSQL w) = Returns (driver, locked, err) ->
  (locked = true -> driver = None /\ err <> None) /\
  (err = None -> locked = false /\ driver <> None) /\
  (forall d, driver = Some d ->
     locked = false /\
     newDB config_Revision models_LatestSchemaVersion dialectRedis RedisDriver dbType = inl d).
Proof.
  unfold NewDB.
  destruct (newDB config_Revision models_LatestSchemaVersion dialectRedis RedisDriver dbType)
    as [d0|e0].
  - unfold bind, ret.
    destruct (OpenDB d0 dbType dbPath debugSQL w) as [o w1].
    destruct o as [[l [e|]]|text]; cbn [fst snd].
    + destruct l; cbn [fst]; intros E; inversion E; subst;
        (split; [|split]); try discriminate; intros; try split; congruence.
    + destruct (IsGoCPEDictModelV1 d0 w1) as [[isV1 [e|]] w2]; cbn [fst snd].
      * intros E; inversion E; subst.
        (split; [|split]); try discriminate; intros; try split; congruence.
      * destruct isV1; cbn [fst].
        -- intros E; inversion E; subst.
           (split; [|split]); try discriminate; intros; try split; congruence.
        -- destruct (MigrateDB d0 w2) as [[e|] w3]; cbn [fst];
             intros E; inversion E; subst;
             (split; [|split]); try discriminate; intros; try split; congruence.
    + discriminate.
  - unfold ret. cbn [fst]. intros E; inversion E; subst.
    (split; [|split]); try discriminate; intros; try split; congruence.
Qed.

End Contract.

Lemma NewDB_contract_witness :
  let w := Sample.world Sample.migrated Sample.healthy in
  let driver := RDBDriver.as_DB "rev" 2 {| name := "sqlite3" |} in
  fst (NewDB "rev" 2 "redis" Sample.other_driver "sqlite3" "cpe.db" false w)
    = Returns (Some driver, false, None) /\
  newDB "rev" 2 "redis" Sample.other_driver "sqlite3" = inl driver.
Proof.
  intros w driver.
  assert (H : fst (NewDB "rev" 2 "redis" Sample.other_driver "sqlite3" "cpe.db" false w)
              = Returns (Some driver, false, None)) by reflexivity.
  split; [exact H|].
  exact (proj2 (proj2 (proj2 (NewDB_contract "rev" 2 "redis" Sample.other_driver
                                "sqlite3" "cpe.db" false w (Some driver) false None H))
                 driver eq_refl)).
Defined.

(** ** The verdict of [IsGoCPEDictModelV1] *)

Section Verdict.

Lemma tested_absent w :
  has_fetch_meta (store w) = false -> tested fetch_metas_table w = false.
Proof.
  intros H. unfold tested. destruct (oracle w (length (log w))); [reflexivity|exact H].
Qed.

Lemma verdict_mysql r w :
  name r = dialectMysql -> has_fetch_meta (store w) = false ->
  verdict r w
  = count_verdict "information_schema.tables" "table_schema = ?"
      (match oracle w (S (length (log w))) with
       | Some _ => ""
       | None => database (store w)
       end)
      (logged (logged w (SHasTable fetch_metas_table)) SCurrentDatabase).
Proof.
  intros Hname Hhas. unfold verdict. rewrite (tested_absent w Hhas), Hname.
  cbv [dialectSqlite3 dialectMysql]. cbn [String.eqb Ascii.eqb Bool.eqb andb].
  unfold current_database. rewrite length_logged. reflexivity.
Qed.

(** X24.  The verdict of [IsGoCPEDictModelV1], on any driver and whatever
    the backend does.  It never writes.  On a store that has the metadata
    table it answers [(false, nil)] after the one test for the table, when
    the backend answers that test.  It answers [true] only without an error
    and only for a store that has some table, and for one that has the
    metadata table only when the backend failed the test for it; an error
    comes only with [false] and is the backend's own.  On mysql the tables
    counted are those of the schema that [CurrentDatabase] names: the
    current database when the backend answers that query, and the schema of
    the empty name when it fails it, so that a store with a name then never
    gets the verdict [true]. *)
Theorem IsGoCPEDictModelV1_verdict r w :
  store (snd (RDBDriver.IsGoCPEDictModelV1 r w)) = store w /\
  (has_fetch_meta (store w) = true -> oracle w (length (log w)) = None ->
   RDBDriver.IsGoCPEDictModelV1 r w = (false, None, logged w (SHasTable fetch_metas_table))) /\
  (forall isV1 err,
     fst (RDBDriver.IsGoCPEDictModelV1 r w) = (isV1, err) ->
     (isV1 = true ->
      err = None /\ tables (store w) <> [] /\
      (has_fetch_meta (store w) = false \/ oracle w (length (log w)) <> None)) /\
     (forall e, err = Some e -> isV1 = false /\ exists f, e = fault_error f)) /\
  (name r = dialectMysql -> has_fetch_meta (store w) = false ->
   (oracle w (S (length (log w))) = None ->
    In (SCount "information_schema.tables" "table_schema = ?" (database (store w)))
       (log (snd (RDBDriver.IsGoCPEDictModelV1 r w)))) /\
   (oracle w (S (length (log w))) <> None ->
    In (SCount "information_schema.tables" "table_schema = ?" "")
       (log (snd (RDBDriver.IsGoCPEDictModelV1 r w))) /\
    (database (store w) <> "" -> fst (fst (RDBDriver.IsGoCPEDictModelV1 r w)) = false))).
Proof.
  rewrite IsGoCPEDictModelV1_eq.
  split; [apply verdict_frame|]. split; [|split].
  - intros Hhas Hok. apply verdict_has; assumption.
  - intros isV1 err E.
    destruct (verdict_sound r w isV1 err E) as [H1 H2].
    split; [|exact H2]. intros Ht. destruct (H1 Ht) as (Hn & Hne & Htest).
    split; [exact Hn|]. split; [exact Hne|].
    destruct (has_fetch_meta (store w)); [right; apply Htest; reflexivity|left; reflexivity].
  - intros Hname Hhas. rewrite (verdict_mysql r w Hname Hhas). split.
    + intros Hok. rewrite Hok. cbn [count_verdict snd logged log].
      apply in_or_app. right. left. reflexivity.
    + intros Hfail. destruct (oracle w (S (length (log w)))) as [f|]; [|contradiction].
      split.
      * cbn [count_verdict snd logged log]. apply in_or_app. right. left. reflexivity.
      * intros Hdb. rewrite count_verdict_cases.
        destruct (oracle _ _); [reflexivity|]. cbn [fst logged store].
        unfold count_rows. cbn [String.eqb Ascii.eqb Bool.eqb andb].
        destruct (database (store w)) as [|a d]; [contradiction|]. reflexivity.
Qed.

Lemma IsGoCPEDictModelV1_verdict_witness :
  let w := Sample.world Sample.legacy Sample.healthy in
  let w' := Sample.world Sample.legacy (Sample.fails_at 1 (fault_other "gone away")) in
  (fst (RDBDriver.IsGoCPEDictModelV1 {| name := "mysql" |} w) = (true, None) /\
   name {| name := "mysql" |} = dialectMysql /\ has_fetch_meta (store w) = false /\
   oracle w (S (length (log w))) = None /\
   oracle w' (S (length (log w'))) <> None /\ database (store w') <> "") /\
  (tables (store w) <> [] /\
   (has_fetch_meta (store w) = false \/ oracle w (length (log w)) <> None)) /\
  In (SCount "information_schema.tables" "table_schema = ?" "cpe")
     (log (snd (RDBDriver.IsGoCPEDictModelV1 {| name := "mysql" |} w))) /\
  fst (RDBDriver.IsGoCPEDictModelV1 {| name := "mysql" |} w') = (false, None) /\
  fst (fst (RDBDriver.IsGoCPEDictModelV1 {| name := "mysql" |} w')) = false.
Proof.
  intros w w'.
  assert (H0 : fst (RDBDriver.IsGoCPEDictModelV1 {| name := "mysql" |} w) = (true, None))
    by reflexivity.
  assert (H1 : name {| name := "mysql" |} = dialectMysql) by reflexivity.
  assert (H2 : has_fetch_meta (store w) = false) by reflexivity.
  assert (H3 : oracle w (S (length (log w))) = None) by reflexivity.
  assert (H4 : oracle w' (S (length (log w'))) <> None) by discriminate.
  assert (H5 : database (store w') <> "") by discriminate.
  split; [auto 7|].
  pose proof (IsGoCPEDictModelV1_verdict {| name := "mysql" |} w) as (_ & _ & V & Q).
  pose proof (IsGoCPEDictModelV1_verdict {| name := "mysql" |} w') as (_ & _ & _ & Q').
  split.
  - destruct (proj1 (V true None H0) eq_refl) as (_ & A & B). split; assumption.
  - split; [exact (proj1 (Q H1 H2) H3)|]. split; [reflexivity|].
    exact (proj2 (proj2 (Q' H1 H2) H4) H5).
Defined.

End Verdict.
